(** * Boundary schemas of the job-execution platform

    A shallow embedding of [packages/internal/src/schemas/api.ts].  The file
    declares its contracts with the [zod] combinator library; every schema is a
    function from a JavaScript value to a parse outcome, and the embedding
    keeps that reading: a schema is a Rocq function [jsval -> ParseReturn],
    an object shape is an ordered list of named schemas, and the combinators
    ([z.object], [.optional()], [.default()], [.transform()], ...) are defined
    once and then used to transcribe the declarations of the source line by
    line.

    The development has two parts.  The first holds the definitions: the
    values of the language, the combinators, what the schemas take from the
    engine ([Engine]), [JSON.stringify] and [JSON.parse], the [ulid] package,
    the schemas of [api.ts], one engine for the examples ([Sample]) and the
    task ledger of the spec ([TaskLedger]).  The second holds the properties:
    what the combinators return, then one section for each schema the spec
    makes a statement about, and last the properties of the other schemas of
    the file: what [z.object] builds, schemas that accept what they return,
    the JSON reader on what [JSON.stringify] writes, and one section for each
    group of schemas. *)

From stdpp Require Import base option list gmap strings.
From Stdlib Require Import List String Ascii ZArith NArith Bool Lia SpecFloat.
Import ListNotations.
Open Scope string_scope.

(** ** JavaScript values *)

(** Numbers are IEEE-754 doubles. *)
Definition number := spec_float.

(** The values that reach the schemas.  An object is its own enumerable
    properties in insertion order (the engine's place for keys that are array
    indices is not modelled), and its prototype is the one of an object
    literal, [Object.prototype]: a property may be named [__proto__], as in an
    object that [JSON.parse] returned, but no object inherits enumerable
    properties.  A [Date] is its time value in milliseconds, [None] for an
    invalid date; a string is its text in UTF-8. *)
Unset Elimination Schemes.
Inductive jsval : Type :=
| JUndefined
| JNull
| JBool (b : bool)
| JNum (n : number)
| JStr (s : string)
| JArr (items : list jsval)
| JObj (props : list (string * jsval))
| JDate (t : option Z)
| JSymbol (description : string).
Set Elimination Schemes.

Definition Props := list (string * jsval).

(** [data[key]]: [undefined] when the property is missing. *)
Fixpoint getProp (key : string) (props : Props) : jsval :=
  match props with
  | [] => JUndefined
  | (k, v) :: rest => if String.eqb k key then v else getProp key rest
  end.

(** [key in data] *)
Fixpoint hasProp (key : string) (props : Props) : bool :=
  match props with
  | [] => false
  | (k, _) :: rest => String.eqb k key || hasProp key rest
  end.

(** [obj[key] = v]: an existing property keeps its place. *)
Fixpoint setProp (key : string) (v : jsval) (props : Props) : Props :=
  match props with
  | [] => [(key, v)]
  | (k, w) :: rest =>
      if String.eqb k key then (k, v) :: rest else (k, w) :: setProp key v rest
  end.

(** ** Parse outcomes *)

Inductive exn : Type := ZodError | SyntaxError | TypeError | UlidError.

(** What [_parse] hands back: zod's three statuses, and an exception raised
    by user code inside the schema (a transform or a default). *)
Inductive ParseReturn : Type :=
| OK (value : jsval)
| DIRTY (value : jsval)
| INVALID
| Throw (e : exn).

Definition Schema := jsval -> ParseReturn.
Definition Shape := list (string * Schema).

(** The outcome of a JavaScript call: a value or an exception. *)
Inductive Completion : Type :=
| Returns (value : jsval)
| Throws (e : exn).

(** Sequencing of calls: an exception leaves at once. *)
Definition andThen (first : Completion) (next : jsval -> Completion) : Completion :=
  match first with
  | Returns value => next value
  | Throws e => Throws e
  end.

Notation "'let!' x ':=' first 'in' next" :=
  (andThen first (fun x => next))
  (at level 10, x name, first at level 100, next at level 200).

(** [schema.parse(data)] *)
Definition parse (schema : Schema) (data : jsval) : Completion :=
  match schema data with
  | OK value => Returns value
  | DIRTY _ | INVALID => Throws ZodError
  | Throw e => Throws e
  end.

(** ** Primitive schemas *)

Definition z_string : Schema := fun data =>
  match data with JStr _ => OK data | _ => INVALID end.

Definition z_boolean : Schema := fun data =>
  match data with JBool _ => OK data | _ => INVALID end.

Definition is_nan (n : number) : bool :=
  match n with S754_nan => true | _ => false end.

(** [typeof NaN] is reported as the parsed type [nan], not [number]. *)
Definition z_number : Schema := fun data =>
  match data with
  | JNum n => if is_nan n then INVALID else OK data
  | _ => INVALID
  end.

Definition z_null : Schema := fun data =>
  match data with JNull => OK data | _ => INVALID end.

Definition z_undefined : Schema := fun data =>
  match data with JUndefined => OK data | _ => INVALID end.

Definition z_symbol : Schema := fun data =>
  match data with JSymbol _ => OK data | _ => INVALID end.

Definition z_date : Schema := fun data =>
  match data with
  | JDate (Some t) => OK (JDate (Some t))
  | _ => INVALID
  end.

(** [z.literal(true)], [z.literal(false)]: strict equality with the literal. *)
Definition z_literal_bool (lit : bool) : Schema := fun data =>
  match data with
  | JBool b => if Bool.eqb b lit then OK data else INVALID
  | _ => INVALID
  end.

(** A string with one more check (url, datetime): a failed check leaves the
    value but marks the outcome dirty. *)
Definition z_string_check (check : string -> bool) : Schema := fun data =>
  match data with
  | JStr s => if check s then OK data else DIRTY data
  | _ => INVALID
  end.

(** ** Wrappers *)

Definition z_optional (inner : Schema) : Schema := fun data =>
  match data with JUndefined => OK JUndefined | _ => inner data end.

Definition z_nullable (inner : Schema) : Schema := fun data =>
  match data with JNull => OK JNull | _ => inner data end.

(** [.default(f)]: the default replaces [undefined] and is then parsed by the
    inner schema.  The default is a thunk and may throw. *)
Definition z_default (defaultValue : Completion) (inner : Schema) : Schema :=
  fun data =>
    match data with
    | JUndefined =>
        match defaultValue with
        | Returns d => inner d
        | Throws e => Throw e
        end
    | _ => inner data
    end.

(** [.transform(f)]: [f] runs on a valid inner value only. *)
Definition z_transform (inner : Schema) (f : jsval -> Completion) : Schema :=
  fun data =>
    match inner data with
    | OK value =>
        match f value with
        | Returns result => OK result
        | Throws e => Throw e
        end
    | other => other
    end.

(** ** Containers *)

(** The first exception among the outcomes, in evaluation order. *)
Fixpoint firstThrow (results : list ParseReturn) : option exn :=
  match results with
  | [] => None
  | Throw e :: _ => Some e
  | _ :: rest => firstThrow rest
  end.

(** [ParseStatus.mergeArray] *)
Fixpoint mergeArray (dirty : bool) (acc : list jsval) (results : list ParseReturn)
  : ParseReturn :=
  match results with
  | [] => if dirty then DIRTY (JArr (rev acc)) else OK (JArr (rev acc))
  | OK v :: rest => mergeArray dirty (v :: acc) rest
  | DIRTY v :: rest => mergeArray true (v :: acc) rest
  | INVALID :: _ => INVALID
  | Throw e :: _ => Throw e
  end.

(** Every element is parsed first ([ctx.data.map]); an exception leaves at
    once, otherwise the outcomes are merged. *)
Definition z_array (element : Schema) : Schema := fun data =>
  match data with
  | JArr items =>
      let results := map element items in
      match firstThrow results with
      | Some e => Throw e
      | None => mergeArray false [] results
      end
  | _ => INVALID
  end.

(** One entry of [pairs] in [ZodObject._parse] and [ZodRecord._parse]. *)
Record Pair : Type := mkPair {
  pair_key : string;
  pair_value : ParseReturn;
  alwaysSet : bool
}.

(** The assignment [finalObject[key] = value] of [mergeObjectSync], made when
    the value is defined or the key was present in the data.  For the key
    [__proto__] the assignment goes to the setter that [finalObject] inherits
    from [Object.prototype]: it makes no own property, so the key is lost.  (The
    setter does nothing for a primitive value; for an object or [null] it
    replaces the prototype of [finalObject], which then is no object of
    [jsval]: the value here holds its own properties, and the statements that
    hand such an output to a schema again exclude the key, see [noProtoKey].) *)
Definition assignPair (p : Pair) (v : jsval) (finalObject : Props) : Props :=
  if String.eqb (pair_key p) "__proto__" then finalObject
  else
    match v with
    | JUndefined =>
        if alwaysSet p then setProp (pair_key p) v finalObject else finalObject
    | _ => setProp (pair_key p) v finalObject
    end.

(** [ParseStatus.mergeObjectSync] *)
Fixpoint mergeObjectSync (dirty : bool) (finalObject : Props) (pairs : list Pair)
  : ParseReturn :=
  match pairs with
  | [] => if dirty then DIRTY (JObj finalObject) else OK (JObj finalObject)
  | p :: rest =>
      match pair_value p with
      | INVALID => INVALID
      | Throw e => Throw e
      | OK v => mergeObjectSync dirty (assignPair p v finalObject) rest
      | DIRTY v => mergeObjectSync true (assignPair p v finalObject) rest
      end
  end.

Definition shapePairs (shape : Shape) (props : Props) : list Pair :=
  map (fun entry : string * Schema =>
         mkPair (fst entry) (snd entry (getProp (fst entry) props))
                (hasProp (fst entry) props))
      shape.

(** [z.object(shape)] with the default policy for unknown keys, [strip]: the
    keys of the shape are parsed in their order, other keys are dropped.  The
    reads [data[key]] and [key in data] are reads of own properties, which they
    are for the keys of the shapes of [api.ts]: none is a name that
    [Object.prototype] defines. *)
Definition z_object (shape : Shape) : Schema := fun data =>
  match data with
  | JObj props =>
      let pairs := shapePairs shape props in
      match firstThrow (map pair_value pairs) with
      | Some e => Throw e
      | None => mergeObjectSync false [] pairs
      end
  | _ => INVALID
  end.

(** [z.record(valueType)], string keys: the keys that [for (key in data)]
    walks, which are the own keys of the data (see [jsval]); a key [__proto__]
    among them is parsed like the others and lost in the merge (see
    [assignPair]). *)
Definition z_record (valueType : Schema) : Schema := fun data =>
  match data with
  | JObj props =>
      let pairs := map (fun entry : string * jsval =>
                          mkPair (fst entry) (valueType (snd entry)) false) props in
      match firstThrow (map pair_value pairs) with
      | Some e => Throw e
      | None => mergeObjectSync false [] pairs
      end
  | _ => INVALID
  end.

(** [z.union(options)]: the first valid outcome; failing that the first
    dirty one; failing that, invalid. *)
Fixpoint unionFrom (dirty : option jsval) (options : list Schema) (data : jsval)
  : ParseReturn :=
  match options with
  | [] => match dirty with Some v => DIRTY v | None => INVALID end
  | option :: rest =>
      match option data with
      | OK v => OK v
      | DIRTY v =>
          unionFrom (match dirty with Some _ => dirty | None => Some v end) rest data
      | INVALID => unionFrom dirty rest data
      | Throw e => Throw e
      end
  end.

Definition z_union (options : list Schema) : Schema := unionFrom None options.

(** [z.discriminatedUnion(discriminator, options)] for options told apart
    by a boolean literal: the data must be an object, and the option is looked
    up by the value of the discriminator. *)
Fixpoint optionFor (value : jsval) (options : list (bool * Schema)) : option Schema :=
  match options with
  | [] => None
  | (lit, option) :: rest =>
      match value with
      | JBool b => if Bool.eqb b lit then Some option else optionFor value rest
      | _ => None
      end
  end.

Definition z_discriminatedUnion (discriminator : string)
    (options : list (bool * Schema)) : Schema := fun data =>
  match data with
  | JObj props =>
      match optionFor (getProp discriminator props) options with
      | Some option => option data
      | None => INVALID
      end
  | _ => INVALID
  end.

(** ** Shapes: [.extend], [.omit], [.pick] *)

Fixpoint shapeSet (key : string) (s : Schema) (shape : Shape) : Shape :=
  match shape with
  | [] => [(key, s)]
  | (k, t) :: rest =>
      if String.eqb k key then (k, s) :: rest else (k, t) :: shapeSet key s rest
  end.

(** [{ ...shape, ...augmentation }] *)
Definition shape_extend (shape augmentation : Shape) : Shape :=
  fold_left (fun acc entry => shapeSet (fst entry) (snd entry) acc) augmentation shape.

Definition shape_omit (mask : list string) (shape : Shape) : Shape :=
  List.filter (fun entry => negb (existsb (String.eqb (fst entry)) mask)) shape.

Fixpoint shapeGet (key : string) (shape : Shape) : option Schema :=
  match shape with
  | [] => None
  | (k, s) :: rest => if String.eqb k key then Some s else shapeGet key rest
  end.

(** [.pick(mask)] walks the keys of the mask, so the picked shape is in the
    order of the mask. *)
Definition shape_pick (mask : list string) (shape : Shape) : Shape :=
  flat_map (fun key => match shapeGet key shape with
                       | Some s => [(key, s)]
                       | None => []
                       end) mask.

(** ** [./json] *)

(** Modelled from the spec: [./json] is not among the sources.  The literals
    of JSON: a string, a number, a boolean or [null]. *)
Definition LiteralSchema : Schema := z_union [z_string; z_number; z_boolean; z_null].

(** Modelled from the spec: [./json] is not among the sources.  The spec
    calls it the deserialized form of a value: what [JSON.parse] returns, a
    literal, an array of such values or a record of such values
    ([z.lazy] over a union). *)
Fixpoint DeserializedJsonSchema (data : jsval) : ParseReturn :=
  z_union [LiteralSchema; z_array DeserializedJsonSchema; z_record DeserializedJsonSchema] data.

(** Modelled from the spec: [./json] is not among the sources.  The leaves
    of what can be handed to [JSON.stringify]: the literals of JSON, and also a
    date, [undefined] and a symbol. *)
Definition SerializableSchema : Schema :=
  z_union [z_string; z_number; z_boolean; z_null; z_date; z_undefined; z_symbol].

(** Modelled from the spec: [./json] is not among the sources.  A value that
    can be serialized: such a leaf, an array of such values or a record of
    such values. *)
Fixpoint SerializableJsonSchema (data : jsval) : ParseReturn :=
  z_union [SerializableSchema; z_array SerializableJsonSchema;
           z_record SerializableJsonSchema] data.

(** ** The host: what the JavaScript engine supplies *)

(** Conversions between text and doubles, the date grammar, the URL parser
    and the text of a code unit outside ASCII belong to the engine, and zod's
    datetime pattern to the library; the schemas only call them. *)
Class Engine : Type := {
  (** the double denoted by a JSON number token *)
  StringToNumber : string -> number;
  (** [Number::toString] of a finite double *)
  NumberToString : number -> string;
  (** the text of the code unit written [\uXXXX], for a unit above 127 *)
  wideChar : N -> string;
  (** [Date.parse]: [None] for [NaN] *)
  DateParse : string -> option Z;
  (** [Date.prototype.toISOString] of a valid time value *)
  toISOString : Z -> string;
  (** the string an array or a plain object converts to ([ToPrimitive]),
      [None] when the conversion throws a [TypeError] *)
  objectToString : jsval -> option string;
  (** [new URL(s)] does not throw *)
  isURL : string -> bool;
  (** the pattern behind [z.string().datetime()] matches *)
  isDatetime : string -> bool
}.

(** ** [JSON.stringify] *)

Definition dquote : ascii := ascii_of_N 34.
Definition backslash : ascii := ascii_of_N 92.

Definition hexDigit (n : N) : ascii :=
  if (n <? 10)%N then ascii_of_N (48 + n) else ascii_of_N (87 + n).

(** One character of [QuoteJSONString]. *)
Definition quoteChar (c : ascii) : string :=
  let n := N_of_ascii c in
  if (n =? 34)%N then String backslash (String dquote "")
  else if (n =? 92)%N then "\\"
  else if (n =? 8)%N then "\b"
  else if (n =? 12)%N then "\f"
  else if (n =? 10)%N then "\n"
  else if (n =? 13)%N then "\r"
  else if (n =? 9)%N then "\t"
  else if (n <? 32)%N then
    "\u00" ++ String (hexDigit (n / 16)) (String (hexDigit (n mod 16)) "")
  else String c "".

Fixpoint quoteChars (s : string) : string :=
  match s with
  | EmptyString => ""
  | String c rest => quoteChar c ++ quoteChars rest
  end.

Definition QuoteJSONString (s : string) : string :=
  String dquote (quoteChars s ++ String dquote "").

Definition isFinite (n : number) : bool :=
  match n with S754_zero _ | S754_finite _ _ _ => true | _ => false end.

Fixpoint joinWith (separator : string) (parts : list string) : string :=
  match parts with
  | [] => ""
  | [x] => x
  | x :: rest => x ++ separator ++ joinWith separator rest
  end.

(** [SerializeJSONProperty]: [None] is [undefined].  In an array a value
    without a serialization is written [null]; in an object its property is
    left out. *)
Fixpoint SerializeJSONProperty {engine : Engine} (value : jsval) : option string :=
  match value with
  | JUndefined | JSymbol _ => None
  | JNull => Some "null"
  | JBool b => Some (if b then "true" else "false")
  | JNum n => Some (if isFinite n then NumberToString n else "null")
  | JStr s => Some (QuoteJSONString s)
  | JDate None => Some "null"
  | JDate (Some t) => Some (QuoteJSONString (toISOString t))
  | JArr items =>
      Some ("[" ++ joinWith ","
                     (map (fun item => match SerializeJSONProperty item with
                                       | Some text => text
                                       | None => "null"
                                       end) items) ++ "]")
  | JObj props =>
      Some ("{" ++ joinWith ","
                     (flat_map
                        (fun entry : string * jsval =>
                           match SerializeJSONProperty (snd entry) with
                           | Some text => [QuoteJSONString (fst entry) ++ ":" ++ text]
                           | None => []
                           end) props) ++ "}")
  end.

(** [JSON.stringify(value)]: a string or [undefined]. *)
Definition JSON_stringify {engine : Engine} (value : jsval) : jsval :=
  match SerializeJSONProperty value with
  | Some text => JStr text
  | None => JUndefined
  end.

(** [ToBoolean], the test of [s ? a : b]. *)
Definition ToBoolean (value : jsval) : bool :=
  match value with
  | JUndefined | JNull => false
  | JBool b => b
  | JNum n => match n with S754_zero _ | S754_nan => false | _ => true end
  | JStr s => match s with EmptyString => false | String _ _ => true end
  | JArr _ | JObj _ | JDate _ | JSymbol _ => true
  end.

(** [ToString]: [None] when the conversion throws a [TypeError]. *)
Definition ToString {engine : Engine} (value : jsval) : option string :=
  match value with
  | JUndefined => Some "undefined"
  | JNull => Some "null"
  | JBool b => Some (if b then "true" else "false")
  | JNum n =>
      Some (match n with
            | S754_nan => "NaN"
            | S754_infinity false => "Infinity"
            | S754_infinity true => "-Infinity"
            | _ => NumberToString n
            end)
  | JStr s => Some s
  | JSymbol _ => None
  | JArr _ | JObj _ | JDate _ => objectToString value
  end.

(** ** Dates *)

(** [TimeClip] of a double: an integral number of milliseconds, at most
    8.64e15 in magnitude. *)
Definition TimeClip (n : number) : option Z :=
  match n with
  | S754_zero _ => Some 0%Z
  | S754_finite sign m e =>
      let magnitude :=
        if (0 <=? e)%Z then (Z.pos m * 2 ^ e)%Z else (Z.pos m / 2 ^ (- e))%Z in
      if (8640000000000000 <? magnitude)%Z then None
      else Some (if sign then (- magnitude)%Z else magnitude)
  | S754_infinity _ | S754_nan => None
  end.

(** The time value of [new Date(value)]; a symbol cannot be converted. *)
Definition newDate {engine : Engine} (value : jsval) : option (option Z) :=
  match value with
  | JDate t => Some t
  | JUndefined => Some None
  | JNull => Some (Some 0%Z)
  | JBool b => Some (Some (if b then 1%Z else 0%Z))
  | JNum n => Some (TimeClip n)
  | JStr s => Some (DateParse s)
  | JArr _ | JObj _ =>
      match ToString value with
      | Some s => Some (DateParse s)
      | None => None
      end
  | JSymbol _ => None
  end.

(** [z.coerce.date()]: the data is replaced by [new Date(data)], which must
    be a valid date. *)
Definition z_coerce_date {engine : Engine} : Schema := fun data =>
  match newDate data with
  | Some (Some t) => OK (JDate (Some t))
  | Some None => INVALID
  | None => Throw TypeError
  end.

(** ** [JSON.parse] *)

(** The outcome of reading a prefix of the text. *)
Inductive Parsed (A : Type) : Type :=
| Done (result : A) (rest : string)
| Unexpected
| OutOfFuel.
Arguments Done {A} result rest.
Arguments Unexpected {A}.
Arguments OutOfFuel {A}.

Definition isWhitespace (c : ascii) : bool :=
  let n := N_of_ascii c in
  (n =? 32)%N || (n =? 9)%N || (n =? 10)%N || (n =? 13)%N.

Fixpoint skipWhitespace (s : string) : string :=
  match s with
  | String c rest => if isWhitespace c then skipWhitespace rest else s
  | EmptyString => s
  end.

Definition isDigit (c : ascii) : bool :=
  let n := N_of_ascii c in (48 <=? n)%N && (n <=? 57)%N.

(** The longest run of digits at the head, and what follows it. *)
Fixpoint takeDigits (s : string) : string * string :=
  match s with
  | String c rest =>
      if isDigit c
      then let (digits, tail) := takeDigits rest in (String c digits, tail)
      else ("", s)
  | EmptyString => ("", s)
  end.

Fixpoint stripPrefix (prefix s : string) : option string :=
  match prefix, s with
  | EmptyString, _ => Some s
  | String p prefix', String c rest =>
      if Ascii.eqb p c then stripPrefix prefix' rest else None
  | String _ _, EmptyString => None
  end.

(** The integer part of a number token: [0], or a digit from 1 to 9 and
    more digits. *)
Definition readInt (s : string) : option (string * string) :=
  match s with
  | String c rest =>
      if Ascii.eqb c "0" then Some ("0", rest)
      else if isDigit c
           then let (digits, tail) := takeDigits rest in Some (String c digits, tail)
           else None
  | EmptyString => None
  end.

Definition readFraction (s : string) : option (string * string) :=
  match stripPrefix "." s with
  | Some rest =>
      match takeDigits rest with
      | (EmptyString, _) => None
      | (digits, tail) => Some (String "." digits, tail)
      end
  | None => Some ("", s)
  end.

Definition readSign (s : string) : string * string :=
  match stripPrefix "+" s, stripPrefix "-" s with
  | Some rest, _ => ("+", rest)
  | None, Some rest => ("-", rest)
  | None, None => ("", s)
  end.

Definition readExponent (s : string) : option (string * string) :=
  match s with
  | String c rest =>
      if Ascii.eqb c "e" || Ascii.eqb c "E" then
        let (sign, rest') := readSign rest in
        match takeDigits rest' with
        | (EmptyString, _) => None
        | (digits, tail) => Some (String c (sign ++ digits), tail)
        end
      else Some ("", s)
  | EmptyString => Some ("", s)
  end.

(** A number token: sign, integer part, fraction, exponent. *)
Definition readNumber (s : string) : option (string * string) :=
  let (sign, s1) :=
    match stripPrefix "-" s with
    | Some rest => ("-", rest)
    | None => ("", s)
    end in
  match readInt s1 with
  | None => None
  | Some (int, s2) =>
      match readFraction s2 with
      | None => None
      | Some (frac, s3) =>
          match readExponent s3 with
          | None => None
          | Some (exp, s4) => Some (sign ++ int ++ frac ++ exp, s4)
          end
      end
  end.

Definition hexValue (c : ascii) : option N :=
  let n := N_of_ascii c in
  if (48 <=? n)%N && (n <=? 57)%N then Some (n - 48)%N
  else if (65 <=? n)%N && (n <=? 70)%N then Some (n - 55)%N
  else if (97 <=? n)%N && (n <=? 102)%N then Some (n - 87)%N
  else None.

Definition hex4 (a b c d : ascii) : option N :=
  match hexValue a, hexValue b, hexValue c, hexValue d with
  | Some x, Some y, Some z, Some w => Some (((x * 16 + y) * 16 + z) * 16 + w)%N
  | _, _, _, _ => None
  end.

Definition codeUnit {engine : Engine} (n : N) : string :=
  if (n <? 128)%N then String (ascii_of_N n) "" else wideChar n.

(** The character a one-letter escape stands for. *)
Definition simpleEscape (c : ascii) : option ascii :=
  if Ascii.eqb c dquote then Some dquote
  else if Ascii.eqb c backslash then Some backslash
  else if Ascii.eqb c "/" then Some "/"%char
  else if Ascii.eqb c "b" then Some (ascii_of_N 8)
  else if Ascii.eqb c "f" then Some (ascii_of_N 12)
  else if Ascii.eqb c "n" then Some (ascii_of_N 10)
  else if Ascii.eqb c "r" then Some (ascii_of_N 13)
  else if Ascii.eqb c "t" then Some (ascii_of_N 9)
  else None.

(** The body of a string after its opening quote, up to the closing one. *)
Fixpoint readString {engine : Engine} (s : string) : option (string * string) :=
  match s with
  | EmptyString => None
  | String c rest =>
      if Ascii.eqb c dquote then Some ("", rest)
      else if Ascii.eqb c backslash then
        match rest with
        | String e rest' =>
            if Ascii.eqb e "u" then
              match rest' with
              | String h1 (String h2 (String h3 (String h4 rest''))) =>
                  match hex4 h1 h2 h3 h4, readString rest'' with
                  | Some n, Some (body, tail) => Some (codeUnit n ++ body, tail)
                  | _, _ => None
                  end
              | _ => None
              end
            else
              match simpleEscape e, readString rest' with
              | Some x, Some (body, tail) => Some (String x body, tail)
              | _, _ => None
              end
        | EmptyString => None
        end
      else if (N_of_ascii c <? 32)%N then None
      else
        match readString rest with
        | Some (body, tail) => Some (String c body, tail)
        | None => None
        end
  end.

(** The object built from the members in order: a repeated name keeps its
    place and takes the later value. *)
Definition objectOf (members : list (string * jsval)) : jsval :=
  JObj (fold_left (fun acc member => setProp (fst member) (snd member) acc) members []).

(** A value, the elements of an array after its bracket, the members of an
    object after its brace.  [fuel] bounds the calls. *)
Fixpoint parseValue {engine : Engine} (fuel : nat) (s : string) : Parsed jsval :=
  match fuel with
  | O => OutOfFuel
  | S fuel =>
      match skipWhitespace s with
      | EmptyString => Unexpected
      | String c rest =>
          if Ascii.eqb c "n" then
            match stripPrefix "ull" rest with
            | Some tail => Done JNull tail
            | None => Unexpected
            end
          else if Ascii.eqb c "t" then
            match stripPrefix "rue" rest with
            | Some tail => Done (JBool true) tail
            | None => Unexpected
            end
          else if Ascii.eqb c "f" then
            match stripPrefix "alse" rest with
            | Some tail => Done (JBool false) tail
            | None => Unexpected
            end
          else if Ascii.eqb c dquote then
            match readString rest with
            | Some (body, tail) => Done (JStr body) tail
            | None => Unexpected
            end
          else if Ascii.eqb c "[" then
            match stripPrefix "]" (skipWhitespace rest) with
            | Some tail => Done (JArr []) tail
            | None =>
                match parseElements fuel rest with
                | Done items tail => Done (JArr items) tail
                | Unexpected => Unexpected
                | OutOfFuel => OutOfFuel
                end
            end
          else if Ascii.eqb c "{" then
            match stripPrefix "}" (skipWhitespace rest) with
            | Some tail => Done (JObj []) tail
            | None =>
                match parseMembers fuel rest with
                | Done members tail => Done (objectOf members) tail
                | Unexpected => Unexpected
                | OutOfFuel => OutOfFuel
                end
            end
          else
            match readNumber (String c rest) with
            | Some (token, tail) => Done (JNum (StringToNumber token)) tail
            | None => Unexpected
            end
      end
  end
with parseElements {engine : Engine} (fuel : nat) (s : string) : Parsed (list jsval) :=
  match fuel with
  | O => OutOfFuel
  | S fuel =>
      match parseValue fuel s with
      | Done item rest =>
          match stripPrefix "," (skipWhitespace rest) with
          | Some rest' =>
              match parseElements fuel rest' with
              | Done items tail => Done (item :: items) tail
              | Unexpected => Unexpected
              | OutOfFuel => OutOfFuel
              end
          | None =>
              match stripPrefix "]" (skipWhitespace rest) with
              | Some tail => Done [item] tail
              | None => Unexpected
              end
          end
      | Unexpected => Unexpected
      | OutOfFuel => OutOfFuel
      end
  end
with parseMembers {engine : Engine} (fuel : nat) (s : string) : Parsed (list (string * jsval)) :=
  match fuel with
  | O => OutOfFuel
  | S fuel =>
      match stripPrefix (String dquote "") (skipWhitespace s) with
      | Some rest =>
          match readString rest with
          | Some (name, rest1) =>
              match stripPrefix ":" (skipWhitespace rest1) with
              | Some rest2 =>
                  match parseValue fuel rest2 with
                  | Done value rest3 =>
                      match stripPrefix "," (skipWhitespace rest3) with
                      | Some rest4 =>
                          match parseMembers fuel rest4 with
                          | Done members tail => Done ((name, value) :: members) tail
                          | Unexpected => Unexpected
                          | OutOfFuel => OutOfFuel
                          end
                      | None =>
                          match stripPrefix "}" (skipWhitespace rest3) with
                          | Some tail => Done [(name, value)] tail
                          | None => Unexpected
                          end
                      end
                  | Unexpected => Unexpected
                  | OutOfFuel => OutOfFuel
                  end
              | None => Unexpected
              end
          | None => Unexpected
          end
      | None => Unexpected
      end
  end.

(** The grammar of [JSON.parse]: one value, then only white space.  The fuel
    is twice the length of the text and two more, which no text exhausts
    (lemma [parseJSONText_fuel]). *)
Definition parseJSONText {engine : Engine} (text : string) : Completion :=
  match parseValue (2 * String.length text + 2) text with
  | Done value rest =>
      match skipWhitespace rest with
      | EmptyString => Returns value
      | String _ _ => Throws SyntaxError
      end
  | Unexpected | OutOfFuel => Throws SyntaxError
  end.

(** [JSON.parse(value)]: the argument is converted to a string first, so
    [undefined] is read as the text [undefined]. *)
Definition JSON_parse {engine : Engine} (value : jsval) : Completion :=
  match ToString value with
  | Some text => parseJSONText text
  | None => Throws TypeError
  end.

(** ** The [ulid] package *)

(** The package that generates the default [id] of a raw event is not among
    the sources.  The module follows the format of a ULID: 26 characters of
    Crockford's base 32, ten for the time in milliseconds and sixteen random
    ones. *)
Module Ulid.

(** Modelled from the spec: the alphabet of the identifiers, Crockford's
    base 32, in increasing order of character codes. *)
Definition ENCODING : string := "0123456789ABCDEFGHJKMNPQRSTVWXYZ".
Definition ENCODING_LEN : Z := 32.
Definition TIME_MAX : Z := 2 ^ 48 - 1.
Definition TIME_LEN : nat := 10.
Definition RANDOM_LEN : nat := 16.

(** [ENCODING.charAt(i)]: the empty string out of range. *)
Definition charAt (i : Z) : string :=
  if (i <? 0)%Z then ""
  else match String.get (Z.to_nat i) ENCODING with
       | Some c => String c ""
       | None => ""
       end.

(** The loop of [encodeTime]: [len] digits, the least significant last. *)
Fixpoint encodeDigits (now : Z) (len : nat) (str : string) : string :=
  match len with
  | O => str
  | S len' =>
      let mod_ := (now mod ENCODING_LEN)%Z in
      encodeDigits ((now - mod_) / ENCODING_LEN)%Z len' (charAt mod_ ++ str)
  end.

(** Modelled from the spec: [encodeTime(now, len)] of the [ulid] package,
    which is not among the sources, for an integral [now]; [None] when it
    throws. *)
Definition encodeTime (now : Z) (len : nat) : option string :=
  if (TIME_MAX <? now)%Z then None
  else if (now <? 0)%Z then None
  else Some (encodeDigits now len "").

(** [randomChar(prng)], given [Math.floor(prng() * ENCODING_LEN)]. *)
Definition randomChar (rand : Z) : string :=
  charAt (if (rand =? ENCODING_LEN)%Z then (ENCODING_LEN - 1)%Z else rand).

(** Modelled from the spec: [encodeRandom(len, prng)] of the [ulid]
    package.  Draw [i] of the generator is [prng i]; each character is put
    before the ones already drawn. *)
Fixpoint encodeRandomFrom (prng : nat -> Z) (i len : nat) (str : string) : string :=
  match len with
  | O => str
  | S len' => encodeRandomFrom prng (S i) len' (randomChar (prng i) ++ str)
  end.

Definition encodeRandom (len : nat) (prng : nat -> Z) : string :=
  encodeRandomFrom prng 0 len "".

(** Modelled from the spec: [ulid()] of the [ulid] package, which is not
    among the sources, at clock reading [now] (milliseconds, [Date.now()]):
    the globally unique, time-sortable identifier the spec asks for. *)
Definition ulid (now : Z) (prng : nat -> Z) : option string :=
  match encodeTime now TIME_LEN with
  | Some time => Some (time ++ encodeRandom RANDOM_LEN prng)
  | None => None
  end.

(** The position of a character in [ENCODING]. *)
Fixpoint indexIn (c : ascii) (alphabet : string) : option Z :=
  match alphabet with
  | EmptyString => None
  | String a rest =>
      if Ascii.eqb a c then Some 0%Z
      else match indexIn c rest with
           | Some i => Some (i + 1)%Z
           | None => None
           end
  end.

(** The value of a run of digits, most significant first. *)
Fixpoint decodeDigits (carry : Z) (s : string) : option Z :=
  match s with
  | EmptyString => Some carry
  | String c rest =>
      match indexIn c ENCODING with
      | Some d => decodeDigits (carry * ENCODING_LEN + d)%Z rest
      | None => None
      end
  end.

(** Modelled from the spec: [decodeTime(id)] of the [ulid] package, the time
    an identifier encodes. *)
Definition decodeTime (id : string) : option Z :=
  if negb (String.length id =? TIME_LEN + RANDOM_LEN)%nat then None
  else match decodeDigits 0 (String.substring 0 TIME_LEN id) with
       | Some time => if (TIME_MAX <? time)%Z then None else Some time
       | None => None
       end.

End Ulid.

(** ** [api.ts] *)

Section Api.

Context {engine : Engine}.

(** Schemas of sibling modules ([./tasks], [./elements], [./connections]). *)
Variable TaskSchema : Schema.
Variable DisplayElementSchema : Schema.
Variable ConnectionAuthSchema : Schema.

(** The clock and the random generator behind [ulid()]. *)
Variable now : Z.
Variable prng : nat -> Z.

Definition RegisterHttpEventSourceBodyShape : Shape :=
  [ ("key", z_string);
    ("connectionId", z_optional z_string) ].

Definition RegisterHttpEventSourceBodySchema : Schema :=
  z_object RegisterHttpEventSourceBodyShape.

Definition UpdateHttpEventSourceBodyShape : Shape :=
  shape_extend (shape_omit ["key"] RegisterHttpEventSourceBodyShape)
    [ ("secret", z_optional z_string);
      ("data", z_optional SerializableJsonSchema);
      ("active", z_optional z_boolean) ].

Definition UpdateHttpEventSourceBodySchema : Schema :=
  z_object UpdateHttpEventSourceBodyShape.

Definition HttpEventSourceShape : Shape :=
  shape_extend UpdateHttpEventSourceBodyShape
    [ ("id", z_string);
      ("active", z_boolean);
      ("url", z_string_check isURL) ].

Definition HttpEventSourceSchema : Schema := z_object HttpEventSourceShape.

Definition HttpSourceRequestHeadersSchema : Schema :=
  z_object
    [ ("x-trigger-key", z_string);
      ("x-trigger-auth",
        z_transform (z_optional z_string)
          (fun s => if ToBoolean s then parse ConnectionAuthSchema s
                    else Returns JUndefined));
      ("x-trigger-url", z_string);
      ("x-trigger-method", z_string);
      ("x-trigger-headers",
        z_transform z_string
          (fun s => let! json := JSON_parse s in parse (z_record z_string) json));
      ("x-trigger-secret", z_optional z_string) ].

Definition ulidDefault : Completion :=
  match Ulid.ulid now prng with
  | Some id => Returns (JStr id)
  | None => Throws UlidError
  end.

Definition RawEventSchema : Schema :=
  z_object
    [ ("id", z_default ulidDefault z_string);
      ("name", z_string);
      ("source", z_default (Returns (JStr "trigger.dev")) z_string);
      ("payload", DeserializedJsonSchema);
      ("context", z_optional DeserializedJsonSchema);
      ("timestamp", z_optional (z_string_check isDatetime)) ].

Definition ApiEventLogSchema : Schema :=
  z_object
    [ ("id", z_string);
      ("name", z_string);
      ("payload", DeserializedJsonSchema);
      ("context", z_nullable (z_optional DeserializedJsonSchema));
      ("timestamp", z_coerce_date);
      ("deliverAt", z_nullable (z_optional z_coerce_date));
      ("deliveredAt", z_nullable (z_optional z_coerce_date)) ].

Definition ExecuteJobResponseSchema : Schema :=
  z_object
    [ ("executionId", z_string);
      ("completed", z_boolean);
      ("output", z_optional DeserializedJsonSchema);
      ("task", z_optional TaskSchema) ].

Definition CreateExecutionResponseOkSchema : Schema :=
  z_object
    [ ("ok", z_literal_bool true);
      ("data", z_object [ ("id", z_string) ]) ].

Definition CreateExecutionResponseErrorSchema : Schema :=
  z_object
    [ ("ok", z_literal_bool false);
      ("error", z_string) ].

Definition CreateExecutionResponseBodySchema : Schema :=
  z_discriminatedUnion "ok"
    [ (true, CreateExecutionResponseOkSchema);
      (false, CreateExecutionResponseErrorSchema) ].

Definition SecureStringSchema : Schema :=
  z_object
    [ ("__secureString", z_literal_bool true);
      ("strings", z_array z_string);
      ("interpolations", z_array z_string) ].

Definition IOTaskShape : Shape :=
  [ ("name", z_string);
    ("icon", z_optional z_string);
    ("displayKey", z_optional z_string);
    ("noop", z_default (Returns (JBool false)) z_boolean);
    ("delayUntil", z_optional z_coerce_date);
    ("description", z_optional z_string);
    ("elements", z_optional (z_array DisplayElementSchema));
    ("params", z_optional SerializableJsonSchema) ].

Definition IOTaskSchema : Schema := z_object IOTaskShape.

Definition RunTaskBodyInputShape : Shape :=
  shape_extend IOTaskShape [ ("idempotencyKey", z_string) ].

Definition RunTaskBodyInputSchema : Schema := z_object RunTaskBodyInputShape.

Definition RunTaskBodyOutputShape : Shape :=
  shape_extend RunTaskBodyInputShape
    [ ("params", z_nullable (z_optional DeserializedJsonSchema)) ].

Definition RunTaskBodyOutputSchema : Schema := z_object RunTaskBodyOutputShape.

Definition CompleteTaskBodyInputShape : Shape :=
  shape_extend
    (shape_pick ["elements"; "description"; "params"] RunTaskBodyInputShape)
    [ ("output",
        z_transform (z_optional SerializableJsonSchema)
          (fun v =>
             let! json := JSON_parse (JSON_stringify v) in
             parse DeserializedJsonSchema json)) ].

Definition CompleteTaskBodyInputSchema : Schema :=
  z_object CompleteTaskBodyInputShape.

End Api.

(** ** [api.ts], the other schemas *)

(** [z.literal("...")]: strict equality with the literal. *)
Definition z_literal_string (lit : string) : Schema := fun data =>
  match data with
  | JStr s => if String.eqb s lit then OK data else INVALID
  | _ => INVALID
  end.

(** [z.enum([...])]: a string among the values. *)
Definition z_enum (values : list string) : Schema := fun data =>
  match data with
  | JStr s => if existsb (String.eqb s) values then OK data else INVALID
  | _ => INVALID
  end.

(** [Number.isInteger]: a finite double without fractional part. *)
Definition isInteger (n : number) : bool :=
  match n with
  | S754_zero _ => true
  | S754_finite _ m e =>
      if (0 <=? e)%Z then true else (Z.pos m mod 2 ^ (- e) =? 0)%Z
  | S754_infinity _ | S754_nan => false
  end.

(** [z.number().int()]: a failed check leaves the value but marks the
    outcome dirty. *)
Definition z_number_int : Schema := fun data =>
  match data with
  | JNum n =>
      if is_nan n then INVALID
      else if isInteger n then OK data else DIRTY data
  | _ => INVALID
  end.

(** [z.any()] *)
Definition z_any : Schema := fun data => OK data.

Section ApiOthers.

Context {engine : Engine}.

(** Schemas of sibling modules ([./triggers], [./connections], [./tasks],
    [./elements]). *)
Variable TriggerMetadataSchema : Schema.
Variable ConnectionMetadataSchema : Schema.
Variable ConnectionAuthSchema : Schema.
Variable CachedTaskSchema : Schema.
Variable DisplayElementSchema : Schema.

(** The clock and the random generator behind [ulid()]. *)
Variable now : Z.
Variable prng : nat -> Z.

Definition PongResponseSchema : Schema :=
  z_object [ ("message", z_literal_string "PONG") ].

Definition JobSchema : Schema :=
  z_object
    [ ("id", z_string);
      ("name", z_string);
      ("version", z_string);
      ("trigger", TriggerMetadataSchema);
      ("connections",
        z_array
          (z_object
             [ ("key", z_string);
               ("metadata", ConnectionMetadataSchema);
               ("usesLocalAuth", z_default (Returns (JBool false)) z_boolean) ]));
      ("supportsPreparation", z_boolean) ].

Definition GetJobResponseSchema : Schema :=
  z_object [ ("job", JobSchema) ].

Definition GetJobsResponseSchema : Schema :=
  z_object [ ("jobs", z_array JobSchema) ].

Definition SendEventOptionsSchema : Schema :=
  z_object
    [ ("deliverAt", z_optional (z_string_check isDatetime));
      ("deliverAfter", z_optional z_number_int) ].


Definition DeliverEventResponseSchema : Schema :=
  z_object [ ("deliveredAt", z_string_check isDatetime) ].

Definition ExecuteJobBodySchema : Schema :=
  z_object
    [ ("event", ApiEventLogSchema);
      ("job", z_object [ ("id", z_string); ("version", z_string) ]);
      ("context",
        z_object
          [ ("id", z_string);
            ("environment", z_string);
            ("organization", z_string);
            ("isTest", z_boolean);
            ("version", z_string);
            ("startedAt", z_coerce_date) ]);
      ("tasks", z_optional (z_array CachedTaskSchema));
      ("connections", z_optional (z_record ConnectionAuthSchema)) ].

Definition CreateExecutionBodySchema : Schema :=
  z_object
    [ ("client", z_string);
      ("job", JobSchema);
      ("event", ApiEventLogSchema);
      ("elements", z_optional (z_array DisplayElementSchema)) ].

Definition PrepareForJobExecutionBodySchema : Schema :=
  z_object
    [ ("id", z_string);
      ("version", z_string);
      ("connections", z_record ConnectionAuthSchema) ].

Definition PrepareForJobExecutionResponseSchema : Schema :=
  z_object [ ("ok", z_boolean) ].

Definition LogMessageSchema : Schema :=
  z_object
    [ ("level", z_enum ["DEBUG"; "INFO"; "WARN"; "ERROR"]);
      ("message", z_string);
      ("data", z_optional SerializableJsonSchema) ].

Definition NormalizedRequestSchema : Schema :=
  z_object
    [ ("headers", z_record z_string);
      ("method", z_string);
      ("query", z_record z_string);
      ("url", z_string);
      ("body", z_any) ].

Definition NormalizedResponseSchema : Schema :=
  z_object
    [ ("status", z_number);
      ("body", z_any);
      ("headers", z_optional (z_record z_string)) ].

End ApiOthers.

(** ** One engine, for the examples *)

Module Sample.

Definition prec : Z := 53.
Definition emax : Z := 1024.

Fixpoint digitsToZ (acc : Z) (s : string) : Z :=
  match s with
  | String c rest => digitsToZ (acc * 10 + (Z.of_N (N_of_ascii c) - 48))%Z rest
  | EmptyString => acc
  end.

(** The double nearest to [m * 10 ^ e], ties to even. *)
Definition decimalToDouble (sign : bool) (m e : Z) : number :=
  if (m =? 0)%Z then S754_zero sign
  else if (0 <=? e)%Z then
    binary_normalize prec emax (if sign then - (m * 10 ^ e) else m * 10 ^ e)%Z 0 sign
  else
    let '(q, e', l) := SFdiv_core_binary prec emax m 0 (10 ^ (- e))%Z 0 in
    binary_round_aux prec emax sign q e' l.

Definition StringToNumber (token : string) : number :=
  let (sign, s1) :=
    match token with
    | String "-" rest => (true, rest)
    | _ => (false, token)
    end in
  let (int, s2) := takeDigits s1 in
  let (frac, s3) :=
    match s2 with
    | String "." rest => takeDigits rest
    | _ => ("", s2)
    end in
  let exponent :=
    match s3 with
    | String _ (String "-" digits) => (- digitsToZ 0 digits)%Z
    | String _ (String "+" digits) => digitsToZ 0 digits
    | String _ digits => digitsToZ 0 digits
    | EmptyString => 0%Z
    end in
  decimalToDouble sign (digitsToZ 0 (int ++ frac))
                  (exponent - Z.of_nat (String.length frac)).

Fixpoint natDigits (fuel : nat) (n : Z) (acc : string) : string :=
  match fuel with
  | O => acc
  | S fuel' =>
      let acc' := String (ascii_of_N (Z.to_N (48 + n mod 10))) acc in
      if (n <? 10)%Z then acc' else natDigits fuel' (n / 10)%Z acc'
  end.

(** The decimal digits of a natural number. *)
Definition decimal (n : Z) : string := natDigits (S (Z.to_nat (Z.log2 n))) n "".

Fixpoint zeros (n : nat) : string :=
  match n with O => "" | S n' => String "0" (zeros n') end.

Fixpoint stripZeros (reversed : string) : string :=
  match reversed with
  | String "0" rest => stripZeros rest
  | _ => reversed
  end.

Fixpoint reverse (s acc : string) : string :=
  match s with
  | String c rest => reverse rest (String c acc)
  | EmptyString => acc
  end.

(** [num / den] against [10 ^ n]. *)
Definition below (num den n : Z) : bool :=
  if (0 <=? n)%Z then (num <? den * 10 ^ n)%Z else (num * 10 ^ (- n) <? den)%Z.

Fixpoint findExponent (fuel : nat) (num den n : Z) : Z :=
  match fuel with
  | O => n
  | S fuel' => if below num den n then n else findExponent fuel' num den (n + 1)%Z
  end.

(** The fewest digits [k] and the integer [s] of [k] digits such that
    [s * 10 ^ (n - k)] is read back as [x]; of two such integers, the one
    nearer to [x]. *)
Fixpoint shortest (fuel : nat) (x : number) (num den n : Z) (k : Z) : Z * Z :=
  let p := (n - k)%Z in
  let scaledNum := if (0 <=? p)%Z then num else (num * 10 ^ (- p))%Z in
  let scaledDen := if (0 <=? p)%Z then (den * 10 ^ p)%Z else den in
  let low := (scaledNum / scaledDen)%Z in
  let twiceRest := (2 * (scaledNum mod scaledDen))%Z in
  let back := fun s => SFeqb (decimalToDouble false s p) x in
  let first := if (twiceRest <=? scaledDen)%Z then low else (low + 1)%Z in
  let second := if (twiceRest <=? scaledDen)%Z then (low + 1)%Z else low in
  match fuel with
  | O => (first, p)
  | S fuel' =>
      if back first then (first, p)
      else if back second then (second, p)
      else shortest fuel' x num den n (k + 1)%Z
  end.

Definition layout (digits : string) (n : Z) : string :=
  let k := Z.of_nat (String.length digits) in
  if (k <=? n)%Z && (n <=? 21)%Z then digits ++ zeros (Z.to_nat (n - k))
  else if (0 <? n)%Z && (n <=? 21)%Z then
    String.substring 0 (Z.to_nat n) digits ++ "."
      ++ String.substring (Z.to_nat n) (Z.to_nat (k - n)) digits
  else if (-6 <? n)%Z && (n <=? 0)%Z then "0." ++ zeros (Z.to_nat (- n)) ++ digits
  else
    let e := (n - 1)%Z in
    let exponent := (if (e <? 0)%Z then "e-" else "e+") ++ decimal (Z.abs e) in
    match digits with
    | String d EmptyString => String d exponent
    | String d more => String d ("." ++ more ++ exponent)
    | EmptyString => exponent
    end.

Definition NumberToString (x : number) : string :=
  match x with
  | S754_finite sign m e =>
      let num := if (0 <=? e)%Z then (Z.pos m * 2 ^ e)%Z else Z.pos m in
      let den := if (0 <=? e)%Z then 1%Z else (2 ^ (- e))%Z in
      let n := findExponent 700 num den (-330) in
      let (s, p) := shortest 17 (S754_finite false m e) num den n 1 in
      let all := decimal s in
      let digits := reverse (stripZeros (reverse all "")) "" in
      (if sign then "-" else "")
        ++ layout digits (p + Z.of_nat (String.length all))
  | S754_zero _ => "0"
  | S754_nan => "NaN"
  | S754_infinity sign => if sign then "-Infinity" else "Infinity"
  end.

Definition digit (c : ascii) : option Z :=
  if isDigit c then Some (Z.of_N (N_of_ascii c) - 48)%Z else None.

Definition two (a b : ascii) : option Z :=
  match digit a, digit b with
  | Some x, Some y => Some (10 * x + y)%Z
  | _, _ => None
  end.

Definition isLeap (y : Z) : bool :=
  ((y mod 4 =? 0) && negb (y mod 100 =? 0) || (y mod 400 =? 0))%Z.

Definition daysInMonth (y m : Z) : Z :=
  if (m =? 2)%Z then (if isLeap y then 29 else 28)%Z
  else if ((m =? 4) || (m =? 6) || (m =? 9) || (m =? 11))%Z then 30%Z
  else 31%Z.

(** Days from 1970-01-01 to a date of the proleptic Gregorian calendar. *)
Definition daysFromCivil (y m d : Z) : Z :=
  let y' := if (m <=? 2)%Z then (y - 1)%Z else y in
  let era := (y' / 400)%Z in
  let yoe := (y' - era * 400)%Z in
  let doy := ((153 * (if (2 <? m)%Z then m - 3 else m + 9) + 2) / 5 + d - 1)%Z in
  let doe := (yoe * 365 + yoe / 4 - yoe / 100 + doy)%Z in
  (era * 146097 + doe - 719468)%Z.

Definition civilFromDays (days : Z) : Z * Z * Z :=
  let z := (days + 719468)%Z in
  let era := (z / 146097)%Z in
  let doe := (z - era * 146097)%Z in
  let yoe := ((doe - doe / 1460 + doe / 36524 - doe / 146096) / 365)%Z in
  let doy := (doe - (365 * yoe + yoe / 4 - yoe / 100))%Z in
  let mp := ((5 * doy + 2) / 153)%Z in
  let d := (doy - (153 * mp + 2) / 5 + 1)%Z in
  let m := if (mp <? 10)%Z then (mp + 3)%Z else (mp - 9)%Z in
  let y := (yoe + era * 400)%Z in
  ((if (m <=? 2)%Z then y + 1 else y)%Z, m, d).

Definition dateOf (y1 y2 y3 y4 m1 m2 d1 d2 : ascii) : option Z :=
  match two y1 y2, two y3 y4, two m1 m2, two d1 d2 with
  | Some yh, Some yl, Some m, Some d =>
      let y := (100 * yh + yl)%Z in
      if ((1 <=? m) && (m <=? 12) && (1 <=? d) && (d <=? daysInMonth y m))%Z
      then Some (daysFromCivil y m d * 86400000)%Z
      else None
  | _, _, _, _ => None
  end.

Definition timeOf (h1 h2 mi1 mi2 s1 s2 : ascii) : option Z :=
  match two h1 h2, two mi1 mi2, two s1 s2 with
  | Some h, Some mi, Some sec =>
      if ((h <=? 23) && (mi <=? 59) && (sec <=? 59))%Z
      then Some ((h * 60 + mi) * 60000 + sec * 1000)%Z
      else None
  | _, _, _ => None
  end.

(** The milliseconds of a fraction of a second, from its first three digits. *)
Definition millisOf (fraction : string) : Z :=
  digitsToZ 0 (String.substring 0 3 (fraction ++ "00")).

(** The date-time format of the language, in UTC: [YYYY-MM-DD], or
    [YYYY-MM-DDTHH:mm:ss] with an optional fraction, then [Z]. *)
Definition DateParse (s : string) : option Z :=
  match s with
  | String y1 (String y2 (String y3 (String y4 (String "-" (String m1 (String m2
      (String "-" (String d1 (String d2 rest))))))))) =>
      match dateOf y1 y2 y3 y4 m1 m2 d1 d2, rest with
      | Some day, EmptyString => Some day
      | Some day, String "T" (String h1 (String h2 (String ":" (String mi1
          (String mi2 (String ":" (String s1 (String s2 tail)))))))) =>
          match timeOf h1 h2 mi1 mi2 s1 s2, tail with
          | Some time, String "Z" EmptyString => Some (day + time)%Z
          | Some time, String "." more =>
              match takeDigits more with
              | (String f fs, String "Z" EmptyString) =>
                  Some (day + time + millisOf (String f fs))%Z
              | _ => None
              end
          | _, _ => None
          end
      | _, _ => None
      end
  | _ => None
  end.

Definition padded (width : nat) (n : Z) : string :=
  let text := decimal n in
  zeros (width - String.length text) ++ text.

Definition toISOString (t : Z) : string :=
  let days := (t / 86400000)%Z in
  let ms := (t mod 86400000)%Z in
  let '(y, m, d) := civilFromDays days in
  let year :=
    if ((0 <=? y) && (y <=? 9999))%Z then padded 4 y
    else (if (y <? 0)%Z then "-" else "+") ++ padded 6 (Z.abs y) in
  year ++ "-" ++ padded 2 m ++ "-" ++ padded 2 d ++ "T"
    ++ padded 2 (ms / 3600000) ++ ":" ++ padded 2 (ms / 60000 mod 60) ++ ":"
    ++ padded 2 (ms / 1000 mod 60) ++ "." ++ padded 3 (ms mod 1000) ++ "Z".

(** The text of an array ([Array.prototype.join]), of a plain object and of
    a date. *)
Fixpoint objectToString (value : jsval) : option string :=
  match value with
  | JArr items =>
      let texts :=
        map (fun item =>
               match item with
               | JUndefined | JNull => Some ""
               | JBool b => Some (if b then "true" else "false")
               | JNum n => Some (NumberToString n)
               | JStr s => Some s
               | JSymbol _ => None
               | _ => objectToString item
               end) items in
      if forallb (fun t => match t with Some _ => true | None => false end) texts
      then Some (joinWith "," (flat_map (fun t => match t with
                                                  | Some x => [x]
                                                  | None => []
                                                  end) texts))
      else None
  | JObj _ => Some "[object Object]"
  | JDate (Some t) => Some (toISOString t)
  | JDate None => Some "Invalid Date"
  | _ => None
  end.

(** The UTF-8 text of a code unit outside ASCII. *)
Definition wideChar (n : N) : string :=
  if (n <? 2048)%N
  then String (ascii_of_N (192 + n / 64)) (String (ascii_of_N (128 + n mod 64)) "")
  else String (ascii_of_N (224 + n / 4096))
         (String (ascii_of_N (128 + n / 64 mod 64))
            (String (ascii_of_N (128 + n mod 64)) "")).

Definition noSpace (s : string) : bool :=
  forallb (fun c => (32 <? N_of_ascii c)%N) (list_ascii_of_string s).

(** Absolute [http] and [https] addresses with a host. *)
Definition isURL (s : string) : bool :=
  match stripPrefix "https://" s, stripPrefix "http://" s with
  | Some (String c rest), _ | None, Some (String c rest) =>
      negb (Ascii.eqb c "/") && noSpace (String c rest)
  | _, _ => false
  end.

(** [YYYY-MM-DDTHH:mm:ss], an optional fraction, [Z]: digit classes only. *)
Definition isDatetime (s : string) : bool :=
  match s with
  | String y1 (String y2 (String y3 (String y4 (String "-" (String m1 (String m2
      (String "-" (String d1 (String d2 (String "T" (String h1 (String h2
      (String ":" (String mi1 (String mi2 (String ":" (String s1 (String s2
      tail)))))))))))))))))) =>
      forallb isDigit [y1; y2; y3; y4; m1; m2; d1; d2; h1; h2; mi1; mi2; s1; s2]
      && match tail with
         | String "Z" EmptyString => true
         | String "." more =>
             match takeDigits more with
             | (String _ _, String "Z" EmptyString) => true
             | _ => false
             end
         | _ => false
         end
  | _ => false
  end.

Definition engine : Engine :=
  Build_Engine StringToNumber NumberToString wideChar DateParse toISOString
               objectToString isURL isDatetime.

End Sample.

(** ** Values named in the statements *)

(** The secure string with the given literal and interpolated parts. *)
Definition secureString (literals interpolated : list string) : jsval :=
  JObj [ ("__secureString", JBool true);
         ("strings", JArr (map JStr literals));
         ("interpolations", JArr (map JStr interpolated)) ].

(** The reassembly rule of a secure string: one literal part more than
    interpolated parts. *)
Definition reassembles (value : jsval) : Prop :=
  match value with
  | JObj props =>
      match getProp "strings" props, getProp "interpolations" props with
      | JArr literals, JArr interpolated =>
          List.length literals = List.length interpolated + 1
      | _, _ => False
      end
  | _ => False
  end.

(** The two results of creating an execution. *)
Definition createdExecution (id : string) : jsval :=
  JObj [ ("ok", JBool true); ("data", JObj [ ("id", JStr id) ]) ].

Definition failedExecution (error : string) : jsval :=
  JObj [ ("ok", JBool false); ("error", JStr error) ].

(** The number a JSON number token denotes, as a value. *)
Definition num (token : string) : jsval := JNum (Sample.StringToNumber token).

(** Stand-ins, in the examples, for the schemas of [./elements], [./tasks]
    and [./connections]: objects with a few string properties. *)
Definition sampleDisplayElementSchema : Schema :=
  z_object [ ("label", z_string); ("text", z_string) ].

Definition sampleTaskSchema : Schema :=
  z_object [ ("id", z_string); ("name", z_string); ("noop", z_boolean) ].

Definition sampleConnectionAuthSchema : Schema :=
  z_object [ ("type", z_string); ("accessToken", z_string) ].

(** The task request of the scenario of the spec, sent without [noop]. *)
Definition welcomeEmailTask : jsval :=
  JObj [ ("idempotencyKey", JStr "send-welcome-email");
         ("name", JStr "send-welcome-email");
         ("params", JObj [ ("to", num "42") ]) ].

Definition welcomeEmailTaskParsed : jsval :=
  JObj [ ("name", JStr "send-welcome-email");
         ("noop", JBool false);
         ("params", JObj [ ("to", num "42") ]);
         ("idempotencyKey", JStr "send-welcome-email") ].

(** A response that reports a run as not completed and names no task. *)
Definition suspendedWithoutTask : jsval :=
  JObj [ ("executionId", JStr "x1"); ("completed", JBool false) ].

(** A response that reports a run as completed and carries a task as well. *)
Definition completedWithTask : jsval :=
  JObj [ ("executionId", JStr "x1");
         ("completed", JBool true);
         ("output", JNull);
         ("task", JObj [ ("id", JStr "t1"); ("name", JStr "send-welcome-email");
                         ("noop", JBool false) ]) ].

(** A registered source as the spec describes it, with its [key]. *)
Definition registeredSource : jsval :=
  JObj [ ("id", JStr "src_1");
         ("key", JStr "github.push");
         ("url", JStr "https://example.com/hooks/src_1");
         ("secret", JStr "s3cr3t");
         ("active", JBool true) ].

Definition registeredSourceParsed : jsval :=
  JObj [ ("secret", JStr "s3cr3t");
         ("active", JBool true);
         ("id", JStr "src_1");
         ("url", JStr "https://example.com/hooks/src_1") ].


(** The same event with a [timestamp]. *)
Definition userCreatedLogged : jsval :=
  JObj [ ("id", JStr "e1");
         ("name", JStr "user.created");
         ("source", JStr "trigger.dev");
         ("payload", JObj [ ("id", num "42") ]);
         ("timestamp", JStr "2023-01-01T00:00:00.000Z") ].

Definition userCreatedLoggedParsed : jsval :=
  JObj [ ("id", JStr "e1");
         ("name", JStr "user.created");
         ("payload", JObj [ ("id", num "42") ]);
         ("timestamp", JDate (Some 1672531200000%Z)) ].


(** An auth descriptor, and the headers that sign a request with it: each
    serialized part is written by [JSON.stringify], as the sender does. *)
Definition authDescriptor : jsval :=
  JObj [ ("type", JStr "oauth2"); ("accessToken", JStr "abc") ].

Definition forwardedHeaders : jsval :=
  JObj [ ("content-type", JStr "application/json") ].

Definition signedHeaders : jsval :=
  JObj [ ("x-trigger-key", JStr "github.push");
         ("x-trigger-auth", JSON_stringify (engine := Sample.engine) authDescriptor);
         ("x-trigger-url", JStr "https://example.com/hooks/src_1");
         ("x-trigger-method", JStr "POST");
         ("x-trigger-headers", JSON_stringify (engine := Sample.engine) forwardedHeaders) ].

(** The same headers without [x-trigger-auth], and their parse. *)
Definition unsignedHeaders : jsval :=
  JObj [ ("x-trigger-key", JStr "github.push");
         ("x-trigger-url", JStr "https://example.com/hooks/src_1");
         ("x-trigger-method", JStr "POST");
         ("x-trigger-headers", JSON_stringify (engine := Sample.engine) forwardedHeaders) ].

Definition unsignedHeadersParsed : jsval :=
  JObj [ ("x-trigger-key", JStr "github.push");
         ("x-trigger-url", JStr "https://example.com/hooks/src_1");
         ("x-trigger-method", JStr "POST");
         ("x-trigger-headers", forwardedHeaders) ].

(** The event of the scenario sent without an [id], a clock reading and a
    generator for the examples, and the parse of the event at that reading. *)
Definition userCreatedSent : Props :=
  [ ("name", JStr "user.created"); ("payload", JObj [ ("id", num "42") ]) ].

Definition sampleClock : Z := 1469918176385.

Definition samplePrng : nat -> Z := fun i => Z.of_nat ((7 * i + 3) mod 32).

Definition userCreatedReceived : Props :=
  [ ("id", JStr "01ARYZ6S41C5YQG92VMD6ZRHA3");
    ("name", JStr "user.created");
    ("source", JStr "trigger.dev");
    ("payload", JObj [ ("id", num "42") ]) ].

(** The keys of an object are distinct, in the object and in every object
    within it: what every object of the language satisfies. *)
Fixpoint distinct (keys : list string) : bool :=
  match keys with
  | [] => true
  | key :: rest => negb (existsb (String.eqb key) rest) && distinct rest
  end.

Fixpoint wellFormed (value : jsval) : bool :=
  match value with
  | JArr items => forallb wellFormed items
  | JObj props =>
      distinct (map fst props)
      && forallb (fun entry : string * jsval => wellFormed (snd entry)) props
  | _ => true
  end.

(** No object of the value, at any depth, has a property named
    [__proto__]. *)
Fixpoint noProtoKey (value : jsval) : bool :=
  match value with
  | JArr items => forallb noProtoKey items
  | JObj props =>
      negb (hasProp "__proto__" props)
      && forallb (fun entry : string * jsval => noProtoKey (snd entry)) props
  | _ => true
  end.

(** The properties a record keeps of keys and values: those with a defined
    value. *)
Definition definedEntries (keys : list string) (values : list jsval) : Props :=
  flat_map (fun entry : string * jsval =>
              match snd entry with
              | JUndefined => []
              | _ => [entry]
              end) (combine keys values).

(** The completion of the task of the scenario: an output with a date and
    an undefined property; and a completion without output. *)
Definition emailSent : jsval :=
  JObj [ ("sent", JBool true);
         ("to", num "42");
         ("at", JDate (Some 1672531200000%Z));
         ("retry", JUndefined) ].

Definition emailSentRoundTrip : jsval :=
  JObj [ ("sent", JBool true);
         ("to", num "42");
         ("at", JStr "2023-01-01T00:00:00.000Z") ].

Definition completion : jsval :=
  JObj [ ("output", emailSent); ("params", JObj [ ("to", num "42") ]) ].

Definition completionParsed : jsval :=
  JObj [ ("params", JObj [ ("to", num "42") ]); ("output", emailSentRoundTrip) ].

Definition completionWithoutOutput : Props :=
  [ ("params", JObj [ ("to", num "42") ]) ].

(** An output with a property named [__proto__] of its own, as in the object
    that [JSON.parse] returns for a text with such a member. *)
Definition outputWithProto : jsval :=
  JObj [ ("a", num "1"); ("__proto__", num "2") ].

(** ** Values named in the properties of the other schemas *)

(** The properties [mergeObjectSync] assigns for the pairs, in their order:
    the value of a pair under its key, unless the value is [undefined] and the
    data had no such key, or the key is [__proto__]. *)
Definition assigned (pairs : list Pair) : Props :=
  flat_map (fun p =>
              if String.eqb (pair_key p) "__proto__" then []
              else
                match pair_value p with
                | OK v | DIRTY v =>
                    match v with
                    | JUndefined => if alwaysSet p then [(pair_key p, v)] else []
                    | _ => [(pair_key p, v)]
                    end
                | INVALID | Throw _ => []
                end) pairs.

(** A schema that accepts what it returns, and returns it again. *)
Definition idempotent (schema : Schema) : Prop :=
  forall data out, schema data = OK out -> schema out = OK out.

(** The headers of a request, an object whose values are strings. *)
Definition headersObject (headers : list (string * string)) : jsval :=
  JObj (map (fun header => (fst header, JStr (snd header))) headers).

(** The text of one member of such an object in [JSON.stringify]. *)
Definition memberText (header : string * string) : string :=
  QuoteJSONString (fst header) ++ ":" ++ QuoteJSONString (snd header).

(** Headers without [x-trigger-auth] whose [x-trigger-headers] is no JSON
    text; the other headers are missing. *)
Definition malformedHeaders : Props :=
  [ ("x-trigger-headers", JStr "content-type: application/json") ].

(** Stand-ins, in the examples, for the schemas of [./triggers] and of the
    metadata of [./connections]. *)
Definition sampleTriggerMetadataSchema : Schema :=
  z_object [ ("type", z_string); ("title", z_string) ].

Definition sampleConnectionMetadataSchema : Schema :=
  z_object [ ("id", z_string); ("name", z_string) ].

(** A job with two connections, the first declared without [usesLocalAuth]. *)
Definition issueJob : jsval :=
  JObj [ ("id", JStr "new-issue");
         ("name", JStr "On new issue");
         ("version", JStr "1.0.0");
         ("trigger", JObj [ ("type", JStr "static"); ("title", JStr "issue.opened") ]);
         ("connections",
           JArr [ JObj [ ("key", JStr "github");
                         ("metadata", JObj [ ("id", JStr "github");
                                             ("name", JStr "GitHub") ]) ];
                  JObj [ ("key", JStr "slack");
                         ("metadata", JObj [ ("id", JStr "slack");
                                             ("name", JStr "Slack") ]);
                         ("usesLocalAuth", JBool true) ] ]);
         ("supportsPreparation", JBool false) ].

Definition issueJobParsed : jsval :=
  JObj [ ("id", JStr "new-issue");
         ("name", JStr "On new issue");
         ("version", JStr "1.0.0");
         ("trigger", JObj [ ("type", JStr "static"); ("title", JStr "issue.opened") ]);
         ("connections",
           JArr [ JObj [ ("key", JStr "github");
                         ("metadata", JObj [ ("id", JStr "github");
                                             ("name", JStr "GitHub") ]);
                         ("usesLocalAuth", JBool false) ];
                  JObj [ ("key", JStr "slack");
                         ("metadata", JObj [ ("id", JStr "slack");
                                             ("name", JStr "Slack") ]);
                         ("usesLocalAuth", JBool true) ] ]);
         ("supportsPreparation", JBool false) ].



(** The dispatch of a run for the event of the scenario. *)
Definition dispatchedRun : jsval :=
  JObj [ ("event", userCreatedLogged);
         ("job", JObj [ ("id", JStr "new-issue"); ("version", JStr "1.0.0") ]);
         ("context",
           JObj [ ("id", JStr "run_1");
                  ("environment", JStr "dev");
                  ("organization", JStr "acme");
                  ("isTest", JBool false);
                  ("version", JStr "1.0.0");
                  ("startedAt", JStr "2023-01-01T00:00:01.000Z") ]) ].

Definition dispatchedRunParsed : jsval :=
  JObj [ ("event", userCreatedLoggedParsed);
         ("job", JObj [ ("id", JStr "new-issue"); ("version", JStr "1.0.0") ]);
         ("context",
           JObj [ ("id", JStr "run_1");
                  ("environment", JStr "dev");
                  ("organization", JStr "acme");
                  ("isTest", JBool false);
                  ("version", JStr "1.0.0");
                  ("startedAt", JDate (Some 1672531201000%Z)) ]) ].

(** The completion of the scenario sent with keys of the task request that
    a completion does not have. *)
Definition completionWithName : Props :=
  [ ("name", JStr "send-welcome-email");
    ("idempotencyKey", JStr "send-welcome-email");
    ("output", emailSent);
    ("params", JObj [ ("to", num "42") ]);
    ("noop", JStr "yes") ].

(** ** The task ledger *)

Module TaskLedger.
Section Ledger.

(** Parameters of a task are compared for equality; outputs, failures and
    the world the side effects act on are arbitrary. *)
Context {Params Output Failure World : Type} `{EqDecision Params}.

(** Modelled from the spec: the status of a persisted task.  The ledger
    itself is not among the sources; section 4.1 of the spec names the
    states [running], [completed] (with its output) and [errored] (with the
    error payload). *)
Inductive TaskStatus : Type :=
| Running
| Completed (output : Output)
| Errored (error : Failure).

(** Modelled from the spec: a task of the ledger, the parameters it was
    created with and its status. *)
Record Task : Type := mkTask {
  params : Params;
  status : TaskStatus
}.

(** Modelled from the spec: what [runTask] gives back.  A call that finds
    the task still running waits for the call in flight. *)
Inductive TaskResult : Type :=
| Succeeded (output : Output)
| Failed (error : Failure)
| IdempotencyConflictError
| Waiting.

(** Modelled from the spec: the caller-supplied side effect, which acts on
    the world and reports an output or a failure. *)
Definition SideEffect : Type := World -> (Output + Failure) * World.

(** Modelled from the spec: the durable store keyed by execution and
    idempotency key, the world, and the record of every invocation of a side
    effect, in order. *)
Record State : Type := mkState {
  ledger : gmap (string * string) Task;
  world : World;
  invoked : list (string * string)
}.

(** Modelled from the spec: the contract
    [runTask(executionId, idempotencyKey, params, sideEffect)] of section 4.1.
    With no task under the key, the task is created running, the side effect
    is invoked once, and [completed] with the output, or [errored] with the
    error, is persisted.  With a task under the key: different parameters are
    a conflict; a completed task answers with its cached output; an errored
    task answers with its error, the ledger never invoking a side effect twice
    for one key; a running task makes the caller wait. *)
Definition runTask (executionId idempotencyKey : string) (p : Params)
    (sideEffect : SideEffect) (st : State) : TaskResult * State :=
  let key := (executionId, idempotencyKey) in
  match ledger st !! key with
  | None =>
      let running := <[key := mkTask p Running]> (ledger st) in
      let (outcome, world') := sideEffect (world st) in
      let invoked' := (invoked st ++ [key])%list in
      match outcome with
      | inl output =>
          (Succeeded output,
           mkState (<[key := mkTask p (Completed output)]> running) world' invoked')
      | inr error =>
          (Failed error,
           mkState (<[key := mkTask p (Errored error)]> running) world' invoked')
      end
  | Some task =>
      if decide (params task = p) then
        match status task with
        | Completed output => (Succeeded output, st)
        | Errored error => (Failed error, st)
        | Running => (Waiting, st)
        end
      else (IdempotencyConflictError, st)
  end.

End Ledger.

Arguments TaskStatus : clear implicits.
Arguments Task : clear implicits.
Arguments TaskResult : clear implicits.
Arguments SideEffect : clear implicits.
Arguments State : clear implicits.

End TaskLedger.

(** The scenario of the spec for the ledger: the world counts the emails that
    were sent, the side effect sends one, no task has run yet. *)
Definition sendEmail : TaskLedger.SideEffect string string nat :=
  fun sent => (inl "sent", S sent).

Definition noEmailSent : TaskLedger.State Z string string nat :=
  TaskLedger.mkState (Params := Z) ∅ 0 [].

(** * Properties *)

(** ** Induction on values *)

(** The induction principle that reaches the items of an array and the
    values of the properties of an object. *)
Lemma jsval_ind (P : jsval -> Prop) :
  P JUndefined -> P JNull -> (forall b, P (JBool b)) -> (forall n, P (JNum n)) ->
  (forall s, P (JStr s)) ->
  (forall items, Forall P items -> P (JArr items)) ->
  (forall props, Forall (fun entry => P (snd entry)) props -> P (JObj props)) ->
  (forall t, P (JDate t)) -> (forall d, P (JSymbol d)) ->
  forall v, P v.
Proof.
  intros Hu Hn Hb Hnum Hs Ha Ho Hd Hsy.
  fix IH 1. intros [ | | b | n | s | items | props | t | d ].
  - exact Hu.
  - exact Hn.
  - apply Hb.
  - apply Hnum.
  - apply Hs.
  - apply Ha. induction items as [ | x xs IHxs ]; constructor.
    + apply IH.
    + exact IHxs.
  - apply Ho. induction props as [ | [k x] xs IHxs ]; constructor.
    + apply IH.
    + exact IHxs.
  - apply Hd.
  - apply Hsy.
Qed.

(** ** Properties of objects *)

Lemma getProp_setProp_eq key v props : getProp key (setProp key v props) = v.
Proof.
  induction props as [ | [k w] rest IH ]; simpl.
  - now rewrite String.eqb_refl.
  - destruct (String.eqb k key) eqn:E; simpl; rewrite E; auto.
Qed.

Lemma getProp_setProp_ne key key' v props :
  key <> key' -> getProp key' (setProp key v props) = getProp key' props.
Proof.
  intros Hne. induction props as [ | [k w] rest IH ]; simpl.
  - destruct (String.eqb key key') eqn:E; auto.
    apply String.eqb_eq in E. contradiction.
  - destruct (String.eqb k key) eqn:E; simpl.
    + apply String.eqb_eq in E. subst k.
      destruct (String.eqb key key') eqn:E'; auto.
      apply String.eqb_eq in E'. contradiction.
    + destruct (String.eqb k key'); auto.
Qed.

Lemma hasProp_setProp_ne key key' v props :
  key <> key' -> hasProp key' (setProp key v props) = hasProp key' props.
Proof.
  intros Hne. induction props as [ | [k w] rest IH ]; simpl.
  - destruct (String.eqb key key') eqn:E; auto.
    apply String.eqb_eq in E. contradiction.
  - destruct (String.eqb k key) eqn:E; simpl.
    + apply String.eqb_eq in E. subst k.
      destruct (String.eqb key key') eqn:E'; auto.
    + now rewrite IH.
Qed.

Lemma getProp_assignPair_ne p v key acc :
  pair_key p <> key -> getProp key (assignPair p v acc) = getProp key acc.
Proof.
  intros Hne. unfold assignPair. destruct (String.eqb (pair_key p) "__proto__"); auto.
  destruct v; try destruct (alwaysSet p); auto using getProp_setProp_ne.
Qed.

Lemma hasProp_assignPair_ne p v key acc :
  pair_key p <> key -> hasProp key (assignPair p v acc) = hasProp key acc.
Proof.
  intros Hne. unfold assignPair. destruct (String.eqb (pair_key p) "__proto__"); auto.
  destruct v; try destruct (alwaysSet p); auto using hasProp_setProp_ne.
Qed.

Lemma getProp_assignPair_eq p v acc :
  pair_key p <> "__proto__" ->
  getProp (pair_key p) acc = JUndefined ->
  getProp (pair_key p) (assignPair p v acc) = v.
Proof.
  intros Hkey Hacc. unfold assignPair.
  apply String.eqb_neq in Hkey. rewrite Hkey.
  destruct v; try destruct (alwaysSet p); auto using getProp_setProp_eq.
Qed.

(** ** What [mergeObjectSync] and [z.object] return *)

(** A valid merge started clean, every pair was valid, the object holds the
    value of each pair under its key and nothing else besides what it held.
    The keys are distinct and none is [__proto__]. *)
Lemma mergeObjectSync_OK pairs : forall dirty acc out,
  mergeObjectSync dirty acc pairs = OK out ->
  NoDup ("__proto__" :: map pair_key pairs) ->
  (forall p, In p pairs -> getProp (pair_key p) acc = JUndefined) ->
  exists o, out = JObj o /\ dirty = false /\
    (forall p, In p pairs -> pair_value p = OK (getProp (pair_key p) o)) /\
    (forall key, ~ In key (map pair_key pairs) ->
       getProp key o = getProp key acc /\ hasProp key o = hasProp key acc).
Proof.
  intros dirty acc out Hm Hkeys. inversion Hkeys as [ | ? ? Hproto Hnd ]; subst.
  clear Hkeys. revert dirty acc out Hm Hproto Hnd.
  induction pairs as [ | p rest IH ]; simpl; intros dirty acc out Hm Hproto Hnd Hacc.
  - destruct dirty; inversion Hm; subst. exists acc. intuition.
  - inversion Hnd as [ | ? ? Hnotin Hnd' ]; subst.
    assert (Hkey : pair_key p <> "__proto__") by (intros Heq; apply Hproto; now left).
    assert (Hrest : ~ In "__proto__" (map pair_key rest)) by tauto.
    destruct (pair_value p) as [ v | v | | e ] eqn:Hp; try discriminate.
    + apply IH in Hm; auto.
      * destruct Hm as (o & -> & -> & Hfields & Hframe).
        exists o. repeat split; auto.
        -- intros q [ <- | Hq ]; auto.
           destruct (Hframe (pair_key p) Hnotin) as [Hg _].
           rewrite Hp, Hg. f_equal. symmetry. apply getProp_assignPair_eq; auto.
        -- destruct (Hframe key) as [Hg _]; [ tauto | ].
           rewrite Hg. apply getProp_assignPair_ne. tauto.
        -- destruct (Hframe key) as [_ Hh]; [ tauto | ].
           rewrite Hh. apply hasProp_assignPair_ne. tauto.
      * intros q Hq. rewrite getProp_assignPair_ne; auto.
        intros Heq. apply Hnotin. rewrite Heq. now apply in_map.
    + apply IH in Hm; auto.
      * destruct Hm as (o & _ & Hd & _). discriminate.
      * intros q Hq. rewrite getProp_assignPair_ne; auto.
        intros Heq. apply Hnotin. rewrite Heq. now apply in_map.
Qed.

Lemma shapePairs_keys shape props :
  map pair_key (shapePairs shape props) = map fst shape.
Proof.
  unfold shapePairs. rewrite map_map. now apply map_ext.
Qed.

(** What a valid parse by [z.object] tells, for a shape whose keys are
    distinct and none of them [__proto__]: the data is an object, the output is
    an object, each key of the shape holds in the output what its schema made
    of the property of the data, and the output has no other key. *)
Lemma z_object_OK shape data out :
  z_object shape data = OK out ->
  NoDup ("__proto__" :: map fst shape) ->
  exists props o, data = JObj props /\ out = JObj o /\
    (forall key schema, In (key, schema) shape ->
       schema (getProp key props) = OK (getProp key o)) /\
    (forall key, ~ In key (map fst shape) -> hasProp key o = false).
Proof.
  unfold z_object. intros Hz Hnd.
  destruct data as [ | | | | | | props | | ]; try discriminate.
  destruct (firstThrow _); try discriminate.
  apply mergeObjectSync_OK in Hz.
  - destruct Hz as (o & -> & _ & Hfields & Hframe).
    exists props, o. repeat split; auto.
    + intros key schema Hin.
      apply (Hfields (mkPair key (schema (getProp key props)) (hasProp key props))).
      unfold shapePairs. apply in_map_iff. exists (key, schema). auto.
    + intros key Hkey. apply Hframe. now rewrite shapePairs_keys.
  - now rewrite shapePairs_keys.
  - reflexivity.
Qed.

Lemma firstThrow_valid results :
  Forall (fun r => exists v, r = OK v) results -> firstThrow results = None.
Proof.
  induction 1 as [ | r rest [v ->] _ IH ]; simpl; auto.
Qed.

Lemma mergeObjectSync_valid pairs : forall acc,
  Forall (fun r => exists v, r = OK v) (map pair_value pairs) ->
  exists o, mergeObjectSync false acc pairs = OK (JObj o).
Proof.
  induction pairs as [ | p rest IH ]; simpl; intros acc Hall.
  - now exists acc.
  - inversion Hall as [ | ? ? [v Hv] Hrest ]; subst. rewrite Hv. now apply IH.
Qed.

(** An object whose every property passes its schema passes [z.object]. *)
Lemma z_object_valid shape props :
  (forall key schema, In (key, schema) shape ->
     exists v, schema (getProp key props) = OK v) ->
  exists o, z_object shape (JObj props) = OK (JObj o).
Proof.
  intros Hall. unfold z_object.
  assert (Hvalid : Forall (fun r => exists v, r = OK v)
                     (map pair_value (shapePairs shape props))).
  { unfold shapePairs. rewrite map_map. apply Forall_forall.
    intros r Hr. apply in_map_iff in Hr. destruct Hr as ([key schema] & <- & Hin).
    simpl. eauto. }
  rewrite (firstThrow_valid _ Hvalid). now apply mergeObjectSync_valid.
Qed.

(** ** What the primitive schemas return *)

Lemma z_string_OK data out :
  z_string data = OK out <-> exists s, data = JStr s /\ out = JStr s.
Proof.
  split.
  - destruct data; simpl; try discriminate. intros [= <-]. eauto.
  - now intros (s & -> & ->).
Qed.

Lemma z_boolean_OK data out :
  z_boolean data = OK out <-> exists b, data = JBool b /\ out = JBool b.
Proof.
  split.
  - destruct data; simpl; try discriminate. intros [= <-]. eauto.
  - now intros (b & -> & ->).
Qed.

Lemma z_literal_bool_OK lit data out :
  z_literal_bool lit data = OK out <-> data = JBool lit /\ out = JBool lit.
Proof.
  split.
  - destruct data as [ | | b | | | | | | ]; simpl; try discriminate.
    destruct (Bool.eqb b lit) eqn:E; try discriminate.
    apply Bool.eqb_prop in E. subst. now intros [= <-].
  - intros [-> ->]. simpl. now rewrite Bool.eqb_reflx.
Qed.

Lemma z_optional_defined inner data :
  data <> JUndefined -> z_optional inner data = inner data.
Proof. destruct data; simpl; auto. contradiction. Qed.

Lemma mergeArray_strings items : forall dirty acc out,
  mergeArray dirty acc (map z_string items) = OK out ->
  dirty = false /\ out = JArr (rev acc ++ items)%list /\
  exists texts, items = map JStr texts.
Proof.
  induction items as [ | x rest IH ]; simpl; intros dirty acc out Hm.
  - destruct dirty; inversion Hm. rewrite app_nil_r. split; auto. split; auto.
    now exists [].
  - destruct x; simpl in Hm; try discriminate.
    apply IH in Hm. destruct Hm as (-> & -> & texts & ->).
    split; auto. split.
    + simpl. now rewrite <- app_assoc.
    + now exists (s :: texts).
Qed.

Lemma firstThrow_strings items : firstThrow (map z_string items) = None.
Proof. induction items as [ | [] rest IH ]; simpl; auto. Qed.

(** [z.array(z.string())] passes the arrays of strings, unchanged. *)
Lemma z_array_string_OK data out :
  z_array z_string data = OK out <->
  exists texts, data = JArr (map JStr texts) /\ out = JArr (map JStr texts).
Proof.
  split.
  - destruct data as [ | | | | | items | | | ]; simpl; try discriminate.
    rewrite firstThrow_strings. intros Hm.
    apply mergeArray_strings in Hm. destruct Hm as (_ & -> & texts & ->). eauto.
  - intros (texts & -> & ->). simpl. rewrite firstThrow_strings.
    assert (Hgen : forall acc, mergeArray false acc (map z_string (map JStr texts))
                     = OK (JArr (rev acc ++ map JStr texts)%list)).
    { induction texts as [ | t rest IH ]; simpl; intros acc.
      - now rewrite app_nil_r.
      - rewrite IH. simpl. now rewrite <- app_assoc. }
    apply Hgen.
Qed.

(** Proves that the keys of a concrete shape are distinct, and that none is
    [__proto__] where the lemma asks for it. *)
Ltac distinct_keys :=
  repeat (constructor; [ simpl; intuition discriminate | ]); constructor.

(** ** Arrays and records *)

Lemma mergeArray_OK (results : list ParseReturn) : forall dirty acc out,
  mergeArray dirty acc results = OK out ->
  dirty = false /\
  exists values, Forall2 (fun r v => r = OK v) results values
                 /\ out = JArr (rev acc ++ values)%list.
Proof.
  induction results as [ | r rest IH ]; simpl; intros dirty acc out Hm.
  - destruct dirty; inversion Hm. split; auto. exists []. split; auto.
    now rewrite app_nil_r.
  - destruct r as [ v | v | | e ]; try discriminate.
    + apply IH in Hm. destruct Hm as (-> & values & Hall & ->).
      split; auto. exists (v :: values). split; auto.
      simpl. now rewrite <- app_assoc.
    + apply IH in Hm. destruct Hm as (Hd & _). discriminate.
Qed.

(** A valid parse by [z.array]: the array of the parsed items. *)
Lemma z_array_OK (element : Schema) (data out : jsval) :
  z_array element data = OK out ->
  exists items values,
    data = JArr items /\ out = JArr values
    /\ Forall2 (fun item v => element item = OK v) items values.
Proof.
  destruct data as [ | | | | | items | | | ]; simpl; try discriminate.
  destruct (firstThrow (map element items)); try discriminate.
  intros Hm. apply mergeArray_OK in Hm. destruct Hm as (_ & values & Hall & ->).
  exists items, values. repeat split; auto.
  clear - Hall. revert values Hall.
  induction items as [ | x xs IH ]; intros values Hall; inversion Hall; subst;
    constructor; auto.
Qed.

Lemma setProp_fresh key v (props : Props) :
  hasProp key props = false -> setProp key v props = (props ++ [(key, v)])%list.
Proof.
  induction props as [ | [k w] rest IH ]; simpl; auto.
  destruct (String.eqb k key); simpl; try discriminate.
  intros Hrest. now rewrite IH.
Qed.

Lemma distinct_NoDup keys : distinct keys = true -> NoDup keys.
Proof.
  induction keys as [ | key rest IH ]; simpl; intros Hd; constructor.
  - apply andb_prop in Hd. destruct Hd as [Hnot _].
    intros Hin. apply negb_true_iff in Hnot.
    assert (Hex : existsb (String.eqb key) rest = true).
    { apply existsb_exists. exists key. split; auto. apply String.eqb_refl. }
    congruence.
  - apply IH. apply andb_prop in Hd. tauto.
Qed.

(** A valid merge of the pairs of a record with distinct keys, none of them
    [__proto__] and none in the object yet: the defined values are appended
    under their keys. *)
Lemma mergeRecord_OK (valueType : Schema) (props : Props) : forall dirty acc out,
  mergeObjectSync dirty acc
    (map (fun entry : string * jsval =>
            mkPair (fst entry) (valueType (snd entry)) false) props) = OK out ->
  NoDup ("__proto__" :: map fst props) ->
  (forall key, In key (map fst props) -> hasProp key acc = false) ->
  exists values,
    Forall2 (fun entry v => valueType (snd entry) = OK v) props values
    /\ out = JObj (acc ++ definedEntries (map fst props) values)%list.
Proof.
  intros dirty acc out Hm Hkeys. inversion Hkeys as [ | ? ? Hproto Hnd ]; subst.
  clear Hkeys. revert dirty acc out Hm Hproto Hnd.
  induction props as [ | [k x] rest IH ]; simpl;
    intros dirty acc out Hm Hproto Hnd Hfresh.
  - destruct dirty; inversion Hm. exists []. split; auto.
    unfold definedEntries. simpl. now rewrite app_nil_r.
  - inversion Hnd as [ | ? ? Hnotin Hnd' ]; subst.
    assert (Hkey : String.eqb k "__proto__" = false).
    { apply String.eqb_neq. intros Heq. apply Hproto. now left. }
    assert (Hrest : ~ In "__proto__" (map fst rest)) by tauto.
    destruct (valueType x) as [ v | v | | e ] eqn:Hx; try discriminate.
    + apply IH in Hm; auto.
      * destruct Hm as (values & Hall & ->).
        exists (v :: values). split; auto.
        unfold definedEntries, assignPair.
        cbn [combine flat_map pair_key alwaysSet snd]. rewrite Hkey.
        destruct v; cbn [app]; rewrite ?setProp_fresh by auto;
          rewrite <- ?app_assoc; reflexivity.
      * intros key Hin. unfold assignPair. cbn [pair_key alwaysSet]. rewrite Hkey.
        assert (Hne : k <> key) by (intros ->; contradiction).
        destruct v; auto; rewrite hasProp_setProp_ne; auto.
    + exfalso. clear IH Hx.
      assert (Hdirty : forall pairs acc', mergeObjectSync true acc' pairs <> OK out).
      { induction pairs as [ | p ps IHp ]; simpl; intros acc'; try discriminate.
        destruct (pair_value p); try discriminate; apply IHp. }
      eapply Hdirty; eauto.
Qed.

(** A valid parse by [z.record] of an object with distinct keys, none of
    them [__proto__]. *)
Lemma z_record_OK (valueType : Schema) (props : Props) (out : jsval) :
  z_record valueType (JObj props) = OK out ->
  NoDup ("__proto__" :: map fst props) ->
  exists values,
    Forall2 (fun entry v => valueType (snd entry) = OK v) props values
    /\ out = JObj (definedEntries (map fst props) values).
Proof.
  simpl. destruct (firstThrow _); try discriminate.
  intros Hm Hnd. apply mergeRecord_OK in Hm; auto.
Qed.

(** ** Deserialized and serializable JSON *)

Lemma DeserializedJsonSchema_array items :
  DeserializedJsonSchema (JArr items) = z_array DeserializedJsonSchema (JArr items).
Proof.
  change (DeserializedJsonSchema (JArr items))
    with (z_union [LiteralSchema; z_array DeserializedJsonSchema;
                   z_record DeserializedJsonSchema] (JArr items)).
  unfold z_union. cbn [unionFrom LiteralSchema].
  destruct (z_array DeserializedJsonSchema (JArr items)); reflexivity.
Qed.

Lemma DeserializedJsonSchema_object props :
  DeserializedJsonSchema (JObj props) = z_record DeserializedJsonSchema (JObj props).
Proof.
  change (DeserializedJsonSchema (JObj props))
    with (z_union [LiteralSchema; z_array DeserializedJsonSchema;
                   z_record DeserializedJsonSchema] (JObj props)).
  unfold z_union. cbn [unionFrom LiteralSchema].
  destruct (z_record DeserializedJsonSchema (JObj props)); reflexivity.
Qed.

Lemma SerializableJsonSchema_array items :
  SerializableJsonSchema (JArr items) = z_array SerializableJsonSchema (JArr items).
Proof.
  change (SerializableJsonSchema (JArr items))
    with (z_union [SerializableSchema; z_array SerializableJsonSchema;
                   z_record SerializableJsonSchema] (JArr items)).
  unfold z_union. cbn [unionFrom SerializableSchema].
  destruct (z_array SerializableJsonSchema (JArr items)); reflexivity.
Qed.

Lemma SerializableJsonSchema_object props :
  SerializableJsonSchema (JObj props) = z_record SerializableJsonSchema (JObj props).
Proof.
  change (SerializableJsonSchema (JObj props))
    with (z_union [SerializableSchema; z_array SerializableJsonSchema;
                   z_record SerializableJsonSchema] (JObj props)).
  unfold z_union. cbn [unionFrom SerializableSchema].
  destruct (z_record SerializableJsonSchema (JObj props)); reflexivity.
Qed.

(** What [DeserializedJsonSchema] returns is never [undefined]. *)
Lemma DeserializedJsonSchema_defined data out :
  DeserializedJsonSchema data = OK out -> out <> JUndefined.
Proof.
  destruct data as [ | | b | n | s | items | props | t | d ].
  - discriminate.
  - intros [= <-]. discriminate.
  - intros [= <-]. discriminate.
  - cbn. destruct (is_nan n); try discriminate. intros [= <-]. discriminate.
  - intros [= <-]. discriminate.
  - rewrite DeserializedJsonSchema_array. intros Hz.
    apply z_array_OK in Hz. destruct Hz as (? & ? & _ & -> & _). discriminate.
  - rewrite DeserializedJsonSchema_object. simpl.
    destruct (firstThrow _); try discriminate. intros Hz.
    assert (Hobj : forall pairs dirty acc, mergeObjectSync dirty acc pairs = OK out ->
                     exists o, out = JObj o).
    { induction pairs as [ | p ps IHp ]; simpl; intros dirty acc.
      - destruct dirty; intros [= <-]; eauto.
      - destruct (pair_value p); try discriminate; apply IHp. }
    apply Hobj in Hz. destruct Hz as (o & ->). discriminate.
  - discriminate.
  - discriminate.
Qed.

Lemma definedEntries_same (props : Props) :
  Forall (fun entry => snd entry <> JUndefined) props ->
  definedEntries (map fst props) (map snd props) = props.
Proof.
  unfold definedEntries. induction 1 as [ | [k v] rest Hv _ IH ]; simpl; auto.
  rewrite IH. simpl in Hv. destruct v; auto. contradiction.
Qed.

Lemma hasProp_false_notin key (props : Props) :
  hasProp key props = false -> ~ In key (map fst props).
Proof.
  induction props as [ | [k v] rest IH ]; simpl; auto.
  intros Hh. apply orb_false_elim in Hh. destruct Hh as [Hk Hrest].
  apply String.eqb_neq in Hk. intros [ Heq | Hin ]; [ contradiction | ].
  now apply IH.
Qed.

(** The keys of an object of the language without a [__proto__] property. *)
Lemma ownKeys_NoDup (props : Props) :
  distinct (map fst props) = true -> negb (hasProp "__proto__" props) = true ->
  NoDup ("__proto__" :: map fst props).
Proof.
  intros Hd Hp. apply negb_true_iff in Hp. constructor.
  - now apply hasProp_false_notin.
  - now apply distinct_NoDup.
Qed.

(** [DeserializedJsonSchema] returns the value it accepts, when no object of
    the value has a property [__proto__]. *)
Lemma DeserializedJsonSchema_same data : forall out,
  wellFormed data = true -> noProtoKey data = true ->
  DeserializedJsonSchema data = OK out -> out = data.
Proof.
  induction data as [ | | b | n | s | items IH | props IH | t | d ] using jsval_ind;
    intros out Hwf Hnp Hz; try discriminate; try (injection Hz as <-; reflexivity).
  - cbn in Hz. destruct (is_nan n); try discriminate. now injection Hz as <-.
  - rewrite DeserializedJsonSchema_array in Hz. apply z_array_OK in Hz.
    destruct Hz as (items' & values & [= <-] & -> & Hall). f_equal.
    simpl in Hwf, Hnp. clear - IH Hwf Hnp Hall. revert values Hall.
    induction items as [ | x xs IHxs ]; intros values Hall;
      inversion Hall as [ | ? v ? vs Hx Hxs ]; subst; auto.
    inversion IH as [ | ? ? IHx IHrest ]; subst.
    simpl in Hwf. apply andb_prop in Hwf. destruct Hwf as [Hwx Hwxs].
    simpl in Hnp. apply andb_prop in Hnp. destruct Hnp as [Hnx Hnxs].
    f_equal; auto.
  - rewrite DeserializedJsonSchema_object in Hz. simpl in Hwf, Hnp.
    apply andb_prop in Hwf. destruct Hwf as [Hkeys Hwf].
    apply andb_prop in Hnp. destruct Hnp as [Hproto Hnp].
    apply z_record_OK in Hz; [ | now apply ownKeys_NoDup ].
    destruct Hz as (values & Hall & ->). f_equal.
    assert (Hsame : values = map snd props).
    { clear - IH Hwf Hnp Hall. revert values Hall.
      induction props as [ | [k x] xs IHxs ]; intros values Hall;
        inversion Hall as [ | ? v ? vs Hx Hxs ]; subst; auto.
      inversion IH as [ | ? ? IHx IHrest ]; subst.
      simpl in Hwf. apply andb_prop in Hwf. destruct Hwf as [Hwx Hwxs].
      simpl in Hnp. apply andb_prop in Hnp. destruct Hnp as [Hnx Hnxs].
      simpl in *. f_equal; auto. }
    rewrite Hsame. apply definedEntries_same.
    subst values. clear - Hall.
    induction props as [ | [k x] xs IHxs ]; constructor;
      inversion Hall as [ | ? ? ? ? Hx Hxs ]; subst; auto.
    simpl in *. intros Hu. rewrite Hu in Hx.
    apply DeserializedJsonSchema_defined in Hx. contradiction.
Qed.

(** What [SerializableJsonSchema] returns is serialized like the value it
    accepted, when no object of the value has a property [__proto__]: a record
    then only drops properties that [JSON.stringify] leaves out. *)
Lemma SerializableJsonSchema_stringify (engine : Engine) data : forall out,
  wellFormed data = true -> noProtoKey data = true ->
  SerializableJsonSchema data = OK out ->
  SerializeJSONProperty out = SerializeJSONProperty data.
Proof.
  induction data as [ | | b | n | s | items IH | props IH | t | d ] using jsval_ind;
    intros out Hwf Hnp Hz; try (injection Hz as <-; reflexivity).
  - cbn in Hz. destruct (is_nan n); try discriminate. now injection Hz as <-.
  - rewrite SerializableJsonSchema_array in Hz. apply z_array_OK in Hz.
    destruct Hz as (items' & values & [= <-] & -> & Hall).
    assert (Hmap : map (fun item => match SerializeJSONProperty item with
                                    | Some text => text
                                    | None => "null"
                                    end) values
                   = map (fun item => match SerializeJSONProperty item with
                                      | Some text => text
                                      | None => "null"
                                      end) items).
    { simpl in Hwf, Hnp. clear - IH Hwf Hnp Hall. revert values Hall.
      induction items as [ | x xs IHxs ]; intros values Hall;
        inversion Hall as [ | ? v ? vs Hx Hxs ]; subst; auto.
      inversion IH as [ | ? ? IHx IHrest ]; subst.
      simpl in Hwf. apply andb_prop in Hwf. destruct Hwf as [Hwx Hwxs].
      simpl in Hnp. apply andb_prop in Hnp. destruct Hnp as [Hnx Hnxs].
      simpl. rewrite (IHx v), (IHxs IHrest Hwxs Hnxs vs); auto. }
    cbn [SerializeJSONProperty]. now rewrite Hmap.
  - rewrite SerializableJsonSchema_object in Hz. simpl in Hwf, Hnp.
    apply andb_prop in Hwf. destruct Hwf as [Hkeys Hwf].
    apply andb_prop in Hnp. destruct Hnp as [Hproto Hnp].
    apply z_record_OK in Hz; [ | now apply ownKeys_NoDup ].
    destruct Hz as (values & Hall & ->).
    assert (Hmap : flat_map (fun entry : string * jsval =>
                               match SerializeJSONProperty (snd entry) with
                               | Some text => [QuoteJSONString (fst entry) ++ ":" ++ text]
                               | None => []
                               end) (definedEntries (map fst props) values)
                   = flat_map (fun entry : string * jsval =>
                                 match SerializeJSONProperty (snd entry) with
                                 | Some text => [QuoteJSONString (fst entry) ++ ":" ++ text]
                                 | None => []
                                 end) props).
    { clear - IH Hwf Hnp Hall. revert values Hall.
      induction props as [ | [k x] xs IHxs ]; intros values Hall;
        inversion Hall as [ | ? v ? vs Hx Hxs ]; subst; auto.
      inversion IH as [ | ? ? IHx IHrest ]; subst.
      simpl in Hwf. apply andb_prop in Hwf. destruct Hwf as [Hwx Hwxs].
      simpl in Hnp. apply andb_prop in Hnp. destruct Hnp as [Hnx Hnxs].
      simpl in IHx, Hx. specialize (IHx v Hwx Hnx Hx).
      specialize (IHxs IHrest Hwxs Hnxs vs Hxs).
      unfold definedEntries in *. cbn [map fst combine flat_map snd].
      rewrite flat_map_app, IHxs, <- IHx.
      destruct v; cbn [flat_map fst snd]; rewrite ?app_nil_r; reflexivity. }
    cbn [SerializeJSONProperty]. now rewrite Hmap.
  - cbn in Hz. destruct t; try discriminate. now injection Hz as <-.
Qed.

(** ** The JSON reader *)

Lemma skipWhitespace_length s :
  String.length (skipWhitespace s) <= String.length s.
Proof.
  induction s as [ | c s IH ]; cbn [skipWhitespace]; auto.
  destruct (isWhitespace c); simpl; lia.
Qed.

Lemma stripPrefix_length prefix : forall s tail,
  stripPrefix prefix s = Some tail ->
  String.length s = String.length prefix + String.length tail.
Proof.
  induction prefix as [ | p prefix IH ]; intros s tail; cbn [stripPrefix].
  - now intros [= <-].
  - destruct s as [ | c s ]; try discriminate.
    destruct (Ascii.eqb p c); try discriminate.
    intros Hs. apply IH in Hs. simpl. lia.
Qed.

Lemma takeDigits_length s : forall digits tail,
  takeDigits s = (digits, tail) ->
  String.length s = String.length digits + String.length tail.
Proof.
  induction s as [ | c s IH ]; cbn [takeDigits]; intros digits tail.
  - now intros [= <- <-].
  - destruct (isDigit c).
    + destruct (takeDigits s) as [ds t] eqn:Hs. intros [= <- <-].
      specialize (IH _ _ eq_refl). simpl. lia.
    + now intros [= <- <-].
Qed.

Lemma readInt_shorter s int tail :
  readInt s = Some (int, tail) -> String.length tail < String.length s.
Proof.
  unfold readInt. destruct s as [ | c s ]; try discriminate.
  destruct (Ascii.eqb c "0").
  - intros [= <- <-]. simpl. lia.
  - destruct (isDigit c); try discriminate.
    destruct (takeDigits s) as [digits t] eqn:Hd. intros [= <- <-].
    apply takeDigits_length in Hd. simpl. lia.
Qed.

Lemma readFraction_length s frac tail :
  readFraction s = Some (frac, tail) -> String.length tail <= String.length s.
Proof.
  unfold readFraction. destruct (stripPrefix "." s) as [ rest | ] eqn:Hdot.
  - apply stripPrefix_length in Hdot.
    destruct (takeDigits rest) as [digits t] eqn:Hd.
    apply takeDigits_length in Hd.
    destruct digits; try discriminate. intros [= <- <-]. simpl in *. lia.
  - intros [= <- <-]. lia.
Qed.

Lemma readExponent_length s exp tail :
  readExponent s = Some (exp, tail) -> String.length tail <= String.length s.
Proof.
  unfold readExponent, readSign. destruct s as [ | c s ].
  - intros [= <- <-]. lia.
  - destruct (Ascii.eqb c "e" || Ascii.eqb c "E").
    + destruct (stripPrefix "+" s) as [ r | ] eqn:Hplus;
        [ | destruct (stripPrefix "-" s) as [ r | ] eqn:Hminus ];
        match goal with
        | |- context [takeDigits ?x] =>
            destruct (takeDigits x) as [digits t] eqn:Hd;
            apply takeDigits_length in Hd
        end;
        destruct digits; try discriminate; intros [= <- <-];
        repeat match goal with
               | H : stripPrefix _ _ = Some _ |- _ => apply stripPrefix_length in H
               end;
        simpl in *; lia.
    + intros [= <- <-]. lia.
Qed.

Lemma readNumber_shorter s token tail :
  readNumber s = Some (token, tail) -> String.length tail < String.length s.
Proof.
  unfold readNumber.
  destruct (stripPrefix "-" s) as [ rest | ] eqn:Hminus;
    match goal with
    | |- context [readInt ?x] => destruct (readInt x) as [ [int s2] | ] eqn:Hint
    end; try discriminate;
    destruct (readFraction s2) as [ [frac s3] | ] eqn:Hfrac; try discriminate;
    destruct (readExponent s3) as [ [exp s4] | ] eqn:Hexp; try discriminate;
    intros [= <- <-];
    apply readInt_shorter in Hint; apply readFraction_length in Hfrac;
    apply readExponent_length in Hexp;
    try apply stripPrefix_length in Hminus; simpl in *; lia.
Qed.

Lemma readString_shorter (engine : Engine) (n : nat) : forall s body tail,
  String.length s <= n ->
  readString s = Some (body, tail) -> String.length tail < String.length s.
Proof.
  induction n as [ | n IH ]; intros s body tail Hlen Hr.
  - destruct s; [ discriminate | simpl in Hlen; lia ].
  - destruct s as [ | c s ]; [ discriminate | ].
    cbn [readString] in Hr. simpl in Hlen.
    repeat match type of Hr with
           | context [match ?x with _ => _ end] => destruct x eqn:?; try discriminate Hr
           end;
      injection Hr as <- <-;
      repeat match goal with
             | H : readString _ = Some _ |- _ => apply IH in H; [ | simpl in *; lia ]
             end;
      simpl in *; lia.
Qed.

#[local] Arguments stripPrefix : simpl never.
#[local] Arguments readString : simpl never.
#[local] Arguments readNumber : simpl never.
#[local] Arguments skipWhitespace : simpl never.
#[local] Arguments objectOf : simpl never.

(** Saturates the context with what the readers consumed. *)
Ltac consumed :=
  repeat match goal with
         | H : stripPrefix _ _ = Some _ |- _ => apply stripPrefix_length in H
         | H : readString _ = Some _ |- _ => eapply readString_shorter in H; [ | reflexivity ]
         | H : readNumber _ = Some _ |- _ => apply readNumber_shorter in H
         | H : skipWhitespace ?s = String _ _ |- _ =>
             let L := fresh "L" in
             pose proof (skipWhitespace_length s) as L; rewrite H in L; clear H
         end;
  repeat match goal with
         | H : context [skipWhitespace ?s] |- _ =>
             lazymatch goal with
             | _ : String.length (skipWhitespace s) <= String.length s |- _ => fail
             | _ => pose proof (skipWhitespace_length s)
             end
         end.

(** Destructs what the hypothesis matches on, keeping the equations. *)
Ltac cases H :=
  repeat match type of H with
         | context [match ?x with _ => _ end] => destruct x eqn:?; try discriminate H
         end.

(** Every reader consumes some of the text. *)
Lemma parse_shorter (engine : Engine) (fuel : nat) :
  (forall s v rest, parseValue fuel s = Done v rest ->
                    String.length rest < String.length s)
  /\ (forall s items rest, parseElements fuel s = Done items rest ->
                           String.length rest < String.length s)
  /\ (forall s members rest, parseMembers fuel s = Done members rest ->
                             String.length rest < String.length s).
Proof.
  induction fuel as [ | fuel (IHv & IHe & IHm) ]; [ repeat split; discriminate | ].
  repeat split; intros s ? rest Hp; simpl in Hp; cases Hp; injection Hp as <- <-;
    repeat match goal with
           | H : parseValue fuel _ = Done _ _ |- _ => apply IHv in H
           | H : parseElements fuel _ = Done _ _ |- _ => apply IHe in H
           | H : parseMembers fuel _ = Done _ _ |- _ => apply IHm in H
           end;
    consumed; simpl in *; lia.
Qed.

(** With fuel for twice the length of the text, no reader runs out. *)
Lemma parse_fuel (engine : Engine) (fuel : nat) :
  (forall s, 2 * String.length s + 1 <= fuel -> parseValue fuel s <> OutOfFuel)
  /\ (forall s, 2 * String.length s + 2 <= fuel -> parseElements fuel s <> OutOfFuel)
  /\ (forall s, 2 * String.length s + 2 <= fuel -> parseMembers fuel s <> OutOfFuel).
Proof.
  induction fuel as [ | fuel (IHv & IHe & IHm) ]; [ repeat split; intros; lia | ].
  repeat split; intros s Hfuel Hp; simpl in Hp; cases Hp;
    repeat match goal with
           | H : parseValue fuel _ = Done _ _ |- _ => apply parse_shorter in H
           end;
    match goal with
    | H : parseValue fuel _ = OutOfFuel |- _ => apply IHv in H; auto
    | H : parseElements fuel _ = OutOfFuel |- _ => apply IHe in H; auto
    | H : parseMembers fuel _ = OutOfFuel |- _ => apply IHm in H; auto
    end;
    consumed; simpl in *; lia.
Qed.

(** [JSON.parse] never stops for lack of fuel. *)
Lemma parseJSONText_fuel (engine : Engine) (text : string) :
  parseValue (2 * String.length text + 2) text <> OutOfFuel.
Proof. apply parse_fuel. lia. Qed.

Lemma hasProp_existsb key (props : Props) :
  hasProp key props = existsb (String.eqb key) (map fst props).
Proof.
  induction props as [ | [k v] rest IH ]; simpl; auto.
  now rewrite IH, String.eqb_sym.
Qed.

Lemma setProp_keys key v (props : Props) :
  map fst (setProp key v props)
  = if hasProp key props then map fst props else (map fst props ++ [key])%list.
Proof.
  induction props as [ | [k w] rest IH ]; simpl; auto.
  destruct (String.eqb k key) eqn:E; simpl; auto.
  rewrite IH. now destruct (hasProp key rest).
Qed.

Lemma distinct_snoc keys key :
  distinct keys = true -> existsb (String.eqb key) keys = false ->
  distinct (keys ++ [key]) = true.
Proof.
  induction keys as [ | k rest IH ]; simpl; auto.
  intros Hd Hex. apply andb_prop in Hd. destruct Hd as [Hk Hrest].
  apply orb_false_elim in Hex. destruct Hex as [Hne Hex].
  rewrite IH by auto. rewrite andb_true_r.
  rewrite existsb_app. simpl. rewrite String.eqb_sym, Hne.
  apply negb_true_iff in Hk. now rewrite Hk.
Qed.

(** Setting a property keeps an object well formed. *)
Lemma setProp_wellFormed key v (props : Props) :
  wellFormed (JObj props) = true -> wellFormed v = true ->
  wellFormed (JObj (setProp key v props)) = true.
Proof.
  cbn [wellFormed]. intros Hp Hv. apply andb_prop in Hp. destruct Hp as [Hkeys Hvals].
  apply andb_true_intro. split.
  - rewrite setProp_keys. destruct (hasProp key props) eqn:Hhas; auto.
    apply distinct_snoc; auto. now rewrite <- hasProp_existsb.
  - clear Hkeys. induction props as [ | [k w] rest IH ]; simpl in *.
    + now rewrite Hv.
    + apply andb_prop in Hvals. destruct Hvals as [Hw Hrest].
      destruct (String.eqb k key); simpl; rewrite ?Hv, ?Hw, ?Hrest, ?IH; auto.
Qed.

Lemma objectOf_wellFormed (members : list (string * jsval)) :
  forallb (fun entry : string * jsval => wellFormed (snd entry)) members = true ->
  wellFormed (objectOf members) = true.
Proof.
  unfold objectOf.
  assert (Hgen : forall acc, wellFormed (JObj acc) = true ->
            forallb (fun entry : string * jsval => wellFormed (snd entry)) members = true ->
            wellFormed (JObj (fold_left (fun acc member =>
                                setProp (fst member) (snd member) acc) members acc)) = true).
  { induction members as [ | [k v] rest IH ]; intros acc Hacc Hm; auto.
    cbn [fold_left fst snd]. simpl in Hm. apply andb_prop in Hm. destruct Hm as [Hv Hrest].
    apply IH; auto. now apply setProp_wellFormed. }
  now apply Hgen.
Qed.

(** What the reader returns is well formed: no object has a key twice. *)
Lemma parse_wellFormed (engine : Engine) (fuel : nat) :
  (forall s v rest, parseValue fuel s = Done v rest -> wellFormed v = true)
  /\ (forall s items rest, parseElements fuel s = Done items rest ->
                           forallb wellFormed items = true)
  /\ (forall s members rest, parseMembers fuel s = Done members rest ->
        forallb (fun entry : string * jsval => wellFormed (snd entry)) members = true).
Proof.
  induction fuel as [ | fuel (IHv & IHe & IHm) ]; [ repeat split; discriminate | ].
  repeat split; intros s ? rest Hp; simpl in Hp; cases Hp; injection Hp as <- <-;
    repeat match goal with
           | H : parseValue fuel _ = Done _ _ |- _ => apply IHv in H
           | H : parseElements fuel _ = Done _ _ |- _ => apply IHe in H
           | H : parseMembers fuel _ = Done _ _ |- _ => apply IHm in H
           end;
    try reflexivity; try (apply objectOf_wellFormed; assumption);
    cbn [forallb wellFormed snd];
    repeat match goal with H : _ = true |- _ => rewrite H end; reflexivity.
Qed.

Lemma JSON_parse_wellFormed (engine : Engine) (value json : jsval) :
  JSON_parse value = Returns json -> wellFormed json = true.
Proof.
  unfold JSON_parse, parseJSONText.
  destruct (ToString value) as [ text | ]; try discriminate.
  destruct (parseValue _ text) as [ v rest | | ] eqn:Hp; try discriminate.
  destruct (skipWhitespace rest); try discriminate. intros [= <-].
  eapply parse_wellFormed; eauto.
Qed.

(** ** Secure strings *)

(** C3, as amended: [SecureStringSchema] accepts exactly the objects whose
    [__secureString] is [true] and whose [strings] and [interpolations] are
    arrays of strings, and returns these three properties.  It relates the two
    lengths in no way: any two lists of strings make an accepted value. *)
Theorem SecureStringSchema_accepts_exactly :
  (forall data out,
     SecureStringSchema data = OK out <->
     exists props literals interpolated,
       data = JObj props
       /\ getProp "__secureString" props = JBool true
       /\ getProp "strings" props = JArr (map JStr literals)
       /\ getProp "interpolations" props = JArr (map JStr interpolated)
       /\ out = secureString literals interpolated)
  /\ (forall literals interpolated,
        SecureStringSchema (secureString literals interpolated)
        = OK (secureString literals interpolated)).
Proof.
  assert (Hback : forall props literals interpolated,
             getProp "__secureString" props = JBool true ->
             getProp "strings" props = JArr (map JStr literals) ->
             getProp "interpolations" props = JArr (map JStr interpolated) ->
             SecureStringSchema (JObj props) = OK (secureString literals interpolated)).
  { intros props literals interpolated H1 H2 H3.
    assert (Hs : forall texts, z_array z_string (JArr (map JStr texts))
                               = OK (JArr (map JStr texts)))
      by (intros; apply z_array_string_OK; eauto).
    unfold SecureStringSchema, z_object, shapePairs.
    cbn [map fst snd pair_value]. rewrite H1, H2, H3, !Hs.
    reflexivity. }
  split.
  - intros data out. split.
    + intros Hz. pose proof Hz as Hout.
      apply z_object_OK in Hz; [ | distinct_keys ].
      destruct Hz as (props & o & -> & -> & Hfields & _).
      pose proof (Hfields _ _ (or_introl eq_refl)) as H1.
      pose proof (Hfields _ _ (or_intror (or_introl eq_refl))) as H2.
      pose proof (Hfields _ _ (or_intror (or_intror (or_introl eq_refl)))) as H3.
      apply z_literal_bool_OK in H1. destruct H1 as [H1 _].
      apply z_array_string_OK in H2. destruct H2 as (literals & H2 & _).
      apply z_array_string_OK in H3. destruct H3 as (interpolated & H3 & _).
      exists props, literals, interpolated. repeat split; auto.
      rewrite (Hback _ _ _ H1 H2 H3) in Hout. congruence.
    + intros (props & literals & interpolated & -> & H1 & H2 & H3 & ->).
      now apply Hback.
  - intros literals interpolated. now apply Hback.
Qed.

(** C3, the claim as stated fails: the secure string with no literal part and
    no interpolated part is accepted, and it does not satisfy the reassembly
    rule. *)
Lemma SecureStringSchema_ignores_lengths :
  SecureStringSchema (secureString [] []) = OK (secureString [] [])
  /\ ~ reassembles (secureString [] []).
Proof.
  split.
  - reflexivity.
  - simpl. lia.
Qed.

(** ** The result of creating an execution *)

(** What the branch for [ok: true] returns. *)
Lemma CreateExecutionResponseOkSchema_OK data out :
  CreateExecutionResponseOkSchema data = OK out <->
  exists props fields id,
    data = JObj props /\ getProp "ok" props = JBool true
    /\ getProp "data" props = JObj fields /\ getProp "id" fields = JStr id
    /\ out = createdExecution id.
Proof.
  assert (Hback : forall props fields id,
             getProp "ok" props = JBool true -> getProp "data" props = JObj fields ->
             getProp "id" fields = JStr id ->
             CreateExecutionResponseOkSchema (JObj props) = OK (createdExecution id)).
  { intros props fields id H1 H2 H3.
    unfold CreateExecutionResponseOkSchema, z_object, shapePairs.
    cbn [map fst snd pair_value]. rewrite H1, H2.
    cbn [z_literal_bool Bool.eqb map fst snd pair_value shapePairs]. rewrite H3.
    reflexivity. }
  split.
  - intros Hz. pose proof Hz as Hout.
    apply z_object_OK in Hz; [ | distinct_keys ].
    destruct Hz as (props & o & -> & -> & Hfields & _).
    pose proof (Hfields _ _ (or_introl eq_refl)) as H1.
    pose proof (Hfields _ _ (or_intror (or_introl eq_refl))) as H2.
    apply z_literal_bool_OK in H1. destruct H1 as [H1 _].
    apply z_object_OK in H2; [ | distinct_keys ].
    destruct H2 as (fields & o' & H2 & _ & Hid & _).
    pose proof (Hid _ _ (or_introl eq_refl)) as H3.
    apply z_string_OK in H3. destruct H3 as (id & H3 & _).
    exists props, fields, id. repeat split; auto.
    rewrite (Hback _ _ _ H1 H2 H3) in Hout. congruence.
  - intros (props & fields & id & -> & H1 & H2 & H3 & ->). eapply Hback; eauto.
Qed.

(** What the branch for [ok: false] returns. *)
Lemma CreateExecutionResponseErrorSchema_OK data out :
  CreateExecutionResponseErrorSchema data = OK out <->
  exists props error,
    data = JObj props /\ getProp "ok" props = JBool false
    /\ getProp "error" props = JStr error
    /\ out = failedExecution error.
Proof.
  assert (Hback : forall props error,
             getProp "ok" props = JBool false -> getProp "error" props = JStr error ->
             CreateExecutionResponseErrorSchema (JObj props) = OK (failedExecution error)).
  { intros props error H1 H2.
    unfold CreateExecutionResponseErrorSchema, z_object, shapePairs.
    cbn [map fst snd pair_value]. rewrite H1, H2. reflexivity. }
  split.
  - intros Hz. pose proof Hz as Hout.
    apply z_object_OK in Hz; [ | distinct_keys ].
    destruct Hz as (props & o & -> & -> & Hfields & _).
    pose proof (Hfields _ _ (or_introl eq_refl)) as H1.
    pose proof (Hfields _ _ (or_intror (or_introl eq_refl))) as H2.
    apply z_literal_bool_OK in H1. destruct H1 as [H1 _].
    apply z_string_OK in H2. destruct H2 as (error & H2 & _).
    exists props, error. repeat split; auto.
    rewrite (Hback _ _ H1 H2) in Hout. congruence.
  - intros (props & error & -> & H1 & H2 & ->). now apply Hback.
Qed.

(** C7: [CreateExecutionResponseBodySchema] accepts exactly two variants,
    told apart by [ok].  With [ok: true] the data must carry [data.id], a
    string, and the result is [{ok: true, data: {id}}]; with [ok: false] it
    must carry [error], a string, and the result is [{ok: false, error}].
    Nothing else is accepted: in particular not [ok: true] without [data], nor
    [ok: false] without [error]. *)
Theorem CreateExecutionResponseBodySchema_tagged data out :
  CreateExecutionResponseBodySchema data = OK out <->
  (exists props fields id,
      data = JObj props /\ getProp "ok" props = JBool true
      /\ getProp "data" props = JObj fields /\ getProp "id" fields = JStr id
      /\ out = createdExecution id)
  \/ (exists props error,
        data = JObj props /\ getProp "ok" props = JBool false
        /\ getProp "error" props = JStr error
        /\ out = failedExecution error).
Proof.
  split.
  - unfold CreateExecutionResponseBodySchema, z_discriminatedUnion.
    destruct data as [ | | | | | | props | | ]; try discriminate.
    destruct (getProp "ok" props) as [ | | [ | ] | | | | | | ] eqn:Hok;
      cbn [optionFor Bool.eqb]; try discriminate; intros Hz.
    + left. now apply CreateExecutionResponseOkSchema_OK.
    + right. now apply CreateExecutionResponseErrorSchema_OK.
  - intros [ Hok | Herr ].
    + pose proof Hok as (props & fields & id & -> & H1 & _).
      unfold CreateExecutionResponseBodySchema, z_discriminatedUnion.
      rewrite H1. cbn [optionFor Bool.eqb].
      now apply CreateExecutionResponseOkSchema_OK.
    + pose proof Herr as (props & error & -> & H1 & _).
      unfold CreateExecutionResponseBodySchema, z_discriminatedUnion.
      rewrite H1. cbn [optionFor Bool.eqb].
      now apply CreateExecutionResponseErrorSchema_OK.
Qed.

(** ** Task requests *)

(** The fact a valid parse by [z.object] gives for one key of the shape. *)
Ltac field Hfields key name :=
  eassert (name : _);
  [ eapply (Hfields key); simpl; repeat first [ left; reflexivity | right ] | ];
  cbv beta in name.

Lemma z_default_false_OK data out :
  z_default (Returns (JBool false)) z_boolean data = OK out ->
  exists b, out = JBool b /\ (data = JUndefined -> b = false)
            /\ (forall b', data = JBool b' -> b = b').
Proof.
  destruct data; simpl; try discriminate; intros [= <-];
    eexists; repeat split; try discriminate; congruence.
Qed.

(** C10: a task request parsed by [RunTaskBodyInputSchema], or an [IOTask]
    parsed by [IOTaskSchema], always carries a boolean [noop]; when the
    request has no [noop], the parsed value has [noop = false]; a boolean
    given by the caller is kept. *)
Theorem noop_defaults_to_false (engine : Engine) (DisplayElementSchema : Schema)
    (data out : jsval) :
  RunTaskBodyInputSchema DisplayElementSchema data = OK out
  \/ IOTaskSchema DisplayElementSchema data = OK out ->
  exists props o b,
    data = JObj props /\ out = JObj o /\ getProp "noop" o = JBool b
    /\ (getProp "noop" props = JUndefined -> b = false)
    /\ (forall b', getProp "noop" props = JBool b' -> b = b').
Proof.
  intros [ Hz | Hz ];
    (apply z_object_OK in Hz; [ | distinct_keys ]);
    destruct Hz as (props & o & -> & -> & Hfields & _);
    field Hfields "noop" Hnoop;
    apply z_default_false_OK in Hnoop;
    destruct Hnoop as (b & Hb & Habsent & Hgiven);
    exists props, o, b; auto.
Qed.

(** C10 at the task of the scenario: sent without [noop], parsed with
    [noop = false]. *)
Lemma noop_defaults_to_false_witness :
  RunTaskBodyInputSchema (engine := Sample.engine) sampleDisplayElementSchema
    welcomeEmailTask = OK welcomeEmailTaskParsed
  /\ exists props o b,
       welcomeEmailTask = JObj props /\ welcomeEmailTaskParsed = JObj o
       /\ getProp "noop" o = JBool b
       /\ (getProp "noop" props = JUndefined -> b = false)
       /\ (forall b', getProp "noop" props = JBool b' -> b = b').
Proof.
  split.
  - reflexivity.
  - apply (noop_defaults_to_false Sample.engine sampleDisplayElementSchema).
    left. reflexivity.
Defined.

(** ** The response to a dispatched run *)

(** C6, as amended: [ExecuteJobResponseSchema] accepts exactly the objects
    with a string [executionId], a boolean [completed], an [output] that is
    absent or deserialized JSON, and a [task] that is absent or passes
    [TaskSchema].  Whether [output] and [task] are there is not tied to
    [completed]. *)
Theorem ExecuteJobResponseSchema_accepts (TaskSchema : Schema) (data : jsval) :
  (exists out, ExecuteJobResponseSchema TaskSchema data = OK out) <->
  exists props executionId completed,
    data = JObj props
    /\ getProp "executionId" props = JStr executionId
    /\ getProp "completed" props = JBool completed
    /\ (exists output,
          z_optional DeserializedJsonSchema (getProp "output" props) = OK output)
    /\ (exists task, z_optional TaskSchema (getProp "task" props) = OK task).
Proof.
  split.
  - intros (out & Hz). apply z_object_OK in Hz; [ | distinct_keys ].
    destruct Hz as (props & o & -> & -> & Hfields & _).
    field Hfields "executionId" H1. field Hfields "completed" H2.
    field Hfields "output" H3. field Hfields "task" H4.
    apply z_string_OK in H1. destruct H1 as (executionId & H1 & _).
    apply z_boolean_OK in H2. destruct H2 as (completed & H2 & _).
    exists props, executionId, completed. eauto 10.
  - intros (props & executionId & completed & -> & H1 & H2 & (output & H3) & (task & H4)).
    destruct (z_object_valid
                [ ("executionId", z_string); ("completed", z_boolean);
                  ("output", z_optional DeserializedJsonSchema);
                  ("task", z_optional TaskSchema) ] props) as (o & Ho).
    + simpl. intros key schema [ [= <- <-] | [ [= <- <-] | [ [= <- <-] | [ [= <- <-] | [] ] ] ] ].
      * rewrite H1. eauto.
      * rewrite H2. eauto.
      * eauto.
      * eauto.
    + eauto.
Qed.

(** C6, the claim as stated fails: a response with [completed: false] and
    neither task nor output is accepted, whatever [TaskSchema] is; and with
    a schema for tasks, so is a response with [completed: true] that carries a
    task. *)
Lemma ExecuteJobResponseSchema_mixed_shapes :
  (forall TaskSchema,
     ExecuteJobResponseSchema TaskSchema suspendedWithoutTask = OK suspendedWithoutTask)
  /\ getProp "completed" [ ("executionId", JStr "x1"); ("completed", JBool false) ]
     = JBool false
  /\ hasProp "task" [ ("executionId", JStr "x1"); ("completed", JBool false) ] = false
  /\ hasProp "output" [ ("executionId", JStr "x1"); ("completed", JBool false) ] = false
  /\ ExecuteJobResponseSchema sampleTaskSchema completedWithTask = OK completedWithTask.
Proof.
  repeat split; reflexivity.
Qed.

(** ** Registered HTTP sources *)

Lemma z_string_check_OK check data out :
  z_string_check check data = OK out <->
  exists s, data = JStr s /\ check s = true /\ out = JStr s.
Proof.
  split.
  - destruct data; simpl; try discriminate.
    destruct (check s) eqn:E; try discriminate. intros [= <-]. eauto.
  - intros (s & -> & E & ->). simpl. now rewrite E.
Qed.

Lemma z_optional_string_OK data out :
  z_optional z_string data = OK out ->
  out = data /\ (data = JUndefined \/ exists s, data = JStr s).
Proof.
  destruct data; simpl; try discriminate; intros [= <-]; eauto.
Qed.

(** C5, as amended: the shape of [HttpEventSourceSchema] is
    [connectionId?], [secret?], [data?], [active], [id], [url]; it extends
    the update body, from which [key] was omitted.  A parsed source never has
    a [key]: it has a string [id], a boolean [active], a [url] that is a
    URL, and a [secret] and a [connectionId] that are strings when present.
    A [key] in the data changes nothing. *)
Theorem HttpEventSourceSchema_has_no_key (engine : Engine) :
  (forall data out,
     HttpEventSourceSchema data = OK out ->
     exists props o id active url,
       data = JObj props /\ out = JObj o
       /\ hasProp "key" o = false
       /\ getProp "id" o = JStr id
       /\ getProp "active" o = JBool active
       /\ getProp "url" o = JStr url /\ isURL url = true
       /\ (getProp "secret" o = JUndefined \/ exists s, getProp "secret" o = JStr s)
       /\ (getProp "connectionId" o = JUndefined
           \/ exists c, getProp "connectionId" o = JStr c))
  /\ (forall props key,
        HttpEventSourceSchema (JObj (setProp "key" key props))
        = HttpEventSourceSchema (JObj props)).
Proof.
  split.
  - intros data out Hz. apply z_object_OK in Hz; [ | distinct_keys ].
    destruct Hz as (props & o & -> & -> & Hfields & Hframe).
    field Hfields "id" H1. field Hfields "active" H2. field Hfields "url" H3.
    field Hfields "secret" H4. field Hfields "connectionId" H5.
    apply z_string_OK in H1. destruct H1 as (id & _ & H1).
    apply z_boolean_OK in H2. destruct H2 as (active & _ & H2).
    apply z_string_check_OK in H3. destruct H3 as (url & _ & Hurl & H3).
    apply z_optional_string_OK in H4. destruct H4 as (H4 & H4').
    apply z_optional_string_OK in H5. destruct H5 as (H5 & H5').
    exists props, o, id, active, url. repeat split; auto.
    + apply Hframe. simpl. intuition discriminate.
    + rewrite H4. exact H4'.
    + rewrite H5. exact H5'.
  - intros props key. unfold HttpEventSourceSchema, z_object, shapePairs.
    cbn [HttpEventSourceShape UpdateHttpEventSourceBodyShape
         RegisterHttpEventSourceBodyShape shape_extend shape_omit shapeSet
         List.filter existsb negb orb fold_left fst snd String.eqb Ascii.eqb
         Bool.eqb map].
    rewrite !getProp_setProp_ne, !hasProp_setProp_ne by discriminate.
    reflexivity.
Qed.

(** C5, a parsed source: the source of the example is accepted, and what the
    schema returns for it has no [key]. *)
Lemma HttpEventSourceSchema_has_no_key_witness :
  HttpEventSourceSchema (engine := Sample.engine) registeredSource
  = OK registeredSourceParsed
  /\ exists props o id active url,
       registeredSource = JObj props /\ registeredSourceParsed = JObj o
       /\ hasProp "key" o = false
       /\ getProp "id" o = JStr id
       /\ getProp "active" o = JBool active
       /\ getProp "url" o = JStr url /\ Sample.isURL url = true
       /\ (getProp "secret" o = JUndefined \/ exists s, getProp "secret" o = JStr s)
       /\ (getProp "connectionId" o = JUndefined
           \/ exists c, getProp "connectionId" o = JStr c).
Proof.
  split.
  - reflexivity.
  - apply (proj1 (HttpEventSourceSchema_has_no_key Sample.engine)). reflexivity.
Defined.

(** C5, the claim as stated fails: the source of the example, registered
    with the key [github.push], is accepted, and the parsed source has no
    [key]. *)
Lemma HttpEventSourceSchema_drops_key :
  getProp "key" [ ("id", JStr "src_1"); ("key", JStr "github.push");
                  ("url", JStr "https://example.com/hooks/src_1");
                  ("secret", JStr "s3cr3t"); ("active", JBool true) ]
  = JStr "github.push"
  /\ HttpEventSourceSchema (engine := Sample.engine) registeredSource
     = OK registeredSourceParsed
  /\ getProp "key" [ ("secret", JStr "s3cr3t"); ("active", JBool true);
                     ("id", JStr "src_1");
                     ("url", JStr "https://example.com/hooks/src_1") ]
     = JUndefined.
Proof.
  repeat split; reflexivity.
Qed.

(** ** Persisted events *)

Lemma z_coerce_date_OK (engine : Engine) data out :
  z_coerce_date data = OK out ->
  exists t, out = JDate (Some t) /\ newDate data = Some (Some t).
Proof.
  unfold z_coerce_date. destruct (newDate data) as [ [ t | ] | ]; try discriminate.
  intros [= <-]. eauto.
Qed.





(** ** The headers of a signed request *)

(** [z.object] passes no string. *)
Lemma z_object_string shape text : z_object shape (JStr text) = INVALID.
Proof. reflexivity. Qed.

(** Whatever object schema describes the auth descriptor, headers with a
    non-empty [x-trigger-auth] make the parse throw: the transform hands the
    string itself, not its deserialization, to [ConnectionAuthSchema]. *)
Lemma x_trigger_auth_throws (engine : Engine) (shape : Shape) props c rest :
  getProp "x-trigger-auth" props = JStr (String c rest) ->
  HttpSourceRequestHeadersSchema (z_object shape) (JObj props) = Throw ZodError.
Proof.
  intros Hauth. unfold HttpSourceRequestHeadersSchema, z_object at 1, shapePairs.
  cbn [map fst snd pair_value firstThrow]. rewrite Hauth.
  cbn [z_transform z_optional z_string ToBoolean].
  unfold parse at 1. rewrite z_object_string.
  destruct (z_string (getProp "x-trigger-key" props)) eqn:Hkey; try reflexivity.
  destruct (getProp "x-trigger-key" props); discriminate.
Qed.

(** C2, on the headers of the example: [x-trigger-auth] is the serialized
    form of a descriptor that [ConnectionAuthSchema] accepts, and
    deserializing it gives the descriptor back; yet parsing the headers throws
    a [ZodError].  Without [x-trigger-auth] the same headers parse, and
    [x-trigger-headers] is deserialized. *)
Theorem x_trigger_auth_is_not_deserialized :
  sampleConnectionAuthSchema authDescriptor = OK authDescriptor
  /\ JSON_parse (engine := Sample.engine)
       (getProp "x-trigger-auth"
          [ ("x-trigger-key", JStr "github.push");
            ("x-trigger-auth", JSON_stringify (engine := Sample.engine) authDescriptor) ])
     = Returns authDescriptor
  /\ HttpSourceRequestHeadersSchema (engine := Sample.engine)
       sampleConnectionAuthSchema signedHeaders = Throw ZodError
  /\ HttpSourceRequestHeadersSchema (engine := Sample.engine)
       sampleConnectionAuthSchema unsignedHeaders = OK unsignedHeadersParsed.
Proof.
  repeat split; vm_compute; reflexivity.
Qed.

(** ** Completing a task *)

(** [JSON.parse(JSON.stringify(undefined))]: [JSON.stringify] returns
    [undefined], which [JSON.parse] reads as the text [undefined], and that is
    no JSON. *)
Lemma JSON_roundtrip_undefined (engine : Engine) :
  JSON_stringify JUndefined = JUndefined
  /\ parseValue (2 * String.length "undefined" + 2) "undefined" = Unexpected
  /\ JSON_parse (JSON_stringify JUndefined) = Throws SyntaxError.
Proof. repeat split; reflexivity. Qed.

Lemma firstThrow_last (results : list ParseReturn) (e : exn) :
  exists e', firstThrow (results ++ [Throw e]) = Some e'.
Proof.
  induction results as [ | r rest [e' IH] ]; simpl; eauto.
  destruct r; eauto.
Qed.

(** C9, as amended: parsing a completion without [output] does not succeed:
    the transform calls [JSON.parse(JSON.stringify(undefined))], which throws a
    [SyntaxError], and the parse ends in an exception.  So a parsed completion
    had an [output] and its parsed [output] is defined.  For an output whose
    objects have each key once, as every object of the language has, and no
    property named [__proto__], the parsed output is what
    [DeserializedJsonSchema] makes of [JSON.parse(JSON.stringify(output))], and
    it is that round trip itself when the round trip has no property named
    [__proto__] either. *)
Theorem CompleteTaskBodyInputSchema_output (engine : Engine)
    (DisplayElementSchema : Schema) :
  JSON_parse (JSON_stringify JUndefined) = Throws SyntaxError
  /\ (forall props,
        getProp "output" props = JUndefined ->
        exists e,
          CompleteTaskBodyInputSchema DisplayElementSchema (JObj props) = Throw e)
  /\ (forall data out,
        CompleteTaskBodyInputSchema DisplayElementSchema data = OK out ->
        exists props o,
          data = JObj props /\ out = JObj o
          /\ getProp "output" props <> JUndefined
          /\ getProp "output" o <> JUndefined
          /\ (wellFormed (getProp "output" props) = true ->
              noProtoKey (getProp "output" props) = true ->
              exists json,
                JSON_parse (JSON_stringify (getProp "output" props)) = Returns json
                /\ DeserializedJsonSchema json = OK (getProp "output" o)
                /\ (noProtoKey json = true -> getProp "output" o = json))).
Proof.
  split; [ reflexivity | split ].
  - intros props Habsent.
    unfold CompleteTaskBodyInputSchema, z_object.
    change (map pair_value (shapePairs (CompleteTaskBodyInputShape DisplayElementSchema) props))
      with ([ z_optional (z_array DisplayElementSchema) (getProp "elements" props);
              z_optional z_string (getProp "description" props);
              z_optional SerializableJsonSchema (getProp "params" props) ]
            ++ [ z_transform (z_optional SerializableJsonSchema)
                   (fun v => let! json := JSON_parse (JSON_stringify v) in
                             parse DeserializedJsonSchema json)
                   (getProp "output" props) ])%list.
    rewrite Habsent.
    change (z_transform _ _ JUndefined) with (Throw SyntaxError).
    destruct (firstThrow_last
                [ z_optional (z_array DisplayElementSchema) (getProp "elements" props);
                  z_optional z_string (getProp "description" props);
                  z_optional SerializableJsonSchema (getProp "params" props) ]
                SyntaxError) as (e & ->).
    now exists e.
  - intros data out Hz. unfold CompleteTaskBodyInputSchema in Hz.
    apply z_object_OK in Hz; [ | distinct_keys ].
    destruct Hz as (props & o & -> & -> & Hfields & _).
    field Hfields "output" Hout. unfold z_transform, andThen in Hout.
    destruct (z_optional SerializableJsonSchema (getProp "output" props))
      as [ checked | | | ] eqn:Hchecked; try discriminate.
    destruct (JSON_parse (JSON_stringify checked)) as [ json | ] eqn:Hjson;
      try discriminate.
    unfold parse in Hout.
    destruct (DeserializedJsonSchema json) as [ result | | | ] eqn:Hresult;
      try discriminate.
    injection Hout as Hout.
    assert (Hsupplied : getProp "output" props <> JUndefined).
    { intros Habsent. rewrite Habsent in Hchecked. injection Hchecked as <-.
      discriminate Hjson. }
    exists props, o. repeat split; auto.
    + rewrite <- Hout. eapply DeserializedJsonSchema_defined; eauto.
    + intros Hwf Hnp. rewrite z_optional_defined in Hchecked by assumption.
      apply SerializableJsonSchema_stringify with (engine := engine) in Hchecked;
        [ | assumption | assumption ].
      exists json. repeat split.
      * unfold JSON_stringify in *. now rewrite <- Hchecked.
      * now rewrite <- Hout.
      * intros Hplain. rewrite <- Hout. apply DeserializedJsonSchema_same; auto.
        eapply JSON_parse_wellFormed; eauto.
Qed.

(** C9 on the task of the scenario: completed without [output] the parse
    throws; completed with an output, which has no property [__proto__], the
    parsed output is its round trip through JSON, where the date is a string
    and the undefined property is gone. *)
Lemma CompleteTaskBodyInputSchema_output_witness :
  CompleteTaskBodyInputSchema (engine := Sample.engine) sampleDisplayElementSchema
    (JObj completionWithoutOutput) = Throw SyntaxError
  /\ (exists e,
        CompleteTaskBodyInputSchema (engine := Sample.engine) sampleDisplayElementSchema
          (JObj completionWithoutOutput) = Throw e)
  /\ CompleteTaskBodyInputSchema (engine := Sample.engine) sampleDisplayElementSchema
       completion = OK completionParsed
  /\ JSON_parse (engine := Sample.engine) (JSON_stringify (engine := Sample.engine) emailSent)
     = Returns emailSentRoundTrip
  /\ wellFormed emailSent = true /\ noProtoKey emailSent = true
  /\ noProtoKey emailSentRoundTrip = true
  /\ (exists props o,
        completion = JObj props /\ completionParsed = JObj o
        /\ getProp "output" props <> JUndefined
        /\ getProp "output" o <> JUndefined
        /\ (wellFormed (getProp "output" props) = true ->
            noProtoKey (getProp "output" props) = true ->
            exists json,
              JSON_parse (engine := Sample.engine)
                (JSON_stringify (engine := Sample.engine) (getProp "output" props))
              = Returns json
              /\ DeserializedJsonSchema json = OK (getProp "output" o)
              /\ (noProtoKey json = true -> getProp "output" o = json))).
Proof.
  split; [ vm_compute; reflexivity | ].
  split.
  - apply (proj1 (proj2 (CompleteTaskBodyInputSchema_output
                           Sample.engine sampleDisplayElementSchema))).
    reflexivity.
  - split; [ vm_compute; reflexivity | ].
    split; [ vm_compute; reflexivity | ].
    split; [ reflexivity | ]. split; [ reflexivity | ]. split; [ reflexivity | ].
    apply (proj2 (proj2 (CompleteTaskBodyInputSchema_output
                           Sample.engine sampleDisplayElementSchema))).
    vm_compute. reflexivity.
Defined.

(** C9, the claim as stated fails: an output with a property named
    [__proto__], as [JSON.parse] makes them, is accepted; its round trip
    through JSON has the property, the parsed output has not. *)
Lemma CompleteTaskBodyInputSchema_loses_proto :
  CompleteTaskBodyInputSchema (engine := Sample.engine) sampleDisplayElementSchema
    (JObj [ ("output", outputWithProto) ])
  = OK (JObj [ ("output", JObj [ ("a", num "1") ]) ])
  /\ wellFormed outputWithProto = true
  /\ JSON_parse (engine := Sample.engine)
       (JSON_stringify (engine := Sample.engine) outputWithProto)
     = Returns (JObj [ ("a", num "1"); ("__proto__", num "2") ])
  /\ hasProp "__proto__" [ ("a", num "1"); ("__proto__", num "2") ] = true
  /\ hasProp "__proto__" [ ("a", num "1") ] = false.
Proof.
  repeat split; vm_compute; reflexivity.
Qed.

(** ** Identifiers of raw events *)

#[local] Arguments String.append s1 s2 : simpl nomatch.
#[local] Arguments Ulid.indexIn : simpl never.
#[local] Arguments Ulid.charAt : simpl never.

Lemma string_app_assoc (s t u : string) : (s ++ t) ++ u = s ++ (t ++ u).
Proof. induction s as [ | c s IH ]; simpl; congruence. Qed.

Lemma string_app_nil_r (s : string) : s ++ "" = s.
Proof. induction s as [ | c s IH ]; simpl; congruence. Qed.

Lemma string_length_app (s t : string) :
  String.length (s ++ t) = String.length s + String.length t.
Proof. induction s as [ | c s IH ]; simpl; congruence. Qed.

Lemma substring_prefix (s t : string) :
  String.substring 0 (String.length s) (s ++ t) = s.
Proof.
  induction s as [ | c s IH ]; simpl.
  - now destruct t.
  - now rewrite IH.
Qed.

Lemma compare_same_prefix (p s t : string) :
  String.compare (p ++ s) (p ++ t) = String.compare s t.
Proof.
  induction p as [ | c p IH ]; simpl; auto.
  unfold Ascii.compare. now rewrite N.compare_refl.
Qed.

(** The digit at a position below 32: one character of the alphabet, found
    back at that position. *)
Lemma charAt_digit (m : Z) :
  (0 <= m < 32)%Z ->
  exists c, Ulid.charAt m = String c "" /\ Ulid.indexIn c Ulid.ENCODING = Some m.
Proof.
  intros Hm. rewrite <- (Z2Nat.id m) by lia.
  assert (Hn : Z.to_nat m < 32) by lia. revert Hn.
  generalize (Z.to_nat m) as n. intros n Hn.
  do 32 (destruct n as [ | n ]; [ eexists; split; reflexivity | ]). lia.
Qed.

(** The alphabet is in increasing order of character codes. *)
Lemma charAt_increasing (a b : Z) :
  (0 <= a < b)%Z -> (b < 32)%Z ->
  exists ca cb, Ulid.charAt a = String ca "" /\ Ulid.charAt b = String cb ""
                /\ Ascii.compare ca cb = Lt.
Proof.
  intros Ha Hb.
  assert (Hstep : forall m, (0 <= m < 31)%Z ->
            exists c d, Ulid.charAt m = String c "" /\ Ulid.charAt (m + 1) = String d ""
                        /\ (N_of_ascii c < N_of_ascii d)%N).
  { intros m Hm. rewrite <- (Z2Nat.id m) by lia.
    assert (Hn : Z.to_nat m < 31) by lia. revert Hn.
    generalize (Z.to_nat m) as n. intros n Hn.
    do 31 (destruct n as [ | n ];
           [ do 2 eexists; split; [ reflexivity | split; reflexivity ] | ]). lia. }
  assert (Hgap : forall k : nat, forall a', (0 <= a')%Z -> (a' + Z.of_nat (S k) < 32)%Z ->
            exists ca cb, Ulid.charAt a' = String ca ""
                          /\ Ulid.charAt (a' + Z.of_nat (S k)) = String cb ""
                          /\ (N_of_ascii ca < N_of_ascii cb)%N).
  { induction k as [ | k IH ]; intros a' Ha' Hb'.
    - destruct (Hstep a') as (c & d & Hc & Hd & Hlt); [ lia | ].
      exists c, d. replace (a' + Z.of_nat 1)%Z with (a' + 1)%Z by lia. auto.
    - destruct (IH a') as (ca & cm & Hca & Hcm & Hlt1); [ lia | lia | ].
      destruct (Hstep (a' + Z.of_nat (S k))%Z) as (c & d & Hc & Hd & Hlt2); [ lia | ].
      rewrite Hcm in Hc. injection Hc as <-.
      exists ca, d. repeat split; auto.
      + rewrite <- Hd. f_equal. lia.
      + lia. }
  destruct (Hgap (Z.to_nat (b - a - 1)) a) as (ca & cb & Hca & Hcb & Hlt); [ lia | lia | ].
  exists ca, cb. repeat split; auto.
  rewrite <- Hcb. f_equal. lia.
Qed.

Lemma encodeDigits_app (len : nat) : forall now str,
  Ulid.encodeDigits now len str = Ulid.encodeDigits now len "" ++ str.
Proof.
  induction len as [ | len IH ]; intros now str; simpl; auto.
  rewrite IH. rewrite (IH _ (_ ++ "")).
  now rewrite string_app_nil_r, string_app_assoc.
Qed.

(** The digits of [now], the most significant first: those of [now / 32],
    then the digit [now mod 32]. *)
Lemma encodeDigits_step (len : nat) (now : Z) :
  Ulid.encodeDigits now (S len) ""
  = Ulid.encodeDigits (now / 32) len "" ++ Ulid.charAt (now mod 32).
Proof.
  simpl. unfold Ulid.ENCODING_LEN.
  replace ((now - now mod 32) / 32)%Z with (now / 32)%Z.
  - rewrite encodeDigits_app. now rewrite string_app_nil_r.
  - apply (Z.div_unique_pos _ 32 _ 0); [ lia | ].
    pose proof (Z.div_mod now 32). lia.
Qed.

Lemma encodeDigits_length (len : nat) : forall now,
  String.length (Ulid.encodeDigits now len "") = len.
Proof.
  induction len as [ | len IH ]; intros now; auto.
  rewrite encodeDigits_step, string_length_app, IH.
  destruct (charAt_digit (now mod 32)) as (c & -> & _).
  - apply Z.mod_pos_bound. lia.
  - simpl. lia.
Qed.

Lemma decodeDigits_app (s t : string) : forall carry,
  Ulid.decodeDigits carry (s ++ t)
  = match Ulid.decodeDigits carry s with
    | Some value => Ulid.decodeDigits value t
    | None => None
    end.
Proof.
  induction s as [ | c s IH ]; intros carry; simpl; auto.
  destruct (Ulid.indexIn c Ulid.ENCODING); auto.
Qed.

(** Decoding the digits of a time gives the time back. *)
Lemma decodeDigits_encodeDigits (len : nat) : forall now carry,
  (0 <= now < 32 ^ Z.of_nat len)%Z ->
  Ulid.decodeDigits carry (Ulid.encodeDigits now len "")
  = Some (carry * 32 ^ Z.of_nat len + now)%Z.
Proof.
  induction len as [ | len IH ]; intros now carry Hnow.
  - simpl in *. f_equal. lia.
  - rewrite Nat2Z.inj_succ, Z.pow_succ_r in * by lia.
    rewrite encodeDigits_step, decodeDigits_app, IH.
    + destruct (charAt_digit (now mod 32)) as (c & -> & Hc).
      * apply Z.mod_pos_bound. lia.
      * simpl. rewrite Hc. unfold Ulid.ENCODING_LEN. f_equal.
        pose proof (Z.div_mod now 32). lia.
    + split.
      * apply Z.div_pos; lia.
      * apply Z.div_lt_upper_bound; lia.
Qed.

(** Of two times, the earlier has the smaller digits in the order of
    strings, whatever follows the digits. *)
Lemma encodeDigits_increasing (len : nat) : forall a b s t,
  (0 <= a < b)%Z -> (b < 32 ^ Z.of_nat len)%Z ->
  String.compare (Ulid.encodeDigits a len "" ++ s) (Ulid.encodeDigits b len "" ++ t)
  = Lt.
Proof.
  induction len as [ | len IH ]; intros a b s t Hab Hb.
  - simpl in Hb. lia.
  - rewrite Nat2Z.inj_succ, Z.pow_succ_r in Hb by lia.
    rewrite !encodeDigits_step, !string_app_assoc.
    pose proof (Z.div_mod a 32). pose proof (Z.div_mod b 32).
    pose proof (Z.mod_pos_bound a 32). pose proof (Z.mod_pos_bound b 32).
    assert (Hq : (a / 32 <= b / 32)%Z) by (apply Z.div_le_mono; lia).
    destruct (Z.eq_dec (a / 32) (b / 32)) as [ Heq | Hne ].
    + rewrite Heq, compare_same_prefix.
      destruct (charAt_increasing (a mod 32) (b mod 32)) as (ca & cb & -> & -> & Hlt);
        [ lia | lia | ].
      simpl. now rewrite Hlt.
    + apply IH.
      * split; [ apply Z.div_pos; lia | lia ].
      * apply Z.div_lt_upper_bound; lia.
Qed.

Lemma encodeRandomFrom_length (prng : nat -> Z) (len : nat) : forall i str,
  (forall j, 0 <= prng j <= 32)%Z ->
  String.length (Ulid.encodeRandomFrom prng i len str) = len + String.length str.
Proof.
  induction len as [ | len IH ]; intros i str Hprng; simpl; auto.
  rewrite IH by auto. rewrite string_length_app.
  unfold Ulid.randomChar, Ulid.ENCODING_LEN.
  destruct (charAt_digit (if (prng i =? 32)%Z then 32 - 1 else prng i)%Z)
    as (c & -> & _).
  - specialize (Hprng i). destruct (Z.eqb_spec (prng i) 32); lia.
  - simpl. lia.
Qed.

(** What [ulid()] returns: the ten digits of the clock reading, then the
    random part; the reading is within the range the package encodes. *)
Lemma ulid_Some now prng id :
  Ulid.ulid now prng = Some id ->
  (0 <= now <= Ulid.TIME_MAX)%Z
  /\ id = Ulid.encodeDigits now Ulid.TIME_LEN ""
          ++ Ulid.encodeRandom Ulid.RANDOM_LEN prng.
Proof.
  unfold Ulid.ulid, Ulid.encodeTime.
  destruct (Z.ltb_spec Ulid.TIME_MAX now); try discriminate.
  destruct (Z.ltb_spec now 0); try discriminate.
  intros Hid. split; [ lia | congruence ].
Qed.

Lemma z_default_ulid_OK now prng out :
  z_default (ulidDefault now prng) z_string JUndefined = OK out ->
  exists id, Ulid.ulid now prng = Some id /\ out = JStr id.
Proof.
  unfold z_default, ulidDefault.
  destruct (Ulid.ulid now prng) as [ id | ]; try discriminate.
  intros Hout. exists id. split; auto. apply z_string_OK in Hout.
  destruct Hout as (s & [= <-] & ->). reflexivity.
Qed.

(** An identifier has 26 characters when every draw of the generator, the
    floor of a number between 0 and 1 times 32, is between 0 and 32. *)
Lemma ulid_length now prng id :
  (forall i, 0 <= prng i <= 32)%Z ->
  Ulid.ulid now prng = Some id -> String.length id = 26.
Proof.
  intros Hprng Hid. apply ulid_Some in Hid. destruct Hid as (_ & ->).
  rewrite string_length_app, encodeDigits_length.
  unfold Ulid.encodeRandom. rewrite encodeRandomFrom_length by exact Hprng.
  reflexivity.
Qed.

(** The leading ten characters of an identifier encode the clock reading. *)
Lemma ulid_decodeTime now prng id :
  (forall i, 0 <= prng i <= 32)%Z ->
  Ulid.ulid now prng = Some id -> Ulid.decodeTime id = Some now.
Proof.
  intros Hprng Hid. pose proof (ulid_length _ _ _ Hprng Hid) as Hlen.
  apply ulid_Some in Hid. destruct Hid as (Hnow & ->).
  pose proof (substring_prefix (Ulid.encodeDigits now Ulid.TIME_LEN "")
                (Ulid.encodeRandom Ulid.RANDOM_LEN prng)) as Hsub.
  rewrite encodeDigits_length in Hsub.
  unfold Ulid.decodeTime. rewrite Hlen, Hsub.
  cbn [Nat.eqb Nat.add negb Ulid.TIME_LEN Ulid.RANDOM_LEN].
  unfold Ulid.TIME_MAX in *.
  change (2 ^ 48 - 1)%Z with 281474976710655%Z in *.
  rewrite decodeDigits_encodeDigits.
  - rewrite Z.mul_0_l, Z.add_0_l.
    destruct (Z.ltb_spec 281474976710655 now); [ lia | reflexivity ].
  - split; [ lia | ].
    apply Z.le_lt_trans with 281474976710655%Z; [ lia | reflexivity ].
Qed.

(** Identifiers sort by clock reading: the identifier of an earlier
    millisecond is smaller, in the order of strings, than the one of a later
    millisecond. *)
Lemma ulid_sorts_by_time now prng id later prng' id' :
  Ulid.ulid now prng = Some id -> Ulid.ulid later prng' = Some id' ->
  (now < later)%Z -> String.ltb id id' = true.
Proof.
  intros Hid Hid' Hlt.
  apply ulid_Some in Hid. destruct Hid as (Hnow & ->).
  apply ulid_Some in Hid'. destruct Hid' as (Hlater & ->).
  unfold String.ltb. rewrite encodeDigits_increasing; auto.
  - lia.
  - unfold Ulid.TIME_MAX in Hlater.
    change (2 ^ 48 - 1)%Z with 281474976710655%Z in Hlater.
    apply Z.le_lt_trans with 281474976710655%Z; [ lia | reflexivity ].
Qed.

(** C8: when the data has no [id], the event parsed by [RawEventSchema]
    carries the identifier that [ulid()] generates at the reading of the clock.
    It has 26 characters, its leading ten characters decode to the reading, and
    it is smaller, in the order of strings, than any identifier generated at a
    later reading. *)
Theorem RawEventSchema_default_id (engine : Engine) (now : Z) (prng : nat -> Z)
    (props : Props) (out : jsval) :
  (forall i, 0 <= prng i <= 32)%Z ->
  getProp "id" props = JUndefined ->
  RawEventSchema now prng (JObj props) = OK out ->
  exists o id,
    out = JObj o /\ getProp "id" o = JStr id
    /\ Ulid.ulid now prng = Some id
    /\ String.length id = 26
    /\ Ulid.decodeTime id = Some now
    /\ (forall later prng' id',
          Ulid.ulid later prng' = Some id' -> (now < later)%Z ->
          String.ltb id id' = true).
Proof.
  intros Hprng Habsent Hz. unfold RawEventSchema in Hz.
  apply z_object_OK in Hz; [ | distinct_keys ].
  destruct Hz as (props' & o & [= <-] & -> & Hfields & _).
  field Hfields "id" Hid. rewrite Habsent in Hid.
  apply z_default_ulid_OK in Hid. destruct Hid as (id & Hulid & Hid).
  exists o, id. repeat split; auto.
  - eapply ulid_length; eauto.
  - eapply ulid_decodeTime; eauto.
  - intros later prng' id' Hlater Hlt. eapply ulid_sorts_by_time; eauto.
Qed.

(** C8 at the event of the scenario, sent without an [id]. *)
Lemma RawEventSchema_default_id_witness :
  RawEventSchema (engine := Sample.engine) sampleClock samplePrng (JObj userCreatedSent)
  = OK (JObj userCreatedReceived)
  /\ exists o id,
       JObj userCreatedReceived = JObj o /\ getProp "id" o = JStr id
       /\ Ulid.ulid sampleClock samplePrng = Some id
       /\ String.length id = 26
       /\ Ulid.decodeTime id = Some sampleClock
       /\ (forall later prng' id',
             Ulid.ulid later prng' = Some id' -> (sampleClock < later)%Z ->
             String.ltb id id' = true).
Proof.
  split.
  - vm_compute. reflexivity.
  - apply (RawEventSchema_default_id Sample.engine sampleClock samplePrng
             userCreatedSent).
    + intros i. unfold samplePrng. pose proof (Nat.mod_upper_bound (7 * i + 3) 32). lia.
    + reflexivity.
    + vm_compute. reflexivity.
Defined.

(** ** Idempotent replay *)

(** The replay path: on a task completed with the same parameters, [runTask]
    answers with the cached output and leaves the state as it is; no side
    effect is invoked. *)
Lemma runTask_replay {Params Output Failure World : Type} `{EqDecision Params}
    (sideEffect : TaskLedger.SideEffect Output Failure World)
    (st : TaskLedger.State Params Output Failure World)
    (executionId idempotencyKey : string) (p : Params) (output : Output) :
  TaskLedger.ledger st !! (executionId, idempotencyKey)
  = Some (TaskLedger.mkTask p (TaskLedger.Completed output)) ->
  TaskLedger.runTask executionId idempotencyKey p sideEffect st
  = (TaskLedger.Succeeded output, st).
Proof.
  intros Hcached. unfold TaskLedger.runTask. rewrite Hcached. simpl.
  now rewrite decide_True.
Qed.

(** In every state of the ledger, a second call with the same key and
    parameters answers like the first and changes nothing: after the first
    call a task is under the key, so no side effect is invoked again. *)
Lemma runTask_repeat {Params Output Failure World : Type} `{EqDecision Params}
    (sideEffect again : TaskLedger.SideEffect Output Failure World)
    (st : TaskLedger.State Params Output Failure World)
    (executionId idempotencyKey : string) (p : Params) :
  TaskLedger.runTask executionId idempotencyKey p again
    (snd (TaskLedger.runTask executionId idempotencyKey p sideEffect st))
  = (fst (TaskLedger.runTask executionId idempotencyKey p sideEffect st),
     snd (TaskLedger.runTask executionId idempotencyKey p sideEffect st)).
Proof.
  unfold TaskLedger.runTask at 2 3 4.
  destruct (TaskLedger.ledger st !! (executionId, idempotencyKey))
    as [ task | ] eqn:Hkey.
  - destruct (decide (TaskLedger.params task = p)) as [ Hp | Hp ];
      [ destruct (TaskLedger.status task) eqn:Hs | ];
      cbn [fst snd]; unfold TaskLedger.runTask; rewrite Hkey;
      [ rewrite decide_True by assumption; now rewrite Hs ..
      | now rewrite decide_False by assumption ].
  - destruct (sideEffect (TaskLedger.world st)) as [ [ output | error ] world' ];
      cbn [fst snd]; unfold TaskLedger.runTask; cbn [TaskLedger.ledger];
      rewrite lookup_insert_eq; cbn [TaskLedger.params TaskLedger.status];
      now rewrite decide_True by reflexivity.
Qed.

(** C1: with no task yet under the key, two calls of [runTask] with the same
    key and parameters invoke a side effect exactly once, the one of the first
    call, and answer alike.  The second call changes nothing, neither the
    world nor the ledger; and when the first call succeeded, it left the task
    completed with these parameters and its output, which is what the second
    call returns. *)
Theorem runTask_idempotent_replay {Params Output Failure World : Type}
    `{EqDecision Params}
    (sideEffect again : TaskLedger.SideEffect Output Failure World)
    (st : TaskLedger.State Params Output Failure World)
    (executionId idempotencyKey : string) (p : Params) :
  TaskLedger.ledger st !! (executionId, idempotencyKey) = None ->
  let first := TaskLedger.runTask executionId idempotencyKey p sideEffect st in
  let second := TaskLedger.runTask executionId idempotencyKey p again (snd first) in
  TaskLedger.invoked (snd second)
  = (TaskLedger.invoked st ++ [(executionId, idempotencyKey)])%list
  /\ fst second = fst first
  /\ snd second = snd first
  /\ TaskLedger.world (snd first) = snd (sideEffect (TaskLedger.world st))
  /\ fst first = match fst (sideEffect (TaskLedger.world st)) with
                 | inl output => TaskLedger.Succeeded output
                 | inr error => TaskLedger.Failed error
                 end
  /\ (forall output,
        fst first = TaskLedger.Succeeded output ->
        TaskLedger.ledger (snd first) !! (executionId, idempotencyKey)
        = Some (TaskLedger.mkTask p (TaskLedger.Completed output))
        /\ fst second = TaskLedger.Succeeded output).
Proof.
  intros Hfresh. cbv zeta.
  destruct (TaskLedger.runTask executionId idempotencyKey p sideEffect st)
    as [ result st1 ] eqn:Hfirst.
  unfold TaskLedger.runTask in Hfirst. rewrite Hfresh in Hfirst.
  destruct (sideEffect (TaskLedger.world st)) as [ [ output | error ] world' ];
    injection Hfirst as <- <-; cbn [fst snd];
    unfold TaskLedger.runTask; cbn [TaskLedger.ledger];
    rewrite lookup_insert_eq; cbn [TaskLedger.params TaskLedger.status];
    rewrite decide_True by reflexivity;
    cbn [fst snd TaskLedger.invoked TaskLedger.world TaskLedger.ledger];
    repeat split; try discriminate; congruence.
Qed.

(** C1 on the scenario of the spec: the welcome email of execution [x1] is
    sent once, although the task is run twice. *)
Lemma runTask_idempotent_replay_witness :
  let first := TaskLedger.runTask "x1" "send-welcome-email" 42%Z sendEmail noEmailSent in
  let second :=
    TaskLedger.runTask "x1" "send-welcome-email" 42%Z sendEmail (snd first) in
  TaskLedger.ledger noEmailSent !! ("x1", "send-welcome-email") = None
  /\ TaskLedger.invoked (snd second) = [("x1", "send-welcome-email")]
  /\ fst second = fst first
  /\ snd second = snd first
  /\ TaskLedger.world (snd first) = 1
  /\ fst first = TaskLedger.Succeeded "sent"
  /\ (forall output,
        fst first = TaskLedger.Succeeded output ->
        TaskLedger.ledger (snd first) !! ("x1", "send-welcome-email")
        = Some (TaskLedger.mkTask 42%Z (TaskLedger.Completed output))
        /\ fst second = TaskLedger.Succeeded output).
Proof.
  split; [ reflexivity | ].
  apply (runTask_idempotent_replay sendEmail sendEmail noEmailSent
           "x1" "send-welcome-email" 42%Z).
  reflexivity.
Defined.

(** * Properties of the other schemas *)

(** ** What [z.object] builds *)

Lemma hasProp_app key (a b : Props) :
  hasProp key (a ++ b)%list = hasProp key a || hasProp key b.
Proof.
  induction a as [ | [k v] rest IH ]; simpl; auto.
  now rewrite IH, orb_assoc.
Qed.

Lemma getProp_app key (a b : Props) :
  getProp key (a ++ b)%list = if hasProp key a then getProp key a else getProp key b.
Proof.
  induction a as [ | [k v] rest IH ]; simpl; auto.
  destruct (String.eqb k key); simpl; auto.
Qed.

(** A valid merge leaves a clean status and had only valid pairs. *)
Lemma mergeObjectSync_all_OK pairs : forall dirty acc out,
  mergeObjectSync dirty acc pairs = OK out ->
  dirty = false /\ Forall (fun p => exists v, pair_value p = OK v) pairs.
Proof.
  induction pairs as [ | p rest IH ]; simpl; intros dirty acc out Hm.
  - destruct dirty; inversion Hm. auto.
  - destruct (pair_value p) as [ v | v | | e ] eqn:Hp; try discriminate;
      apply IH in Hm; destruct Hm as [Hd Hrest]; try discriminate.
    split; auto. constructor; eauto.
Qed.

(** The object a merge of valid pairs builds, for distinct keys that the
    object does not hold yet. *)
Lemma mergeObjectSync_assigned pairs : forall acc,
  NoDup (map pair_key pairs) ->
  (forall key, In key (map pair_key pairs) -> hasProp key acc = false) ->
  Forall (fun p => exists v, pair_value p = OK v) pairs ->
  mergeObjectSync false acc pairs = OK (JObj (acc ++ assigned pairs)%list).
Proof.
  induction pairs as [ | p rest IH ]; intros acc Hnd Hfresh Hall.
  - simpl. now rewrite app_nil_r.
  - inversion Hnd as [ | ? ? Hnotin Hnd' ]; subst.
    inversion Hall as [ | ? ? [v Hv] Hrest ]; subst.
    cbn [mergeObjectSync]. rewrite Hv. rewrite IH; auto.
    + do 2 f_equal. unfold assigned. cbn [flat_map]. rewrite Hv.
      assert (Hp : hasProp (pair_key p) acc = false) by (apply Hfresh; now left).
      unfold assignPair.
      destruct (String.eqb (pair_key p) "__proto__"); [ reflexivity | ].
      destruct v; try destruct (alwaysSet p); rewrite ?setProp_fresh by exact Hp;
        rewrite <- ?app_assoc; reflexivity.
    + intros key Hkey. rewrite hasProp_assignPair_ne.
      * apply Hfresh. now right.
      * intros Heq. subst key. contradiction.
Qed.

(** The output of a valid parse by [z.object], property by property: the
    keys of the shape in the order of the shape. *)
Lemma z_object_assigned shape props out :
  z_object shape (JObj props) = OK out ->
  NoDup (map fst shape) ->
  out = JObj (assigned (shapePairs shape props)).
Proof.
  unfold z_object. destruct (firstThrow _); try discriminate.
  intros Hm Hnd. pose proof (mergeObjectSync_all_OK _ _ _ _ Hm) as [_ Hall].
  rewrite mergeObjectSync_assigned in Hm; auto.
  - now injection Hm as <-.
  - now rewrite shapePairs_keys.
Qed.

Lemma z_object_built shape props :
  NoDup (map fst shape) ->
  (forall key schema, In (key, schema) shape ->
     exists v, schema (getProp key props) = OK v) ->
  z_object shape (JObj props) = OK (JObj (assigned (shapePairs shape props))).
Proof.
  intros Hnd Hall.
  destruct (z_object_valid shape props Hall) as (o & Ho).
  rewrite Ho. f_equal. now apply z_object_assigned.
Qed.

Lemma assigned_app (a b : list Pair) :
  assigned (a ++ b)%list = (assigned a ++ assigned b)%list.
Proof. unfold assigned. apply flat_map_app. Qed.

Lemma shapePairs_app (a b : Shape) props :
  shapePairs (a ++ b)%list props = (shapePairs a props ++ shapePairs b props)%list.
Proof. unfold shapePairs. apply map_app. Qed.

Lemma hasProp_assigned_notin key pairs :
  ~ In key (map pair_key pairs) -> hasProp key (assigned pairs) = false.
Proof.
  induction pairs as [ | p rest IH ]; intros Hnot; [ reflexivity | ].
  change (p :: rest) with ([p] ++ rest)%list. simpl in Hnot.
  rewrite assigned_app, hasProp_app, IH by tauto. rewrite orb_false_r.
  assert (Hne : String.eqb (pair_key p) key = false).
  { apply String.eqb_neq. tauto. }
  unfold assigned. cbn [flat_map]. rewrite app_nil_r.
  destruct (String.eqb (pair_key p) "__proto__"); auto.
  destruct (pair_value p) as [ v | v | | e ]; auto;
    destruct v; try destruct (alwaysSet p); simpl; rewrite ?Hne; auto.
Qed.

(** Whether the output of [z.object] has a key of the shape: when its value
    is defined, or the data had the key. *)
Lemma hasProp_assigned shape props key schema v :
  NoDup ("__proto__" :: map fst shape) -> In (key, schema) shape ->
  schema (getProp key props) = OK v ->
  hasProp key (assigned (shapePairs shape props))
  = match v with JUndefined => hasProp key props | _ => true end.
Proof.
  intros Hkeys. inversion Hkeys as [ | ? ? Hproto Hnd ]; subst. clear Hkeys.
  revert Hproto Hnd.
  induction shape as [ | [k s] rest IH ]; intros Hproto Hnd Hin Hv; [ contradiction | ].
  inversion Hnd as [ | ? ? Hnotin Hnd' ]; subst.
  assert (Hk : String.eqb k "__proto__" = false).
  { apply String.eqb_neq. intros Heq. apply Hproto. now left. }
  assert (Hrest : ~ In "__proto__" (map fst rest)) by (simpl in Hproto; tauto).
  change (shapePairs ((k, s) :: rest) props)
    with ([mkPair k (s (getProp k props)) (hasProp k props)] ++ shapePairs rest props)%list.
  rewrite assigned_app, hasProp_app.
  destruct Hin as [ [= -> ->] | Hin ].
  - rewrite (hasProp_assigned_notin key (shapePairs rest props))
      by now rewrite shapePairs_keys.
    rewrite orb_false_r. unfold assigned. cbn [flat_map pair_value pair_key alwaysSet].
    rewrite Hk, Hv, app_nil_r.
    destruct v; try destruct (hasProp key props); simpl;
      rewrite ?String.eqb_refl; reflexivity.
  - rewrite IH by auto.
    assert (Hne : String.eqb k key = false).
    { apply String.eqb_neq. intros ->. apply Hnotin.
      change key with (fst (key, schema)). now apply in_map. }
    replace (hasProp key (assigned [mkPair k (s (getProp k props)) (hasProp k props)]))
      with false; auto.
    unfold assigned. cbn [flat_map pair_value pair_key alwaysSet].
    rewrite Hk, app_nil_r.
    destruct (s (getProp k props)) as [ w | w | | e ]; auto;
      destruct w; try destruct (hasProp k props); simpl; rewrite ?Hne; auto.
Qed.

(** [z.object] looks at the keys of its shape only. *)
Lemma z_object_frame shape props props' :
  (forall key, In key (map fst shape) ->
     getProp key props = getProp key props' /\ hasProp key props = hasProp key props') ->
  z_object shape (JObj props) = z_object shape (JObj props').
Proof.
  intros Hsame. unfold z_object.
  assert (Hpairs : shapePairs shape props = shapePairs shape props').
  { unfold shapePairs. apply map_ext_in. intros [key schema] Hin.
    destruct (Hsame key) as [Hg Hh].
    - change key with (fst (key, schema)). now apply in_map.
    - simpl. now rewrite Hg, Hh. }
  now rewrite Hpairs.
Qed.

(** Two shapes with the same keys whose schemas agree on the properties of
    the data, where the first is valid: what the first makes of the data, the
    second makes too. *)
Lemma z_object_ext shape shape' props out :
  Forall2 (fun entry entry' : string * Schema =>
             fst entry = fst entry'
             /\ forall v, snd entry (getProp (fst entry) props) = OK v ->
                          snd entry' (getProp (fst entry) props) = OK v)
          shape shape' ->
  z_object shape (JObj props) = OK out ->
  z_object shape' (JObj props) = OK out.
Proof.
  intros Hagree Hz. unfold z_object in *.
  destruct (firstThrow (map pair_value (shapePairs shape props))); try discriminate.
  pose proof (mergeObjectSync_all_OK _ _ _ _ Hz) as [_ Hall].
  assert (Hpairs : shapePairs shape' props = shapePairs shape props).
  { clear Hz. induction Hagree as [ | [k s] [k' s'] rest rest' [Hk Hs] _ IH ]; auto.
    inversion Hall as [ | ? ? [v Hv] Hrest ]; subst. simpl in *. subst k'.
    rewrite (Hs v Hv), Hv. f_equal. now apply IH. }
  rewrite Hpairs, firstThrow_valid; auto.
  clear - Hall. induction Hall; constructor; auto.
Qed.

(** ** Schemas that accept what they return *)

Lemma z_string_idempotent : idempotent z_string.
Proof. intros data out Hz. apply z_string_OK in Hz. now destruct Hz as (s & -> & ->). Qed.

Lemma z_boolean_idempotent : idempotent z_boolean.
Proof. intros data out Hz. apply z_boolean_OK in Hz. now destruct Hz as (b & -> & ->). Qed.

Lemma z_string_check_idempotent check : idempotent (z_string_check check).
Proof.
  intros data out Hz. apply z_string_check_OK in Hz.
  destruct Hz as (s & -> & Hc & ->). simpl. now rewrite Hc.
Qed.

Lemma z_optional_idempotent inner : idempotent inner -> idempotent (z_optional inner).
Proof.
  intros Hi data out Hz. destruct out; try reflexivity;
    destruct data; simpl in *; try discriminate; eauto.
Qed.

Lemma z_nullable_idempotent inner : idempotent inner -> idempotent (z_nullable inner).
Proof.
  intros Hi data out Hz. destruct out; try reflexivity;
    destruct data; simpl in *; try discriminate; eauto.
Qed.

(** A string with a default: whatever the default, a returned string is
    returned again, and the default is not asked for. *)
Lemma z_default_string_idempotent defaultValue :
  idempotent (z_default defaultValue z_string).
Proof.
  intros data out Hz.
  assert (Hs : exists s, out = JStr s).
  { unfold z_default in Hz.
    destruct data; try destruct defaultValue as [ d | e ]; try discriminate;
      apply z_string_OK in Hz; destruct Hz as (text & _ & ->); eauto. }
  now destruct Hs as (s & ->).
Qed.

Lemma z_coerce_date_idempotent (engine : Engine) : idempotent z_coerce_date.
Proof.
  intros data out Hz. apply z_coerce_date_OK in Hz. now destruct Hz as (t & -> & _).
Qed.

Lemma mergeArray_fixed (element : Schema) values : forall acc,
  Forall (fun v => element v = OK v) values ->
  mergeArray false acc (map element values) = OK (JArr (rev acc ++ values)%list).
Proof.
  induction values as [ | v rest IH ]; simpl; intros acc Hall.
  - now rewrite app_nil_r.
  - inversion Hall as [ | ? ? Hv Hrest ]; subst. rewrite Hv, IH by auto.
    simpl. now rewrite <- app_assoc.
Qed.

Lemma z_array_fixed (element : Schema) values :
  Forall (fun v => element v = OK v) values ->
  z_array element (JArr values) = OK (JArr values).
Proof.
  intros Hall. unfold z_array. rewrite firstThrow_valid.
  - now apply mergeArray_fixed.
  - clear - Hall. induction Hall as [ | v rest Hv _ IH ]; simpl; constructor; eauto.
Qed.

Lemma z_array_idempotent element : idempotent element -> idempotent (z_array element).
Proof.
  intros Hi data out Hz. apply z_array_OK in Hz.
  destruct Hz as (items & values & -> & -> & Hall).
  apply z_array_fixed. induction Hall; constructor; eauto.
Qed.

(** A record whose keys are distinct, none of them [__proto__], and whose
    values are returned by the value schema as they are, none of them
    [undefined], is returned as it is. *)
Lemma z_record_fixed (valueType : Schema) (props : Props) :
  NoDup ("__proto__" :: map fst props) ->
  Forall (fun entry => valueType (snd entry) = OK (snd entry)
                       /\ snd entry <> JUndefined) props ->
  z_record valueType (JObj props) = OK (JObj props).
Proof.
  intros Hkeys Hall. inversion Hkeys as [ | ? ? Hproto Hnd ]; subst. clear Hkeys.
  unfold z_record.
  assert (Hvalid : Forall (fun p => exists v, pair_value p = OK v)
                     (map (fun entry : string * jsval =>
                             mkPair (fst entry) (valueType (snd entry)) false) props)).
  { clear Hnd Hproto.
    induction Hall as [ | e rest [He _] _ IH ]; simpl; constructor; eauto. }
  rewrite firstThrow_valid.
  - rewrite mergeObjectSync_assigned; auto.
    + do 2 f_equal. clear Hnd Hvalid.
      induction Hall as [ | [k v] rest [He Hd] _ IH ]; auto.
      assert (Hk : String.eqb k "__proto__" = false).
      { apply String.eqb_neq. intros Heq. apply Hproto. now left. }
      unfold assigned in *. simpl in *. rewrite Hk, He, IH by tauto.
      destruct v; auto. contradiction.
    + rewrite map_map. simpl. exact Hnd.
  - clear - Hvalid. induction Hvalid; simpl; constructor; auto.
Qed.

Lemma setProp_Forall (R : jsval -> Prop) key v (props : Props) :
  Forall (fun entry => R (snd entry)) props -> R v ->
  Forall (fun entry => R (snd entry)) (setProp key v props).
Proof.
  intros Hall Hv. induction Hall as [ | [k w] rest Hw Hrest IH ]; simpl.
  - constructor; auto.
  - destruct (String.eqb k key); constructor; simpl; auto.
Qed.

Lemma setProp_distinct key v (props : Props) :
  distinct (map fst props) = true -> distinct (map fst (setProp key v props)) = true.
Proof.
  intros Hd. rewrite setProp_keys. destruct (hasProp key props) eqn:Hhas; auto.
  apply distinct_snoc; auto. now rewrite <- hasProp_existsb.
Qed.

(** What a valid merge of the pairs of a record holds: distinct keys, none
    of them [__proto__], and values that the value schema returned, none of
    them [undefined]. *)
Lemma mergeRecord_kept (valueType : Schema) (R : jsval -> Prop) (props : Props) :
  forall dirty acc out,
  mergeObjectSync dirty acc
    (map (fun entry : string * jsval =>
            mkPair (fst entry) (valueType (snd entry)) false) props) = OK out ->
  Forall (fun entry => forall v, valueType (snd entry) = OK v -> R v) props ->
  distinct (map fst acc) = true ->
  hasProp "__proto__" acc = false ->
  Forall (fun entry => R (snd entry) /\ snd entry <> JUndefined) acc ->
  exists o, out = JObj o /\ distinct (map fst o) = true
            /\ hasProp "__proto__" o = false
            /\ Forall (fun entry => R (snd entry) /\ snd entry <> JUndefined) o.
Proof.
  induction props as [ | [k x] rest IH ]; simpl;
    intros dirty acc out Hm Hall Hd Hproto Hacc.
  - destruct dirty; inversion Hm. eauto.
  - inversion Hall as [ | ? ? Hx Hrest ]; subst. simpl in Hx.
    destruct (valueType x) as [ v | v | | e ] eqn:Hv; try discriminate.
    + unfold assignPair in Hm. cbn [pair_key alwaysSet] in Hm.
      destruct (String.eqb k "__proto__") eqn:Hk; [ eapply IH; eauto | ].
      apply String.eqb_neq in Hk.
      assert (Hset : forall w, w <> JUndefined -> R w ->
                hasProp "__proto__" (setProp k w acc) = false
                /\ Forall (fun entry => R (snd entry) /\ snd entry <> JUndefined)
                          (setProp k w acc)).
      { intros w Hw HR. split.
        - now rewrite hasProp_setProp_ne.
        - apply (setProp_Forall (fun u => R u /\ u <> JUndefined)); auto. }
      destruct v; [ eapply IH; eauto | .. ];
        (eapply IH; [ exact Hm | exact Hrest | now apply setProp_distinct
                    | apply Hset; [ discriminate | now apply Hx ]
                    | apply Hset; [ discriminate | now apply Hx ] ]).
    + apply mergeObjectSync_all_OK in Hm. destruct Hm as [Hm _]. discriminate.
Qed.

(** [DeserializedJsonSchema] accepts the value it returns and returns it
    again.  The value holds the own properties of what zod returns (see
    [assignPair]); the theorems that rest on this lemma are stated for data
    without a property [__proto__], for which zod returns objects of
    [jsval]. *)
Lemma DeserializedJsonSchema_idempotent : idempotent DeserializedJsonSchema.
Proof.
  intros data.
  induction data as [ | | b | n | s | items IH | props IH | t | d ] using jsval_ind;
    intros out Hz; try discriminate; try (injection Hz as <-; reflexivity).
  - cbn in Hz. destruct (is_nan n) eqn:E; try discriminate. injection Hz as <-.
    cbn. now rewrite E.
  - rewrite DeserializedJsonSchema_array in Hz. apply z_array_OK in Hz.
    destruct Hz as (items' & values & [= <-] & -> & Hall).
    rewrite DeserializedJsonSchema_array. apply z_array_fixed.
    clear - IH Hall. induction Hall as [ | x v xs vs Hx _ IHall ]; constructor;
      inversion IH; subst; auto.
  - rewrite DeserializedJsonSchema_object in Hz. unfold z_record in Hz.
    destruct (firstThrow _); try discriminate.
    apply (mergeRecord_kept _ (fun v => DeserializedJsonSchema v = OK v)) in Hz; auto.
    destruct Hz as (o & -> & Hd & Hproto & Ho).
    rewrite DeserializedJsonSchema_object. apply z_record_fixed.
    + apply ownKeys_NoDup; auto. now rewrite Hproto.
    + exact Ho.
Qed.

(** [z.object] accepts what it returns when the schemas of its shape do. *)
Lemma z_object_idempotent shape :
  NoDup ("__proto__" :: map fst shape) ->
  (forall key schema, In (key, schema) shape -> idempotent schema) ->
  idempotent (z_object shape).
Proof.
  intros Hkeys Hid data out Hz. pose proof Hz as Hz'.
  apply z_object_OK in Hz'; auto.
  destruct Hz' as (props & o & -> & -> & Hfields & _).
  assert (Hnd : NoDup (map fst shape)) by now inversion Hkeys.
  pose proof (z_object_assigned _ _ _ Hz Hnd) as Ho. injection Ho as Ho.
  rewrite z_object_built; auto.
  - do 2 f_equal. rewrite Ho at 2.
    assert (Hgen : forall part,
              (forall key schema, In (key, schema) part -> In (key, schema) shape) ->
              assigned (shapePairs part o) = assigned (shapePairs part props)).
    { induction part as [ | [k s] rest IH ]; intros Hpart; auto.
      change (shapePairs ((k, s) :: rest) o)
        with ([mkPair k (s (getProp k o)) (hasProp k o)] ++ shapePairs rest o)%list.
      change (shapePairs ((k, s) :: rest) props)
        with ([mkPair k (s (getProp k props)) (hasProp k props)]
                ++ shapePairs rest props)%list.
      rewrite !assigned_app, IH by (intros; apply Hpart; now right). f_equal.
      assert (Hin : In (k, s) shape) by (apply Hpart; now left).
      pose proof (Hfields k s Hin) as Hk.
      pose proof (Hid k s Hin _ _ Hk) as Hk'.
      pose proof (hasProp_assigned shape props k s _ Hkeys Hin Hk) as Hh.
      rewrite <- Ho in Hh.
      unfold assigned. cbn [flat_map pair_value pair_key alwaysSet].
      rewrite Hk, Hk'. destruct (getProp k o); auto. now rewrite Hh. }
    apply Hgen. auto.
  - intros key schema Hin. exists (getProp key o). eapply Hid; eauto.
Qed.

(** ** Raw events, parsed twice *)

(** X1: a raw event that [RawEventSchema] returned is accepted again and
    returned unchanged, at any reading of the clock and with any generator:
    its [id] stays, no new one is drawn.  This is for an event whose [payload]
    and [context] have no property named [__proto__]: for such a property zod
    may replace the prototype of the object it returns (see [assignPair]), and
    a second parse would walk the properties that object inherits. *)
Theorem RawEventSchema_reparse (engine : Engine) (now : Z) (prng : nat -> Z)
    (props : Props) (out : jsval) :
  noProtoKey (getProp "payload" props) = true ->
  noProtoKey (getProp "context" props) = true ->
  RawEventSchema now prng (JObj props) = OK out ->
  forall now' prng', RawEventSchema now' prng' out = OK out.
Proof.
  intros _ _ Hz now' prng'. remember (JObj props) as data eqn:Hdata. clear Hdata props.
  assert (Hagain : RawEventSchema now prng out = OK out).
  { revert data out Hz. unfold RawEventSchema.
    apply z_object_idempotent; [ distinct_keys | ].
    intros key schema Hin. simpl in Hin.
    repeat (destruct Hin as [ [= <- <-] | Hin ]);
      auto using z_default_string_idempotent, z_string_idempotent,
        DeserializedJsonSchema_idempotent, z_optional_idempotent,
        z_string_check_idempotent.
    contradiction. }
  unfold RawEventSchema in Hz. apply z_object_OK in Hz; [ | distinct_keys ].
  destruct Hz as (props & o & -> & -> & Hfields & _).
  field Hfields "id" Hid.
  assert (Hs : exists id, getProp "id" o = JStr id).
  { unfold z_default in Hid.
    destruct (getProp "id" props); try destruct (ulidDefault now prng);
      try discriminate; apply z_string_OK in Hid; destruct Hid as (id & _ & ->); eauto. }
  destruct Hs as (id & Hs).
  unfold RawEventSchema in *. eapply z_object_ext; [ | exact Hagain ].
  repeat (constructor; [ split; [ reflexivity | ] | ]); try constructor;
    cbn [fst snd]; auto.
  rewrite Hs. auto.
Qed.

(** X1 at the event of the scenario, sent without an [id]: what was parsed
    at one reading of the clock is parsed to itself at any other. *)
Lemma RawEventSchema_reparse_witness :
  noProtoKey (getProp "payload" userCreatedSent) = true
  /\ noProtoKey (getProp "context" userCreatedSent) = true
  /\ RawEventSchema (engine := Sample.engine) sampleClock samplePrng
       (JObj userCreatedSent) = OK (JObj userCreatedReceived)
  /\ forall now' prng',
       RawEventSchema (engine := Sample.engine) now' prng' (JObj userCreatedReceived)
       = OK (JObj userCreatedReceived).
Proof.
  split; [ reflexivity | ]. split; [ reflexivity | ]. split.
  - vm_compute. reflexivity.
  - apply (RawEventSchema_reparse Sample.engine sampleClock samplePrng
             userCreatedSent).
    + reflexivity.
    + reflexivity.
    + vm_compute. reflexivity.
Defined.

(** X2: a persisted event that [ApiEventLogSchema] returned is accepted again
    and returned unchanged: the dates it holds are kept as they are.  This is
    for an event whose [payload] and [context] have no property named
    [__proto__], as for a raw event. *)
Theorem ApiEventLogSchema_reparse (engine : Engine) (props : Props) (out : jsval) :
  noProtoKey (getProp "payload" props) = true ->
  noProtoKey (getProp "context" props) = true ->
  ApiEventLogSchema (JObj props) = OK out -> ApiEventLogSchema out = OK out.
Proof.
  intros _ _. remember (JObj props) as data eqn:Hdata. clear Hdata props.
  revert data out. unfold ApiEventLogSchema.
  apply z_object_idempotent; [ distinct_keys | ].
  intros key schema Hin. simpl in Hin.
  repeat (destruct Hin as [ [= <- <-] | Hin ]);
    auto using z_string_idempotent, DeserializedJsonSchema_idempotent,
      z_optional_idempotent, z_nullable_idempotent, z_coerce_date_idempotent.
  contradiction.
Qed.

(** X2 at the event of the scenario, with its timestamp. *)
Lemma ApiEventLogSchema_reparse_witness :
  noProtoKey (JObj [ ("id", num "42") ]) = true
  /\ ApiEventLogSchema (engine := Sample.engine) userCreatedLogged
     = OK userCreatedLoggedParsed
  /\ ApiEventLogSchema (engine := Sample.engine) userCreatedLoggedParsed
     = OK userCreatedLoggedParsed.
Proof.
  split; [ reflexivity | ]. split.
  - vm_compute. reflexivity.
  - apply (ApiEventLogSchema_reparse Sample.engine
             [ ("id", JStr "e1");
               ("name", JStr "user.created");
               ("source", JStr "trigger.dev");
               ("payload", JObj [ ("id", num "42") ]);
               ("timestamp", JStr "2023-01-01T00:00:00.000Z") ]).
    + reflexivity.
    + reflexivity.
    + vm_compute. reflexivity.
Defined.

(** X3: [RawEventSchema] requires [name] and [payload] only.  The parsed
    event always has a string [source]: [trigger.dev] when the data has none,
    the string of the data otherwise; and an [id] and a [name] that are
    strings, the ones of the data when it has them. *)
Theorem RawEventSchema_defaults (engine : Engine) (now : Z) (prng : nat -> Z)
    (data out : jsval) :
  RawEventSchema now prng data = OK out ->
  exists props o id name source,
    data = JObj props /\ out = JObj o
    /\ getProp "id" o = JStr id
    /\ getProp "name" o = JStr name /\ getProp "name" props = JStr name
    /\ getProp "source" o = JStr source
    /\ (getProp "source" props = JUndefined -> source = "trigger.dev")
    /\ (forall s, getProp "source" props = JStr s -> source = s)
    /\ (forall s, getProp "id" props = JStr s -> id = s)
    /\ getProp "payload" o <> JUndefined.
Proof.
  intros Hz. unfold RawEventSchema in Hz.
  apply z_object_OK in Hz; [ | distinct_keys ].
  destruct Hz as (props & o & -> & -> & Hfields & _).
  field Hfields "id" H1. field Hfields "name" H2. field Hfields "source" H3.
  field Hfields "payload" H4.
  apply z_string_OK in H2. destruct H2 as (name & Hname & H2).
  apply DeserializedJsonSchema_defined in H4.
  assert (Hid : exists id, getProp "id" o = JStr id
                           /\ forall s, getProp "id" props = JStr s -> id = s).
  { unfold z_default in H1.
    destruct (getProp "id" props); try destruct (ulidDefault now prng);
      try discriminate; apply z_string_OK in H1; destruct H1 as (id & Hd & ->);
      exists id; split; auto; intros s' Hs'; congruence. }
  assert (Hsource : exists source, getProp "source" o = JStr source
                      /\ (getProp "source" props = JUndefined -> source = "trigger.dev")
                      /\ forall s, getProp "source" props = JStr s -> source = s).
  { unfold z_default in H3.
    destruct (getProp "source" props); try discriminate;
      apply z_string_OK in H3; destruct H3 as (source & Hd & ->);
      exists source; repeat split; try discriminate; congruence. }
  destruct Hid as (id & Hid & Hgiven). destruct Hsource as (source & Hs & Hdef & Hkept).
  exists props, o, id, name, source. repeat split; auto.
Qed.

(** X3 at the event of the scenario, sent with a [name] and a [payload]. *)
Lemma RawEventSchema_defaults_witness :
  RawEventSchema (engine := Sample.engine) sampleClock samplePrng (JObj userCreatedSent)
  = OK (JObj userCreatedReceived)
  /\ exists props o id name source,
       JObj userCreatedSent = JObj props /\ JObj userCreatedReceived = JObj o
       /\ getProp "id" o = JStr id
       /\ getProp "name" o = JStr name /\ getProp "name" props = JStr name
       /\ getProp "source" o = JStr source
       /\ (getProp "source" props = JUndefined -> source = "trigger.dev")
       /\ (forall s, getProp "source" props = JStr s -> source = s)
       /\ (forall s, getProp "id" props = JStr s -> id = s)
       /\ getProp "payload" o <> JUndefined.
Proof.
  split.
  - vm_compute. reflexivity.
  - apply (RawEventSchema_defaults Sample.engine sampleClock samplePrng).
    vm_compute. reflexivity.
Defined.

(** ** Task requests: the three shapes *)

Lemma z_array_ext (s1 s2 : Schema) items out :
  Forall (fun x => forall v, s1 x = OK v -> s2 x = OK v) items ->
  z_array s1 (JArr items) = OK out -> z_array s2 (JArr items) = OK out.
Proof.
  intros Hagree Hz. pose proof Hz as Hz'. apply z_array_OK in Hz'.
  destruct Hz' as (items' & values & [= <-] & -> & Hall).
  assert (Hmap : map s2 items = map s1 items).
  { clear Hz. induction Hall as [ | x v xs vs Hx _ IH ]; auto.
    inversion Hagree as [ | ? ? Hx' Hxs' ]; subst. simpl.
    rewrite Hx, (Hx' v Hx). f_equal. auto. }
  unfold z_array in *. now rewrite Hmap.
Qed.

Lemma z_record_ext (s1 s2 : Schema) (props : Props) out :
  Forall (fun entry => forall v, s1 (snd entry) = OK v -> s2 (snd entry) = OK v) props ->
  z_record s1 (JObj props) = OK out -> z_record s2 (JObj props) = OK out.
Proof.
  intros Hagree Hz. unfold z_record in *.
  destruct (firstThrow _) eqn:Hthrow in Hz; try discriminate.
  pose proof (mergeObjectSync_all_OK _ _ _ _ Hz) as [_ Hall].
  assert (Hpairs : map (fun entry : string * jsval =>
                          mkPair (fst entry) (s2 (snd entry)) false) props
                   = map (fun entry : string * jsval =>
                            mkPair (fst entry) (s1 (snd entry)) false) props).
  { clear Hz Hthrow. induction Hagree as [ | [k x] rest Hx _ IH ]; auto.
    inversion Hall as [ | ? ? [v Hv] Hrest ]; subst. simpl in *.
    rewrite Hv, (Hx v Hv). f_equal. auto. }
  rewrite Hpairs, Hthrow. exact Hz.
Qed.

(** What [DeserializedJsonSchema] accepts, [SerializableJsonSchema] accepts
    too, with the same result. *)
Lemma DeserializedJsonSchema_serializable data : forall out,
  DeserializedJsonSchema data = OK out -> SerializableJsonSchema data = OK out.
Proof.
  induction data as [ | | b | n | s | items IH | props IH | t | d ] using jsval_ind;
    intros out Hz; try discriminate; try (injection Hz as <-; reflexivity).
  - cbn in Hz. destruct (is_nan n) eqn:E; try discriminate. injection Hz as <-.
    cbn. now rewrite E.
  - rewrite DeserializedJsonSchema_array in Hz. rewrite SerializableJsonSchema_array.
    eapply z_array_ext; eauto.
  - rewrite DeserializedJsonSchema_object in Hz. rewrite SerializableJsonSchema_object.
    eapply z_record_ext; eauto.
Qed.

(** X4: [RunTaskBodyOutputSchema] only narrows [RunTaskBodyInputSchema]: a
    task that passes the output schema passes the input schema, with the same
    result. *)
Theorem RunTaskBodyOutputSchema_narrows (engine : Engine)
    (DisplayElementSchema : Schema) (data out : jsval) :
  RunTaskBodyOutputSchema DisplayElementSchema data = OK out ->
  RunTaskBodyInputSchema DisplayElementSchema data = OK out.
Proof.
  intros Hz. pose proof Hz as Hz'. apply z_object_OK in Hz'; [ | distinct_keys ].
  destruct Hz' as (props & o & -> & -> & _).
  unfold RunTaskBodyInputSchema. eapply z_object_ext; [ | exact Hz ].
  cbn [RunTaskBodyOutputShape RunTaskBodyInputShape IOTaskShape shape_extend
       shapeSet fold_left fst snd String.eqb Ascii.eqb Bool.eqb].
  repeat (constructor; [ split; [ reflexivity | ] | ]); try constructor;
    cbn [fst snd]; auto.
  intros v. destruct (getProp "params" props); cbn [z_nullable z_optional]; auto;
    try (intros [= <-]; reflexivity); apply DeserializedJsonSchema_serializable.
Qed.

(** X4 at the task of the scenario. *)
Lemma RunTaskBodyOutputSchema_narrows_witness :
  RunTaskBodyOutputSchema (engine := Sample.engine) sampleDisplayElementSchema
    welcomeEmailTask = OK welcomeEmailTaskParsed
  /\ RunTaskBodyInputSchema (engine := Sample.engine) sampleDisplayElementSchema
       welcomeEmailTask = OK welcomeEmailTaskParsed.
Proof.
  split.
  - vm_compute. reflexivity.
  - apply (RunTaskBodyOutputSchema_narrows Sample.engine). vm_compute. reflexivity.
Defined.

(** X5: [RunTaskBodyInputSchema] is [IOTaskSchema] and one more key: a
    request that passes it passes [IOTaskSchema], and its parse is the parse by
    [IOTaskSchema] followed by the [idempotencyKey], a string. *)
Theorem RunTaskBodyInputSchema_extends (engine : Engine)
    (DisplayElementSchema : Schema) (data out : jsval) :
  RunTaskBodyInputSchema DisplayElementSchema data = OK out ->
  exists props o key,
    data = JObj props
    /\ IOTaskSchema DisplayElementSchema data = OK (JObj o)
    /\ getProp "idempotencyKey" props = JStr key
    /\ out = JObj (o ++ [ ("idempotencyKey", JStr key) ])%list.
Proof.
  intros Hz. pose proof Hz as Hz'. apply z_object_OK in Hz'; [ | distinct_keys ].
  destruct Hz' as (props & o & -> & -> & Hfields & _).
  field Hfields "idempotencyKey" Hkey.
  apply z_string_OK in Hkey. destruct Hkey as (key & Hkey & Hout).
  apply z_object_assigned in Hz; [ | distinct_keys ].
  change (RunTaskBodyInputShape DisplayElementSchema)
    with (IOTaskShape DisplayElementSchema ++ [ ("idempotencyKey", z_string) ])%list in Hz.
  rewrite shapePairs_app, assigned_app in Hz.
  exists props, (assigned (shapePairs (IOTaskShape DisplayElementSchema) props)), key.
  repeat split; auto.
  - apply z_object_built; [ distinct_keys | ].
    intros k schema Hin. exists (getProp k o). apply Hfields.
    change (RunTaskBodyInputShape DisplayElementSchema)
      with (IOTaskShape DisplayElementSchema ++ [ ("idempotencyKey", z_string) ])%list.
    apply in_or_app. now left.
  - rewrite Hz. do 2 f_equal. unfold assigned, shapePairs.
    cbn [map flat_map fst snd pair_value pair_key alwaysSet]. now rewrite Hkey.
Qed.

(** X5 at the task of the scenario. *)
Lemma RunTaskBodyInputSchema_extends_witness :
  RunTaskBodyInputSchema (engine := Sample.engine) sampleDisplayElementSchema
    welcomeEmailTask = OK welcomeEmailTaskParsed
  /\ exists props o key,
       welcomeEmailTask = JObj props
       /\ IOTaskSchema (engine := Sample.engine) sampleDisplayElementSchema
            welcomeEmailTask = OK (JObj o)
       /\ getProp "idempotencyKey" props = JStr key
       /\ welcomeEmailTaskParsed = JObj (o ++ [ ("idempotencyKey", JStr key) ])%list.
Proof.
  split.
  - vm_compute. reflexivity.
  - apply (RunTaskBodyInputSchema_extends Sample.engine). vm_compute. reflexivity.
Defined.

(** ** Registered sources and their updates *)

(** X6: a registered source is a valid update of a source: what passes
    [HttpEventSourceSchema] passes [UpdateHttpEventSourceBodySchema], which
    returns the same [connectionId], [secret], [data] and [active] and leaves
    out the [id] and the [url]. *)
Theorem HttpEventSourceSchema_is_an_update (engine : Engine) (data out : jsval) :
  HttpEventSourceSchema data = OK out ->
  exists props o o',
    data = JObj props /\ out = JObj o
    /\ UpdateHttpEventSourceBodySchema data = OK (JObj o')
    /\ (forall key, In key [ "connectionId"; "secret"; "data"; "active" ] ->
          getProp key o' = getProp key o)
    /\ hasProp "id" o' = false /\ hasProp "url" o' = false.
Proof.
  intros Hz. apply z_object_OK in Hz; [ | distinct_keys ].
  destruct Hz as (props & o & -> & -> & Hfields & _).
  field Hfields "connectionId" H1. field Hfields "secret" H2.
  field Hfields "data" H3. field Hfields "active" H4.
  assert (H4' : z_optional z_boolean (getProp "active" props)
                = OK (getProp "active" o)).
  { apply z_boolean_OK in H4. destruct H4 as (b & -> & ->). reflexivity. }
  destruct (z_object_valid UpdateHttpEventSourceBodyShape props) as (o' & Ho').
  { intros key schema Hin. simpl in Hin.
    repeat (destruct Hin as [ [= <- <-] | Hin ]); eauto. contradiction. }
  exists props, o, o'. repeat split; auto.
  - apply z_object_OK in Ho'; [ | distinct_keys ].
    destruct Ho' as (props' & o'' & [= <-] & [= <-] & Hfields' & _).
    field Hfields' "connectionId" G1. field Hfields' "secret" G2.
    field Hfields' "data" G3. field Hfields' "active" G4.
    intros key Hkey. simpl in Hkey.
    repeat (destruct Hkey as [ <- | Hkey ]); try contradiction; congruence.
  - apply z_object_OK in Ho'; [ | distinct_keys ].
    destruct Ho' as (props' & o'' & _ & [= <-] & _ & Hframe).
    apply Hframe. simpl. intuition discriminate.
  - apply z_object_OK in Ho'; [ | distinct_keys ].
    destruct Ho' as (props' & o'' & _ & [= <-] & _ & Hframe).
    apply Hframe. simpl. intuition discriminate.
Qed.

(** X6 at the source of the example. *)
Lemma HttpEventSourceSchema_is_an_update_witness :
  HttpEventSourceSchema (engine := Sample.engine) registeredSource
  = OK registeredSourceParsed
  /\ exists props o o',
       registeredSource = JObj props /\ registeredSourceParsed = JObj o
       /\ UpdateHttpEventSourceBodySchema registeredSource = OK (JObj o')
       /\ (forall key, In key [ "connectionId"; "secret"; "data"; "active" ] ->
             getProp key o' = getProp key o)
       /\ hasProp "id" o' = false /\ hasProp "url" o' = false.
Proof.
  split.
  - reflexivity.
  - apply (HttpEventSourceSchema_is_an_update Sample.engine). reflexivity.
Defined.

(** ** The JSON reader on what [JSON.stringify] writes *)

(** Reading back one quoted character. *)
Lemma readString_quoteChar (engine : Engine) (c : ascii) (tail : string) :
  readString (quoteChar c ++ tail)
  = match readString tail with
    | Some (body, rest) => Some (String c body, rest)
    | None => None
    end.
Proof. destruct c as [ [] [] [] [] [] [] [] [] ]; reflexivity. Qed.

(** Reading back a quoted string, up to its closing quote. *)
Lemma readString_quoteChars (engine : Engine) (s tail : string) :
  readString (quoteChars s ++ String dquote tail) = Some (s, tail).
Proof.
  induction s as [ | c s IH ]; [ reflexivity | ].
  cbn [quoteChars]. now rewrite string_app_assoc, readString_quoteChar, IH.
Qed.

(** A reader that did not run out of fuel returns the same with more. *)
Lemma parse_more_fuel (engine : Engine) (fuel : nat) :
  (forall more s, fuel <= more -> parseValue fuel s <> OutOfFuel ->
                  parseValue more s = parseValue fuel s)
  /\ (forall more s, fuel <= more -> parseElements fuel s <> OutOfFuel ->
                     parseElements more s = parseElements fuel s)
  /\ (forall more s, fuel <= more -> parseMembers fuel s <> OutOfFuel ->
                     parseMembers more s = parseMembers fuel s).
Proof.
  induction fuel as [ | fuel (IHv & IHe & IHm) ];
    [ repeat split; intros more s _ H; exfalso; apply H; reflexivity | ].
  repeat split; intros more s Hle;
    (destruct more as [ | more ]; [ lia | ]);
    assert (Hle' : fuel <= more) by lia; simpl;
    repeat (match goal with
            | |- context [parseValue fuel ?x] =>
                let E := fresh "E" in
                destruct (parseValue fuel x) eqn:E;
                [ rewrite (IHv more x Hle') by (rewrite E; discriminate); rewrite E
                | rewrite (IHv more x Hle') by (rewrite E; discriminate); rewrite E
                | ]
            | |- context [parseElements fuel ?x] =>
                let E := fresh "E" in
                destruct (parseElements fuel x) eqn:E;
                [ rewrite (IHe more x Hle') by (rewrite E; discriminate); rewrite E
                | rewrite (IHe more x Hle') by (rewrite E; discriminate); rewrite E
                | ]
            | |- context [parseMembers fuel ?x] =>
                let E := fresh "E" in
                destruct (parseMembers fuel x) eqn:E;
                [ rewrite (IHm more x Hle') by (rewrite E; discriminate); rewrite E
                | rewrite (IHm more x Hle') by (rewrite E; discriminate); rewrite E
                | ]
            | |- context [match ?x with _ => _ end] =>
                lazymatch x with
                | context [more] => fail
                | _ => destruct x eqn:?
                end
            end; cbv beta iota);
    intros Hfuel; first [ reflexivity | exfalso; apply Hfuel; reflexivity ].
Qed.

(** What the reader returns with some fuel, [JSON.parse] returns. *)
Lemma parseJSONText_Done (engine : Engine) (fuel : nat) (text : string) (value : jsval) :
  parseValue fuel text = Done value "" -> parseJSONText text = Returns value.
Proof.
  intros Hp. unfold parseJSONText.
  assert (Hsame : parseValue (2 * String.length text + 2) text = Done value "").
  { destruct (Nat.le_ge_cases fuel (2 * String.length text + 2)) as [ Hle | Hle ].
    - rewrite (proj1 (parse_more_fuel engine fuel)); auto. rewrite Hp. discriminate.
    - rewrite <- Hp. symmetry. apply (proj1 (parse_more_fuel engine _)); auto.
      apply parseJSONText_fuel. }
  now rewrite Hsame.
Qed.

Lemma parseValue_string (engine : Engine) (fuel : nat) (s rest body tail : string) :
  skipWhitespace s = String dquote rest ->
  readString rest = Some (body, tail) ->
  parseValue (S fuel) s = Done (JStr body) tail.
Proof. intros Hs Hr. simpl. rewrite Hs. simpl. now rewrite Hr. Qed.

Lemma parseValue_object (engine : Engine) (fuel : nat) (s rest tail : string) members :
  skipWhitespace s = String "{" rest ->
  stripPrefix "}" (skipWhitespace rest) = None ->
  parseMembers fuel rest = Done members tail ->
  parseValue (S fuel) s = Done (objectOf members) tail.
Proof. intros Hs Hb Hm. simpl. rewrite Hs. simpl. now rewrite Hb, Hm. Qed.

Lemma parseMembers_last (engine : Engine) (fuel : nat)
    (s rest name rest1 rest2 rest3 tail : string) (value : jsval) :
  stripPrefix (String dquote "") (skipWhitespace s) = Some rest ->
  readString rest = Some (name, rest1) ->
  stripPrefix ":" (skipWhitespace rest1) = Some rest2 ->
  parseValue fuel rest2 = Done value rest3 ->
  stripPrefix "," (skipWhitespace rest3) = None ->
  stripPrefix "}" (skipWhitespace rest3) = Some tail ->
  parseMembers (S fuel) s = Done [(name, value)] tail.
Proof. intros H1 H2 H3 H4 H5 H6. simpl. now rewrite H1, H2, H3, H4, H5, H6. Qed.

Lemma parseMembers_next (engine : Engine) (fuel : nat)
    (s rest name rest1 rest2 rest3 rest4 tail : string) (value : jsval) members :
  stripPrefix (String dquote "") (skipWhitespace s) = Some rest ->
  readString rest = Some (name, rest1) ->
  stripPrefix ":" (skipWhitespace rest1) = Some rest2 ->
  parseValue fuel rest2 = Done value rest3 ->
  stripPrefix "," (skipWhitespace rest3) = Some rest4 ->
  parseMembers fuel rest4 = Done members tail ->
  parseMembers (S fuel) s = Done ((name, value) :: members) tail.
Proof. intros H1 H2 H3 H4 H5 H6. simpl. now rewrite H1, H2, H3, H4, H5, H6. Qed.

(** The text of a member followed by more text, character by character. *)
Lemma memberText_app (header : string * string) (tail : string) :
  memberText header ++ tail
  = String dquote
      (quoteChars (fst header)
       ++ String dquote
            (String ":"
               (String dquote (quoteChars (snd header) ++ String dquote tail)))).
Proof.
  unfold memberText, QuoteJSONString.
  repeat (rewrite string_app_assoc || cbn [String.append]). reflexivity.
Qed.

(** Reading back the members of an object of strings. *)
Lemma parseMembers_headers (engine : Engine) (headers : list (string * string)) :
  forall fuel rest,
    headers <> [] -> List.length headers < fuel ->
    parseMembers fuel (joinWith "," (map memberText headers) ++ String "}" rest)
    = Done (map (fun header => (fst header, JStr (snd header))) headers) rest.
Proof.
  induction headers as [ | h rest' IH ]; intros fuel rest Hne Hfuel; [ contradiction | ].
  destruct fuel as [ | fuel ]; [ simpl in Hfuel; lia | ].
  destruct fuel as [ | fuel ]; [ simpl in Hfuel; lia | ].
  destruct rest' as [ | h' rest' ].
  - cbn [map joinWith]. rewrite memberText_app.
    eapply parseMembers_last;
      [ reflexivity | apply readString_quoteChars | reflexivity
      | eapply parseValue_string; [ reflexivity | apply readString_quoteChars ]
      | reflexivity | reflexivity ].
  - change (joinWith "," (map memberText (h :: h' :: rest')))
      with (memberText h ++ "," ++ joinWith "," (map memberText (h' :: rest'))).
    rewrite string_app_assoc, memberText_app.
    cbn [map]. eapply parseMembers_next;
      [ reflexivity | apply readString_quoteChars | reflexivity
      | eapply parseValue_string; [ reflexivity | apply readString_quoteChars ]
      | reflexivity | ].
    apply IH; [ discriminate | simpl in *; lia ].
Qed.

Lemma distinct_app_fresh (keys rest : list string) key :
  distinct (keys ++ key :: rest) = true -> existsb (String.eqb key) keys = false.
Proof.
  induction keys as [ | k keys IH ]; simpl; auto.
  intros Hd. apply andb_prop in Hd. destruct Hd as [Hk Hd].
  rewrite IH by auto. rewrite orb_false_r.
  apply negb_true_iff in Hk. rewrite existsb_app in Hk.
  apply orb_false_elim in Hk. destruct Hk as [_ Hk]. simpl in Hk.
  apply orb_false_elim in Hk. destruct Hk as [Hk _]. now rewrite String.eqb_sym.
Qed.

(** Members with distinct names make the object of these members. *)
Lemma objectOf_distinct (members : list (string * jsval)) :
  distinct (map fst members) = true -> objectOf members = JObj members.
Proof.
  unfold objectOf. intros Hd. f_equal.
  assert (Hgen : forall acc, distinct (map fst (acc ++ members)) = true ->
            fold_left (fun acc member => setProp (fst member) (snd member) acc)
              members acc = (acc ++ members)%list).
  { clear Hd. induction members as [ | [k v] rest IH ]; intros acc Hd.
    - now rewrite app_nil_r.
    - cbn [fold_left fst snd]. rewrite setProp_fresh.
      + rewrite IH; rewrite <- app_assoc; auto.
      + rewrite hasProp_existsb. rewrite map_app in Hd.
        eapply distinct_app_fresh. exact Hd. }
  now apply (Hgen []).
Qed.

(** What [JSON.stringify] writes for an object of strings. *)
Lemma JSON_stringify_headers (engine : Engine) (headers : list (string * string)) :
  JSON_stringify (headersObject headers)
  = JStr ("{" ++ joinWith "," (map memberText headers) ++ "}").
Proof.
  unfold JSON_stringify, headersObject. cbn [SerializeJSONProperty].
  assert (Hmap : flat_map
                   (fun entry : string * jsval =>
                      match SerializeJSONProperty (snd entry) with
                      | Some text => [QuoteJSONString (fst entry) ++ ":" ++ text]
                      | None => []
                      end)
                   (map (fun header : string * string =>
                           (fst header, JStr (snd header))) headers)
                 = map memberText headers).
  { induction headers as [ | h rest IH ]; auto.
    cbn [map flat_map snd fst SerializeJSONProperty app]. now rewrite IH. }
  now rewrite Hmap.
Qed.

(** [JSON.parse] reads back the object of strings that [JSON.stringify]
    wrote, when its names are distinct. *)
Lemma JSON_parse_stringify_headers (engine : Engine) (headers : list (string * string)) :
  distinct (map fst headers) = true ->
  JSON_parse (JSON_stringify (headersObject headers)) = Returns (headersObject headers).
Proof.
  intros Hd. rewrite JSON_stringify_headers.
  unfold JSON_parse. cbn [ToString].
  apply (parseJSONText_Done engine (S (S (List.length headers)))).
  destruct headers as [ | h rest ]; [ reflexivity | ].
  unfold headersObject. rewrite <- objectOf_distinct.
  - cbn [String.append].
    assert (Hfirst : exists tail,
              joinWith "," (map memberText (h :: rest)) ++ "}" = String dquote tail).
    { destruct rest as [ | h' rest ].
      - cbn [map joinWith]. rewrite memberText_app. eauto.
      - change (joinWith "," (map memberText (h :: h' :: rest)))
          with (memberText h ++ "," ++ joinWith "," (map memberText (h' :: rest))).
        rewrite string_app_assoc, memberText_app. eauto. }
    destruct Hfirst as (tail & Hfirst).
    eapply parseValue_object; [ reflexivity | rewrite Hfirst; reflexivity | ].
    apply parseMembers_headers; [ discriminate | lia ].
  - rewrite map_map. cbn [fst]. exact Hd.
Qed.

(** [z.record(z.string())] returns an object of strings with distinct names,
    none of them [__proto__], as it is. *)
Lemma z_record_string_headers (headers : list (string * string)) :
  distinct (map fst headers) = true ->
  noProtoKey (headersObject headers) = true ->
  z_record z_string (headersObject headers) = OK (headersObject headers).
Proof.
  intros Hd Hnp. unfold headersObject in *. apply z_record_fixed.
  - cbn [noProtoKey] in Hnp. apply andb_prop in Hnp. destruct Hnp as [Hproto _].
    apply ownKeys_NoDup; auto. rewrite map_map. cbn [fst]. exact Hd.
  - clear Hd Hnp. induction headers; simpl; constructor; auto.
Qed.

(** ** The headers of a request, without auth *)

Lemma firstThrow_skip (r : ParseReturn) (rest : list ParseReturn) :
  (forall e, r <> Throw e) -> firstThrow (r :: rest) = firstThrow rest.
Proof. destruct r; simpl; auto. intros H. now destruct (H e). Qed.

Lemma z_string_no_throw (data : jsval) (e : exn) : z_string data <> Throw e.
Proof. destruct data; discriminate. Qed.

(** Without [x-trigger-auth], or with an empty one, the transform does not
    call [ConnectionAuthSchema] and returns [undefined]. *)
Lemma x_trigger_auth_absent (ConnectionAuthSchema : Schema) (data : jsval) :
  ToBoolean data = false ->
  z_transform (z_optional z_string)
    (fun s => if ToBoolean s then parse ConnectionAuthSchema s else Returns JUndefined)
    data
  = match data with
    | JUndefined | JStr _ => OK JUndefined
    | _ => INVALID
    end.
Proof.
  intros Hb. destruct data; try reflexivity.
  cbn [z_transform z_optional z_string]. now rewrite Hb.
Qed.

Lemma mergeObjectSync_Throw pairs : forall dirty acc e,
  mergeObjectSync dirty acc pairs = Throw e ->
  firstThrow (map pair_value pairs) <> None.
Proof.
  induction pairs as [ | p rest IH ]; simpl; intros dirty acc e Hm.
  - destruct dirty; discriminate.
  - destruct (pair_value p); try discriminate; eauto.
Qed.

Lemma z_record_string_no_throw (data : jsval) (e : exn) :
  z_record z_string data <> Throw e.
Proof.
  destruct data as [ | | | | | | props | | ]; try discriminate.
  unfold z_record.
  assert (Hnone : firstThrow
                    (map pair_value
                       (map (fun entry : string * jsval =>
                               mkPair (fst entry) (z_string (snd entry)) false) props))
                  = None).
  { induction props as [ | [k v] rest IH ]; auto.
    cbn [map pair_value fst snd]. rewrite firstThrow_skip; auto using z_string_no_throw. }
  rewrite Hnone. intros Hm. apply mergeObjectSync_Throw in Hm. contradiction.
Qed.

(** X7: headers whose [x-trigger-auth] is missing or empty are parsed
    without [ConnectionAuthSchema]: the outcome is the same whatever that
    schema is, and the parsed headers carry no auth. *)
Theorem HttpSourceRequestHeadersSchema_without_auth (engine : Engine)
    (ConnectionAuthSchema : Schema) (props : Props) :
  ToBoolean (getProp "x-trigger-auth" props) = false ->
  (forall other : Schema,
     HttpSourceRequestHeadersSchema other (JObj props)
     = HttpSourceRequestHeadersSchema ConnectionAuthSchema (JObj props))
  /\ (forall out,
        HttpSourceRequestHeadersSchema ConnectionAuthSchema (JObj props) = OK out ->
        exists o, out = JObj o /\ getProp "x-trigger-auth" o = JUndefined).
Proof.
  intros Hb. split.
  - intros other. unfold HttpSourceRequestHeadersSchema, z_object, shapePairs.
    cbn [map fst snd]. now rewrite !x_trigger_auth_absent by exact Hb.
  - intros out Hz. unfold HttpSourceRequestHeadersSchema in Hz.
    apply z_object_OK in Hz; [ | distinct_keys ].
    destruct Hz as (props' & o & [= <-] & -> & Hfields & _).
    field Hfields "x-trigger-auth" Hauth.
    rewrite x_trigger_auth_absent in Hauth by exact Hb.
    exists o. split; auto.
    destruct (getProp "x-trigger-auth" props); try discriminate; congruence.
Qed.

(** X7 at the headers of the example, sent without [x-trigger-auth]. *)
Lemma HttpSourceRequestHeadersSchema_without_auth_witness :
  HttpSourceRequestHeadersSchema (engine := Sample.engine) sampleConnectionAuthSchema
    unsignedHeaders = OK unsignedHeadersParsed
  /\ getProp "x-trigger-auth" [ ("x-trigger-key", JStr "github.push");
                                ("x-trigger-url", JStr "https://example.com/hooks/src_1");
                                ("x-trigger-method", JStr "POST");
                                ("x-trigger-headers", forwardedHeaders) ] = JUndefined
  /\ forall other : Schema,
       HttpSourceRequestHeadersSchema (engine := Sample.engine) other unsignedHeaders
       = HttpSourceRequestHeadersSchema (engine := Sample.engine)
           sampleConnectionAuthSchema unsignedHeaders.
Proof.
  split; [ vm_compute; reflexivity | ]. split; [ reflexivity | ].
  apply (HttpSourceRequestHeadersSchema_without_auth Sample.engine
           sampleConnectionAuthSchema). reflexivity.
Defined.

(** X8: an [x-trigger-headers] that is no JSON text, or no object of strings,
    is not reported as a validation failure: the parse throws, a
    [SyntaxError] in the first case and a [ZodError] in the second, whatever
    the other headers are, even when required ones are missing. *)
Theorem x_trigger_headers_throws (engine : Engine) (ConnectionAuthSchema : Schema)
    (props : Props) (text : string) :
  ToBoolean (getProp "x-trigger-auth" props) = false ->
  getProp "x-trigger-headers" props = JStr text ->
  (parseJSONText text = Throws SyntaxError ->
   HttpSourceRequestHeadersSchema ConnectionAuthSchema (JObj props) = Throw SyntaxError)
  /\ (forall json,
        parseJSONText text = Returns json ->
        (forall out, z_record z_string json <> OK out) ->
        HttpSourceRequestHeadersSchema ConnectionAuthSchema (JObj props)
        = Throw ZodError).
Proof.
  intros Hb Hh.
  assert (Hthrow : forall e,
            (let! json := JSON_parse (JStr text) in parse (z_record z_string) json)
            = Throws e ->
            HttpSourceRequestHeadersSchema ConnectionAuthSchema (JObj props) = Throw e).
  { intros e He. unfold HttpSourceRequestHeadersSchema, z_object, shapePairs.
    cbn [map fst snd pair_value].
    rewrite firstThrow_skip by apply z_string_no_throw.
    rewrite firstThrow_skip
      by (rewrite x_trigger_auth_absent by exact Hb;
          destruct (getProp "x-trigger-auth" props); discriminate).
    rewrite !firstThrow_skip by apply z_string_no_throw.
    rewrite Hh. cbn [z_transform z_string]. now rewrite He. }
  split.
  - intros Hp. apply Hthrow. unfold JSON_parse. cbn [ToString]. now rewrite Hp.
  - intros json Hp Hno. apply Hthrow. unfold JSON_parse. cbn [ToString].
    rewrite Hp. cbn [andThen]. unfold parse.
    destruct (z_record z_string json) as [ v | v | | e ] eqn:Hr; auto.
    + now destruct (Hno v).
    + now apply z_record_string_no_throw in Hr.
Qed.

(** X8 at headers that carry nothing but a malformed [x-trigger-headers]. *)
Lemma x_trigger_headers_throws_witness :
  HttpSourceRequestHeadersSchema (engine := Sample.engine) sampleConnectionAuthSchema
    (JObj malformedHeaders) = Throw SyntaxError.
Proof.
  apply (proj1 (x_trigger_headers_throws Sample.engine sampleConnectionAuthSchema
                  malformedHeaders "content-type: application/json"
                  eq_refl eq_refl)).
  vm_compute. reflexivity.
Defined.

(** X9: the headers of the forwarded request survive their passage through
    [x-trigger-headers]: when the sender wrote them with [JSON.stringify], as
    an object of strings with distinct names, none of them [__proto__], the
    parsed [x-trigger-headers] is that same object.  (A header named
    [__proto__] is read by [JSON.parse] and lost in [z.record].) *)
Theorem x_trigger_headers_roundtrip (engine : Engine) (ConnectionAuthSchema : Schema)
    (props : Props) (headers : list (string * string)) (out : jsval) :
  distinct (map fst headers) = true ->
  noProtoKey (headersObject headers) = true ->
  getProp "x-trigger-headers" props = JSON_stringify (headersObject headers) ->
  HttpSourceRequestHeadersSchema ConnectionAuthSchema (JObj props) = OK out ->
  exists o, out = JObj o /\ getProp "x-trigger-headers" o = headersObject headers.
Proof.
  intros Hd Hnp Hh Hz. unfold HttpSourceRequestHeadersSchema in Hz.
  apply z_object_OK in Hz; [ | distinct_keys ].
  destruct Hz as (props' & o & [= <-] & -> & Hfields & _).
  field Hfields "x-trigger-headers" H. rewrite Hh in H.
  pose proof (JSON_parse_stringify_headers engine headers Hd) as Hparse.
  rewrite JSON_stringify_headers in H, Hparse.
  cbn [z_transform z_string] in H. rewrite Hparse in H.
  cbn [andThen] in H. unfold parse in H.
  rewrite z_record_string_headers in H by assumption.
  exists o. split; auto. congruence.
Qed.

(** X9 at the headers of the example. *)
Lemma x_trigger_headers_roundtrip_witness :
  noProtoKey (headersObject [ ("content-type", "application/json") ]) = true
  /\ HttpSourceRequestHeadersSchema (engine := Sample.engine) sampleConnectionAuthSchema
    unsignedHeaders = OK unsignedHeadersParsed
  /\ exists o, unsignedHeadersParsed = JObj o
               /\ getProp "x-trigger-headers" o
                  = headersObject [ ("content-type", "application/json") ].
Proof.
  split; [ reflexivity | ]. split; [ vm_compute; reflexivity | ].
  apply (x_trigger_headers_roundtrip Sample.engine sampleConnectionAuthSchema
           [ ("x-trigger-key", JStr "github.push");
             ("x-trigger-url", JStr "https://example.com/hooks/src_1");
             ("x-trigger-method", JStr "POST");
             ("x-trigger-headers",
               JSON_stringify (engine := Sample.engine) forwardedHeaders) ]
           [ ("content-type", "application/json") ]).
  - reflexivity.
  - reflexivity.
  - reflexivity.
  - vm_compute. reflexivity.
Defined.

(** ** Jobs *)

(** X10: every connection of a job parsed by [JobSchema] carries a boolean
    [usesLocalAuth]: [false] when the connection was declared without one, the
    declared boolean otherwise; and the connections keep their number and
    order. *)
Theorem JobSchema_usesLocalAuth (TriggerMetadataSchema ConnectionMetadataSchema : Schema)
    (data out : jsval) :
  JobSchema TriggerMetadataSchema ConnectionMetadataSchema data = OK out ->
  exists props o declared parsed,
    data = JObj props /\ out = JObj o
    /\ getProp "connections" props = JArr declared
    /\ getProp "connections" o = JArr parsed
    /\ Forall2 (fun connection result =>
                  exists c r key b,
                    connection = JObj c /\ result = JObj r
                    /\ getProp "key" r = JStr key
                    /\ getProp "usesLocalAuth" r = JBool b
                    /\ (getProp "usesLocalAuth" c = JUndefined -> b = false)
                    /\ (forall b', getProp "usesLocalAuth" c = JBool b' -> b = b'))
               declared parsed.
Proof.
  intros Hz. unfold JobSchema in Hz. apply z_object_OK in Hz; [ | distinct_keys ].
  destruct Hz as (props & o & -> & -> & Hfields & _).
  field Hfields "connections" Hc. apply z_array_OK in Hc.
  destruct Hc as (declared & parsed & Hdeclared & Hparsed & Hall).
  exists props, o, declared, parsed. repeat split; auto.
  clear - Hall. induction Hall as [ | connection result xs ys Hx _ IH ]; constructor; auto.
  apply z_object_OK in Hx; [ | distinct_keys ].
  destruct Hx as (c & r & -> & -> & Hfields & _).
  field Hfields "key" Hkey. field Hfields "usesLocalAuth" Hu.
  apply z_string_OK in Hkey. destruct Hkey as (key & _ & Hkey).
  apply z_default_false_OK in Hu. destruct Hu as (b & Hb & Habsent & Hgiven).
  exists c, r, key, b. repeat split; auto.
Qed.

(** X10 at a job with two connections, the first declared without
    [usesLocalAuth]. *)
Lemma JobSchema_usesLocalAuth_witness :
  JobSchema sampleTriggerMetadataSchema sampleConnectionMetadataSchema issueJob
  = OK issueJobParsed
  /\ exists props o declared parsed,
       issueJob = JObj props /\ issueJobParsed = JObj o
       /\ getProp "connections" props = JArr declared
       /\ getProp "connections" o = JArr parsed
       /\ Forall2 (fun connection result =>
                     exists c r key b,
                       connection = JObj c /\ result = JObj r
                       /\ getProp "key" r = JStr key
                       /\ getProp "usesLocalAuth" r = JBool b
                       /\ (getProp "usesLocalAuth" c = JUndefined -> b = false)
                       /\ (forall b', getProp "usesLocalAuth" c = JBool b' -> b = b'))
                  declared parsed.
Proof.
  split.
  - reflexivity.
  - apply (JobSchema_usesLocalAuth sampleTriggerMetadataSchema
             sampleConnectionMetadataSchema).
    reflexivity.
Defined.

(** ** Sending events *)

Lemma z_number_int_OK data out :
  z_number_int data = OK out <->
  exists n, data = JNum n /\ isInteger n = true /\ out = JNum n.
Proof.
  split.
  - destruct data as [ | | | n | | | | | ]; simpl; try discriminate.
    destruct (is_nan n); try discriminate.
    destruct (isInteger n) eqn:E; try discriminate. intros [= <-]. eauto.
  - intros (n & -> & E & ->). simpl. rewrite E. now destruct n.
Qed.

(** X11: the options of a send are accepted exactly when [deliverAt], if
    given, is a datetime string and [deliverAfter], if given, is an integral
    number: a fraction, an infinity or [NaN] is refused.  The two options do
    not exclude each other. *)
Theorem SendEventOptionsSchema_accepts (engine : Engine) (data : jsval) :
  (exists out, SendEventOptionsSchema data = OK out) <->
  exists props,
    data = JObj props
    /\ (getProp "deliverAt" props = JUndefined
        \/ exists s, getProp "deliverAt" props = JStr s /\ isDatetime s = true)
    /\ (getProp "deliverAfter" props = JUndefined
        \/ exists n, getProp "deliverAfter" props = JNum n /\ isInteger n = true).
Proof.
  split.
  - intros (out & Hz). apply z_object_OK in Hz; [ | distinct_keys ].
    destruct Hz as (props & o & -> & -> & Hfields & _).
    field Hfields "deliverAt" H1. field Hfields "deliverAfter" H2.
    exists props. repeat split.
    + destruct (getProp "deliverAt" props) eqn:E; auto;
        cbn [z_optional] in H1; apply z_string_check_OK in H1;
        destruct H1 as (s' & [= <-] & Hc & _); eauto.
    + destruct (getProp "deliverAfter" props) eqn:E; auto;
        cbn [z_optional] in H2; apply z_number_int_OK in H2;
        destruct H2 as (n' & [= <-] & Hc & _); eauto.
  - intros (props & -> & H1 & H2).
    destruct (z_object_valid
                [ ("deliverAt", z_optional (z_string_check isDatetime));
                  ("deliverAfter", z_optional z_number_int) ] props) as (o & Ho); eauto.
    intros key schema Hin. simpl in Hin.
    repeat (destruct Hin as [ [= <- <-] | Hin ]); try contradiction.
    + destruct H1 as [ -> | (s & -> & Hs) ]; [ now eexists | ].
      exists (JStr s). cbn [z_optional]. apply z_string_check_OK. eauto.
    + destruct H2 as [ -> | (n & -> & Hn) ]; [ now eexists | ].
      exists (JNum n). cbn [z_optional]. apply z_number_int_OK. eauto.
Qed.



(** ** Dispatching a run *)

(** X13: a dispatch accepted by [ExecuteJobBodySchema] carries a persisted
    event, so its event has a valid date as [timestamp]; the [startedAt] of its
    context is coerced to a valid date as well; [tasks] and [connections] may
    be missing, and then stay missing. *)
Theorem ExecuteJobBodySchema_dates (engine : Engine)
    (ConnectionAuthSchema CachedTaskSchema : Schema) (data out : jsval) :
  ExecuteJobBodySchema ConnectionAuthSchema CachedTaskSchema data = OK out ->
  exists props o event context timestamp startedAt,
    data = JObj props /\ out = JObj o
    /\ ApiEventLogSchema (getProp "event" props) = OK (JObj event)
    /\ getProp "event" o = JObj event
    /\ getProp "timestamp" event = JDate (Some timestamp)
    /\ getProp "context" o = JObj context
    /\ getProp "startedAt" context = JDate (Some startedAt)
    /\ (getProp "tasks" props = JUndefined -> getProp "tasks" o = JUndefined)
    /\ (getProp "connections" props = JUndefined ->
        getProp "connections" o = JUndefined).
Proof.
  intros Hz. unfold ExecuteJobBodySchema in Hz.
  apply z_object_OK in Hz; [ | distinct_keys ].
  destruct Hz as (props & o & -> & -> & Hfields & _).
  field Hfields "event" He. field Hfields "context" Hc.
  field Hfields "tasks" Ht. field Hfields "connections" Hn.
  pose proof He as He'. unfold ApiEventLogSchema in He'.
  apply z_object_OK in He'; [ | distinct_keys ].
  destruct He' as (eprops & event & _ & Hevent & Hf & _).
  field Hf "timestamp" Hts. apply z_coerce_date_OK in Hts.
  destruct Hts as (timestamp & Hts & _).
  apply z_object_OK in Hc; [ | distinct_keys ].
  destruct Hc as (cprops & context & _ & Hcontext & Hg & _).
  field Hg "startedAt" Hs. apply z_coerce_date_OK in Hs.
  destruct Hs as (startedAt & Hs & _).
  exists props, o, event, context, timestamp, startedAt.
  rewrite Hevent in He. repeat split; auto.
  - intros Habsent. rewrite Habsent in Ht. now injection Ht as <-.
  - intros Habsent. rewrite Habsent in Hn. now injection Hn as <-.
Qed.

(** X13 at the dispatch of a run for the event of the scenario. *)
Lemma ExecuteJobBodySchema_dates_witness :
  ExecuteJobBodySchema (engine := Sample.engine) sampleConnectionAuthSchema
    sampleTaskSchema dispatchedRun = OK dispatchedRunParsed
  /\ exists props o event context timestamp startedAt,
       dispatchedRun = JObj props /\ dispatchedRunParsed = JObj o
       /\ ApiEventLogSchema (engine := Sample.engine) (getProp "event" props)
          = OK (JObj event)
       /\ getProp "event" o = JObj event
       /\ getProp "timestamp" event = JDate (Some timestamp)
       /\ getProp "context" o = JObj context
       /\ getProp "startedAt" context = JDate (Some startedAt)
       /\ (getProp "tasks" props = JUndefined -> getProp "tasks" o = JUndefined)
       /\ (getProp "connections" props = JUndefined ->
           getProp "connections" o = JUndefined).
Proof.
  split.
  - vm_compute. reflexivity.
  - apply (ExecuteJobBodySchema_dates Sample.engine sampleConnectionAuthSchema
             sampleTaskSchema).
    vm_compute. reflexivity.
Defined.

(** ** Records *)

(** [z.record] accepts exactly the objects whose every value passes the
    value schema. *)
Lemma z_record_accepts (valueType : Schema) (data : jsval) :
  (exists out, z_record valueType data = OK out) <->
  exists props, data = JObj props
                /\ Forall (fun entry => exists v, valueType (snd entry) = OK v) props.
Proof.
  split.
  - intros (out & Hz). destruct data as [ | | | | | | props | | ]; try discriminate.
    exists props. split; auto. unfold z_record in Hz.
    destruct (firstThrow _); try discriminate.
    apply mergeObjectSync_all_OK in Hz. destruct Hz as [_ Hall].
    clear - Hall. induction props as [ | e rest IH ]; constructor;
      inversion Hall; subst; auto.
  - intros (props & -> & Hall). unfold z_record.
    assert (Hvalid : Forall (fun r => exists v, r = OK v)
                       (map pair_value
                          (map (fun entry : string * jsval =>
                                  mkPair (fst entry) (valueType (snd entry)) false)
                               props))).
    { clear - Hall. induction Hall; simpl; constructor; auto. }
    rewrite (firstThrow_valid _ Hvalid).
    destruct (mergeObjectSync_valid _ [] Hvalid) as (o & Ho). eauto.
Qed.

Lemma z_record_string_accepts (data : jsval) :
  (exists out, z_record z_string data = OK out) <->
  exists props, data = JObj props
                /\ Forall (fun entry => exists s, snd entry = JStr s) props.
Proof.
  rewrite z_record_accepts. split; intros (props & -> & Hall); exists props;
    split; auto; clear - Hall; induction Hall as [ | e rest He _ IH ];
    constructor; auto.
  - destruct He as (v & Hv). apply z_string_OK in Hv. destruct Hv as (s & -> & _). eauto.
  - destruct He as (s & ->). eexists. reflexivity.
Qed.

(** ** Logs and pings *)

Lemma z_enum_OK values data out :
  z_enum values data = OK out <->
  exists s, data = JStr s /\ In s values /\ out = JStr s.
Proof.
  split.
  - destruct data as [ | | | | s | | | | ]; simpl; try discriminate.
    destruct (existsb (String.eqb s) values) eqn:E; try discriminate.
    intros [= <-]. apply existsb_exists in E. destruct E as (x & Hin & Hx).
    apply String.eqb_eq in Hx. subst x. eauto.
  - intros (s & -> & Hin & ->). simpl.
    assert (E : existsb (String.eqb s) values = true).
    { apply existsb_exists. exists s. split; auto. apply String.eqb_refl. }
    now rewrite E.
Qed.

(** X14: a log message is accepted exactly when its [level] is one of
    [DEBUG], [INFO], [WARN] and [ERROR], written so, its [message] is a string
    and its [data], if given, can be serialized. *)
Theorem LogMessageSchema_accepts (data : jsval) :
  (exists out, LogMessageSchema data = OK out) <->
  exists props level message,
    data = JObj props
    /\ getProp "level" props = JStr level
    /\ In level [ "DEBUG"; "INFO"; "WARN"; "ERROR" ]
    /\ getProp "message" props = JStr message
    /\ (getProp "data" props = JUndefined
        \/ exists v, SerializableJsonSchema (getProp "data" props) = OK v).
Proof.
  split.
  - intros (out & Hz). apply z_object_OK in Hz; [ | distinct_keys ].
    destruct Hz as (props & o & -> & -> & Hfields & _).
    field Hfields "level" H1. field Hfields "message" H2. field Hfields "data" H3.
    apply z_enum_OK in H1. destruct H1 as (level & Hlevel & Hin & _).
    apply z_string_OK in H2. destruct H2 as (message & Hmessage & _).
    exists props, level, message. repeat split; auto.
    destruct (getProp "data" props) eqn:E; auto; right; eexists; exact H3.
  - intros (props & level & message & -> & Hlevel & Hin & Hmessage & Hdata).
    destruct (z_object_valid
                [ ("level", z_enum [ "DEBUG"; "INFO"; "WARN"; "ERROR" ]);
                  ("message", z_string);
                  ("data", z_optional SerializableJsonSchema) ] props) as (o & Ho); eauto.
    intros key schema Hk. simpl in Hk.
    repeat (destruct Hk as [ [= <- <-] | Hk ]); try contradiction.
    + exists (JStr level). apply z_enum_OK. eauto.
    + exists (JStr message). apply z_string_OK. eauto.
    + destruct Hdata as [ -> | (v & Hv) ]; [ now eexists | ].
      exists v. destruct (getProp "data" props); auto.
Qed.

(** X15: the answer to a ping is accepted exactly when its [message] is the
    string [PONG], and what is returned is that one property: any other
    property of the answer is dropped. *)
Theorem PongResponseSchema_accepts (data out : jsval) :
  PongResponseSchema data = OK out <->
  exists props,
    data = JObj props /\ getProp "message" props = JStr "PONG"
    /\ out = JObj [ ("message", JStr "PONG") ].
Proof.
  assert (Hlit : forall v w, z_literal_string "PONG" v = OK w ->
                             v = JStr "PONG" /\ w = JStr "PONG").
  { intros v w. destruct v as [ | | | | s | | | | ]; simpl; try discriminate.
    destruct (String.eqb s "PONG") eqn:E; try discriminate.
    apply String.eqb_eq in E. subst s. intros [= <-]. auto. }
  split.
  - intros Hz. pose proof Hz as Hz'. apply z_object_OK in Hz'; [ | distinct_keys ].
    destruct Hz' as (props & o & -> & -> & Hfields & _).
    field Hfields "message" H1. apply Hlit in H1. destruct H1 as [Hm _].
    exists props. repeat split; auto.
    apply z_object_assigned in Hz; [ | distinct_keys ]. rewrite Hz.
    unfold assigned, shapePairs. cbn [map flat_map fst snd pair_value pair_key alwaysSet].
    now rewrite Hm.
  - intros (props & -> & Hm & ->). unfold PongResponseSchema.
    rewrite z_object_built; [ | distinct_keys | ].
    + unfold assigned, shapePairs.
      cbn [map flat_map fst snd pair_value pair_key alwaysSet]. now rewrite Hm.
    + intros key schema Hk. simpl in Hk.
      destruct Hk as [ [= <- <-] | [] ]. rewrite Hm. now eexists.
Qed.

(** ** Normalized requests and responses *)

(** X16: a normalized request is accepted exactly when its [headers] and
    its [query] are objects of strings and its [method] and [url] are strings;
    the [url] need not be a URL, and the [body] can be anything, even missing.
    The parsed request holds the body as it was. *)
Theorem NormalizedRequestSchema_accepts (data : jsval) :
  ((exists out, NormalizedRequestSchema data = OK out) <->
   exists props headers query method url,
     data = JObj props
     /\ getProp "headers" props = JObj headers
     /\ Forall (fun entry => exists s, snd entry = JStr s) headers
     /\ getProp "query" props = JObj query
     /\ Forall (fun entry => exists s, snd entry = JStr s) query
     /\ getProp "method" props = JStr method
     /\ getProp "url" props = JStr url)
  /\ (forall props out,
        data = JObj props -> NormalizedRequestSchema data = OK out ->
        exists o, out = JObj o /\ getProp "body" o = getProp "body" props).
Proof.
  split; [ split | ].
  - intros (out & Hz). apply z_object_OK in Hz; [ | distinct_keys ].
    destruct Hz as (props & o & -> & -> & Hfields & _).
    field Hfields "headers" H1. field Hfields "method" H2.
    field Hfields "query" H3. field Hfields "url" H4.
    apply z_string_OK in H2. destruct H2 as (method & Hmethod & _).
    apply z_string_OK in H4. destruct H4 as (url & Hurl & _).
    destruct (proj1 (z_record_string_accepts _) (ex_intro _ _ H1))
      as (headers & Hheaders & Hh).
    destruct (proj1 (z_record_string_accepts _) (ex_intro _ _ H3))
      as (query & Hquery & Hq).
    exists props, headers, query, method, url. repeat split; auto.
  - intros (props & headers & query & method & url
            & -> & Hheaders & Hh & Hquery & Hq & Hmethod & Hurl).
    destruct (z_object_valid
                [ ("headers", z_record z_string);
                  ("method", z_string);
                  ("query", z_record z_string);
                  ("url", z_string);
                  ("body", z_any) ] props) as (o & Ho); eauto.
    intros key schema Hk. simpl in Hk.
    repeat (destruct Hk as [ [= <- <-] | Hk ]); try contradiction.
    + rewrite Hheaders. apply z_record_string_accepts. eauto.
    + rewrite Hmethod. now eexists.
    + rewrite Hquery. apply z_record_string_accepts. eauto.
    + rewrite Hurl. now eexists.
    + now eexists.
  - intros props out -> Hz. apply z_object_OK in Hz; [ | distinct_keys ].
    destruct Hz as (props' & o & [= <-] & -> & Hfields & _).
    field Hfields "body" H5. exists o. split; auto.
    unfold z_any in H5. congruence.
Qed.

(** X17: a normalized response is accepted exactly when its [status] is a
    number other than [NaN], with no bound and no need of being integral, and
    its [headers], if given, are an object of strings; the [body] can be
    anything. *)
Theorem NormalizedResponseSchema_accepts (data : jsval) :
  (exists out, NormalizedResponseSchema data = OK out) <->
  exists props status,
    data = JObj props
    /\ getProp "status" props = JNum status /\ is_nan status = false
    /\ (getProp "headers" props = JUndefined
        \/ exists headers,
             getProp "headers" props = JObj headers
             /\ Forall (fun entry => exists s, snd entry = JStr s) headers).
Proof.
  split.
  - intros (out & Hz). apply z_object_OK in Hz; [ | distinct_keys ].
    destruct Hz as (props & o & -> & -> & Hfields & _).
    field Hfields "status" H1. field Hfields "headers" H3.
    assert (Hstatus : exists n, getProp "status" props = JNum n /\ is_nan n = false).
    { destruct (getProp "status" props) as [ | | | n | | | | | ]; try discriminate.
      simpl in H1. destruct (is_nan n) eqn:E; try discriminate. eauto. }
    destruct Hstatus as (status & Hstatus & Hnan).
    exists props, status. repeat split; auto.
    destruct (getProp "headers" props) eqn:E; auto; right; cbn [z_optional] in H3;
      destruct (proj1 (z_record_string_accepts _) (ex_intro _ _ H3))
        as (headers & Hheaders & Hh); try discriminate.
    injection Hheaders as <-. eauto.
  - intros (props & status & -> & Hstatus & Hnan & Hheaders).
    destruct (z_object_valid
                [ ("status", z_number);
                  ("body", z_any);
                  ("headers", z_optional (z_record z_string)) ] props) as (o & Ho); eauto.
    intros key schema Hk. simpl in Hk.
    repeat (destruct Hk as [ [= <- <-] | Hk ]); try contradiction.
    + rewrite Hstatus. simpl. rewrite Hnan. now eexists.
    + now eexists.
    + destruct Hheaders as [ -> | (headers & -> & Hh) ]; [ now eexists | ].
      cbn [z_optional]. apply z_record_string_accepts. eauto.
Qed.

(** ** Preparing a job *)

(** X18: a request to prepare a job is accepted exactly when its [id] and
    [version] are strings and its [connections] are an object whose every value
    passes [ConnectionAuthSchema]; unlike in the dispatch of a run, the
    connections cannot be left out. *)
Theorem PrepareForJobExecutionBodySchema_accepts (ConnectionAuthSchema : Schema)
    (data : jsval) :
  (exists out, PrepareForJobExecutionBodySchema ConnectionAuthSchema data = OK out) <->
  exists props id version connections,
    data = JObj props
    /\ getProp "id" props = JStr id
    /\ getProp "version" props = JStr version
    /\ getProp "connections" props = JObj connections
    /\ Forall (fun entry => exists v, ConnectionAuthSchema (snd entry) = OK v)
              connections.
Proof.
  split.
  - intros (out & Hz). unfold PrepareForJobExecutionBodySchema in Hz.
    apply z_object_OK in Hz; [ | distinct_keys ].
    destruct Hz as (props & o & -> & -> & Hfields & _).
    field Hfields "id" H1. field Hfields "version" H2. field Hfields "connections" H3.
    apply z_string_OK in H1. destruct H1 as (id & Hid & _).
    apply z_string_OK in H2. destruct H2 as (version & Hversion & _).
    destruct (proj1 (z_record_accepts _ _) (ex_intro _ _ H3))
      as (connections & Hconnections & Hall).
    exists props, id, version, connections. repeat split; auto.
  - intros (props & id & version & connections
            & -> & Hid & Hversion & Hconnections & Hall).
    destruct (z_object_valid
                [ ("id", z_string);
                  ("version", z_string);
                  ("connections", z_record ConnectionAuthSchema) ] props)
      as (o & Ho); eauto.
    intros key schema Hk. simpl in Hk.
    repeat (destruct Hk as [ [= <- <-] | Hk ]); try contradiction.
    + rewrite Hid. now eexists.
    + rewrite Hversion. now eexists.
    + rewrite Hconnections. apply z_record_accepts. eauto.
Qed.

(** ** Completing a task: the keys that count *)

(** X19: [CompleteTaskBodyInputSchema] looks at [elements], [description],
    [params] and [output] only: two bodies that agree on these four keys are
    parsed alike, whatever else they hold, be it a [name], a [noop] or an
    [idempotencyKey] that the task schemas would refuse. *)
Theorem CompleteTaskBodyInputSchema_keys (engine : Engine)
    (DisplayElementSchema : Schema) (props props' : Props) :
  (forall key, In key [ "elements"; "description"; "params"; "output" ] ->
     getProp key props = getProp key props'
     /\ hasProp key props = hasProp key props') ->
  CompleteTaskBodyInputSchema DisplayElementSchema (JObj props)
  = CompleteTaskBodyInputSchema DisplayElementSchema (JObj props').
Proof.
  intros Hsame. apply z_object_frame. exact Hsame.
Qed.

(** X19 at the completion of the scenario, sent with and without the keys of
    the task request. *)
Lemma CompleteTaskBodyInputSchema_keys_witness :
  CompleteTaskBodyInputSchema (engine := Sample.engine) sampleDisplayElementSchema
    (JObj completionWithName)
  = CompleteTaskBodyInputSchema (engine := Sample.engine) sampleDisplayElementSchema
      completion.
Proof.
  apply (CompleteTaskBodyInputSchema_keys Sample.engine sampleDisplayElementSchema
           completionWithName
           [ ("output", emailSent); ("params", JObj [ ("to", num "42") ]) ]).
  intros key Hin. simpl in Hin.
  repeat (destruct Hin as [ <- | Hin ]); try contradiction; split; reflexivity.
Defined.

(** ** Updates of a source that change nothing *)

Lemma hasProp_false_getProp key (props : Props) :
  hasProp key props = false -> getProp key props = JUndefined.
Proof.
  induction props as [ | [k v] rest IH ]; simpl; auto.
  destruct (String.eqb k key); simpl; auto. discriminate.
Qed.

(** X20: every key of an update is optional, and keys outside its shape are
    dropped without an error: an update that has none of [connectionId],
    [secret], [data] and [active] is accepted and parsed to the empty object,
    whatever [key], [id] or [url] it tries to set. *)
Theorem UpdateHttpEventSourceBodySchema_empty (props : Props) :
  (forall key, In key [ "connectionId"; "secret"; "data"; "active" ] ->
     hasProp key props = false) ->
  UpdateHttpEventSourceBodySchema (JObj props) = OK (JObj []).
Proof.
  intros Habsent.
  assert (H1 : hasProp "connectionId" props = false) by (apply Habsent; simpl; auto).
  assert (H2 : hasProp "secret" props = false) by (apply Habsent; simpl; auto).
  assert (H3 : hasProp "data" props = false) by (apply Habsent; simpl; auto).
  assert (H4 : hasProp "active" props = false) by (apply Habsent; simpl; auto 6).
  unfold UpdateHttpEventSourceBodySchema, z_object, shapePairs.
  cbn [UpdateHttpEventSourceBodyShape RegisterHttpEventSourceBodyShape shape_extend
       shape_omit shapeSet List.filter existsb negb orb fold_left fst snd String.eqb
       Ascii.eqb Bool.eqb map].
  rewrite H1, H2, H3, H4.
  rewrite !hasProp_false_getProp by assumption.
  reflexivity.
Qed.

(** X20 at an update that tries to move a source to another key and
    address. *)
Lemma UpdateHttpEventSourceBodySchema_empty_witness :
  UpdateHttpEventSourceBodySchema
    (JObj [ ("key", JStr "github.issues");
            ("url", JStr "https://example.com/hooks/src_2") ])
  = OK (JObj []).
Proof.
  apply (UpdateHttpEventSourceBodySchema_empty
           [ ("key", JStr "github.issues");
             ("url", JStr "https://example.com/hooks/src_2") ]).
  intros key Hin. simpl in Hin.
  repeat (destruct Hin as [ <- | Hin ]); try contradiction; reflexivity.
Defined.
